(** * Weibo hot-search pipeline: keyword normalisation, filtering and the
      map/reduce aggregators

    A shallow embedding of [segment.py], [mapper.py], [reducer.py],
    [cooccurrence_mapper.py] and [cooccurrence_reducer.py], with the
    properties the design document states about them, and of
    [time_dist_mapper.py] and the readers of [web/app.py], with what
    the scripts hand to one another.

    Python [str] values are sequences of Unicode code points, so that
    [len], slicing, [in] and [<] mean what they mean in the scripts.
    Python [int] is [Z].  Sets are [gset]; dictionaries whose iteration
    order is observable are association lists in insertion order. *)

From Stdlib Require Import ZArith NArith List String Ascii Bool Lia.
From Stdlib Require Import Permutation Sorted.
From Stdlib Require Import Floats.SpecFloat.
From stdpp Require Import gmap.
Import ListNotations.

(** ** The Python runtime the scripts rely on *)

Module Py.

Abbreviation char := N (only parsing).
Abbreviation str := (list N) (only parsing).

Local Open Scope N_scope.

(** Source-text literals: the file is UTF-8, a literal denotes the
    sequence of its code points. *)
Fixpoint utf8 (bs : list N) : str :=
  match bs with
  | [] => []
  | b :: r =>
    if b <? 128 then b :: utf8 r
    else if b <? 224 then
      match r with
      | b1 :: r' => ((b mod 32) * 64 + b1 mod 64) :: utf8 r'
      | _ => []
      end
    else if b <? 240 then
      match r with
      | b1 :: b2 :: r' =>
          ((b mod 16) * 4096 + (b1 mod 64) * 64 + b2 mod 64) :: utf8 r'
      | _ => []
      end
    else
      match r with
      | b1 :: b2 :: b3 :: r' =>
          ((b mod 8) * 262144 + (b1 mod 64) * 4096 + (b2 mod 64) * 64
           + b3 mod 64) :: utf8 r'
      | _ => []
      end
  end.

Definition u (s : string) : str :=
  utf8 (List.map N_of_ascii (list_ascii_of_string s)).
Arguments u s%_string.

(** What the interpreter's Unicode database and configuration decide
    outside ASCII and the CJK block [U+4E00..U+9FFF]. *)
Class Runtime := {
  unicode_lower : str -> str;
  unicode_isdigit : char -> bool;
  unicode_isalnum : char -> bool;
  unicode_decimal : char -> option N;
  int_max_str_digits : N;
}.

Definition is_ascii (c : char) : bool := c <? 128.
Definition is_cjk (c : char) : bool := (19968 <=? c) && (c <=? 40959).
Definition is_upper (c : char) : bool := (65 <=? c) && (c <=? 90).
Definition is_lower (c : char) : bool := (97 <=? c) && (c <=? 122).
Definition is_alpha (c : char) : bool := is_upper c || is_lower c.
Definition is_digit (c : char) : bool := (48 <=? c) && (c <=? 57).

(** [Py_UNICODE_ISSPACE]: [str.strip()], [str.split()] and the regex
    class [\s]. *)
Definition isspace (c : char) : bool :=
  ((9 <=? c) && (c <=? 13)) || ((28 <=? c) && (c <=? 32))
  || (c =? 133) || (c =? 160) || (c =? 5760)
  || ((8192 <=? c) && (c <=? 8202))
  || (c =? 8232) || (c =? 8233) || (c =? 8239) || (c =? 8287)
  || (c =? 12288).

Fixpoint lstrip (s : str) : str :=
  match s with
  | [] => []
  | c :: r => if isspace c then lstrip r else s
  end.

Definition rstrip (s : str) : str := rev (lstrip (rev s)).

(** [s.strip()] *)
Definition strip (s : str) : str := rstrip (lstrip s).

(** [s.split()]: maximal runs of non-whitespace, [cur] holds the run
    being read, reversed. *)
Fixpoint split_run (cur s : str) : list str :=
  match s with
  | [] => match cur with [] => [] | _ => [rev cur] end
  | c :: r =>
    if isspace c then
      match cur with
      | [] => split_run [] r
      | _ => rev cur :: split_run [] r
      end
    else split_run (c :: cur) r
  end.

Definition split (s : str) : list str := split_run [] s.

(** [s.split(sep, 1)] for a one-character separator: one or two parts. *)
Fixpoint split1 (sep : char) (s : str) : list str :=
  match s with
  | [] => [[]]
  | c :: r =>
    if c =? sep then [[]; r]
    else match split1 sep r with
         | a :: rest => (c :: a) :: rest
         | [] => [[c]]
         end
  end.

Definition eqb (a b : str) : bool := bool_decide (a = b).

Fixpoint startswith (s p : str) : bool :=
  match p, s with
  | [], _ => true
  | a :: p', b :: s' => (a =? b) && startswith s' p'
  | _ :: _, [] => false
  end.

(** [sub in s] *)
Fixpoint contains (sub s : str) : bool :=
  startswith s sub ||
  match s with
  | [] => false
  | _ :: s' => contains sub s'
  end.

(** [c in s] for a single character *)
Definition has_char (c : char) (s : str) : bool := existsb (N.eqb c) s.

(** [a < b] on strings: code point by code point, a proper prefix is
    smaller. *)
Fixpoint ltb (a b : str) : bool :=
  match a, b with
  | _, [] => false
  | [], _ :: _ => true
  | x :: a', y :: b' => (x <? y) || ((x =? y) && ltb a' b')
  end.

Definition ascii_lower (c : char) : char := if is_upper c then c + 32 else c.
Definition ascii_upper (c : char) : char := if is_lower c then c - 32 else c.

Section WithRuntime.
Context {R : Runtime}.

(** [s.lower()] *)
Definition lower (s : str) : str :=
  if forallb (fun c => is_ascii c || is_cjk c) s
  then List.map ascii_lower s
  else unicode_lower s.

(** [s.upper()], used by the scripts on ASCII letters only *)
Definition upper (s : str) : str := List.map ascii_upper s.

Definition isdigit_char (c : char) : bool :=
  if is_ascii c then is_digit c
  else if is_cjk c then false
  else unicode_isdigit c.

(** [s.isdigit()] *)
Definition isdigit (s : str) : bool :=
  match s with
  | [] => false
  | _ => forallb isdigit_char s
  end.

(** The regex class [\w] on [str] patterns *)
Definition is_word (c : char) : bool :=
  if is_ascii c then is_alpha c || is_digit c || (c =? 95)
  else if is_cjk c then true
  else unicode_isalnum c.

(** [re.fullmatch] against [[A-Za-z]+] *)
Definition fullmatch_alpha (s : str) : bool :=
  match s with
  | [] => false
  | _ => forallb is_alpha s
  end.

(** [re.search] for one character of [U+4E00..U+9FFF] *)
Definition search_cjk (s : str) : bool := existsb is_cjk s.

(** *** [int(s)] in base 10 *)

(** Decimal digits and spaces of any script are brought to ASCII first;
    anything else outside ASCII becomes [?]. *)
Definition to_ascii (c : char) : char :=
  if c <? 127 then c
  else if isspace c then 32
  else match unicode_decimal c with
       | Some d => if d <? 10 then 48 + d else 63
       | None => 63
       end.

Definition c_isspace (c : char) : bool :=
  ((9 <=? c) && (c <=? 13)) || (c =? 32).

Fixpoint skip_c_space (s : str) : str :=
  match s with
  | [] => []
  | c :: r => if c_isspace c then skip_c_space r else s
  end.

(** Digits with single underscores between them.  [prev_us] tells
    whether the previous character was an underscore; the result is the
    value, the number of digits and the unread rest. *)
Fixpoint scan_digits (s : str) (prev_us : bool) (acc : Z) (n : N)
  : option (Z * N * str) :=
  match s with
  | [] => if prev_us then None else Some (acc, n, [])
  | c :: r =>
    if is_digit c then
      scan_digits r false (acc * 10 + Z.of_N (c - 48))%Z (n + 1)
    else if c =? 95 then
      if prev_us then None else scan_digits r true acc n
    else if prev_us then None else Some (acc, n, s)
  end.

Definition int_ascii (s : str) : option Z :=
  let s := skip_c_space s in
  let '(neg, s) :=
    match s with
    | 43 :: r => (false, r)
    | 45 :: r => (true, r)
    | _ => (false, s)
    end in
  match s with
  | [] => None
  | c :: _ =>
    if is_digit c then
      match scan_digits s false 0%Z 0 with
      | Some (v, n, rest) =>
        match skip_c_space rest with
        | [] =>
          if (640 <? n) && (0 <? int_max_str_digits)
             && (int_max_str_digits <? n)
          then None
          else Some (if neg then (- v)%Z else v)
        | _ => None
        end
      | None => None
      end
    else None
  end.

(** [int(s)]; [None] is [ValueError]. *)
Definition int (s : str) : option Z := int_ascii (List.map to_ascii s).

End WithRuntime.

(** *** [sorted] *)

(** Python's sort is stable.  [lt y x] says that [y] must come before
    [x]; an element is put in front of the first one that need not
    precede it, and elements are inserted from the right, so equal
    elements keep their order. *)
Section Sorting.
Context {A : Type} (lt : A -> A -> bool).

Fixpoint insert_sorted (x : A) (l : list A) : list A :=
  match l with
  | [] => [x]
  | y :: l' => if lt y x then y :: insert_sorted x l' else x :: l
  end.

Definition sorted (l : list A) : list A := fold_right insert_sorted [] l.

End Sorting.

(** [sorted(l, key=lambda x: x[1], reverse=True)] *)
Definition sorted_by_count_desc {K : Type} (l : list (K * Z)) : list (K * Z) :=
  sorted (fun y x => (snd x <? snd y)%Z) l.

(** *** [count > existing_count * 0.7] *)

(** The literal [0.7] is the double [0x1.6666666666666p-1]. *)
Definition float_0_7 : spec_float := S754_finite false 6305039478318694 (-53).

(** [float(n)]: round to nearest even; [None] is [OverflowError]. *)
Definition float_of_int (n : Z) : option spec_float :=
  match binary_normalize 53 1024 n 0 false with
  | S754_infinity _ | S754_nan => None
  | f => Some f
  end.

(** [n > f] compares the exact values. *)
Definition int_gt_float (n : Z) (f : spec_float) : bool :=
  match f with
  | S754_zero _ => (0 <? n)%Z
  | S754_infinity s => s
  | S754_nan => false
  | S754_finite s m e =>
    let v := if s then Z.neg m else Z.pos m in
    if (0 <=? e)%Z then (v * 2 ^ e <? n)%Z
    else (v <? n * 2 ^ (- e))%Z
  end.

(** [count > existing_count * 0.7]; [None] when the product raises. *)
Definition gt_0_7 (count existing_count : Z) : option bool :=
  match float_of_int existing_count with
  | None => None
  | Some f => Some (int_gt_float count (SFmul 53 1024 f float_0_7))
  end.

(** *** Lists and dictionaries *)

(** [l.remove(x)]: the first element equal to [x] goes. *)
Fixpoint list_remove (x : str * Z) (l : list (str * Z)) : list (str * Z) :=
  match l with
  | [] => []
  | y :: l' => if bool_decide (y = x) then l' else y :: list_remove x l'
  end.

(** A [dict] with string keys, in insertion order.  Assigning to a key
    that is present replaces its value and keeps its place. *)
Abbreviation dict V := (list (str * V)) (only parsing).

Fixpoint dict_get {V : Type} (k : str) (d : dict V) : option V :=
  match d with
  | [] => None
  | (k', v) :: d' => if eqb k' k then Some v else dict_get k d'
  end.

Fixpoint dict_set {V : Type} (k : str) (v : V) (d : dict V) : dict V :=
  match d with
  | [] => [(k, v)]
  | (k', v') :: d' =>
    if eqb k' k then (k', v) :: d' else (k', v') :: dict_set k v d'
  end.

(** A dictionary display [{k1: v1, k2: v2, ...}] assigns its items from
    left to right. *)
Definition dict_literal {V : Type} (items : list (str * V)) : dict V :=
  fold_left (fun d kv => dict_set (fst kv) (snd kv) d) items [].

(** A runtime that knows no letters, digits or spaces beyond ASCII and
    the CJK block, with the default limit on the digits of an integer
    literal. *)
Definition bare_runtime : Runtime := {|
  unicode_lower := fun s => s;
  unicode_isdigit := fun _ => false;
  unicode_isalnum := fun _ => false;
  unicode_decimal := fun _ => None;
  int_max_str_digits := 4300;
|}.

End Py.

Abbreviation str := (list N) (only parsing).
Abbreviation u := Py.u.

(** ** segment.py *)

Module Segment.

(** 1) spelling variants *)
Definition NORMALIZE_MAP : Py.dict str :=
  Eval vm_compute in Py.dict_literal [
    (u "爆光", u "曝光");
    (u "官宣了", u "官宣");
    (u "官宣啦", u "官宣");
    (u "预告", u "预告片");
    (u "微博", u "微博");
    (u "热搜", u "热搜");
    (u "回应", u "回应");
    (u "曝光", u "曝光");
    (u "官方", u "官方");
    (u "声明", u "声明");
    (u "最新", u "最新");
    (u "终于", u "终于");
    (u "竟然", u "竟然");
    (u "惊呆", u "惊呆");
    (u "炸了", u "炸裂");
    (u "崩溃", u "崩溃");
    (u "无语", u "无语");
    (u "哭了", u "哭泣");
    (u "笑死", u "笑死");
    (u "太好哭", u "太好哭");
    (u "破防", u "破防");
    (u "上头", u "上头");
    (u "绝绝子", u "绝绝子");
    (u "无语子", u "无语子");
    (u "yyds", u "永远的神");
    (u "zfb", u "支付宝");
    (u "xswl", u "笑死我了");
    (u "nsdd", u "你说得对");
    (u "nbcs", u "没人在乎");
    (u "gkd", u "搞快点");
    (u "ssfd", u "瑟瑟发抖");
    (u "plgg", u "漂亮哥哥");
    (u "wpp", u "网友");
    (u "bp", u "闭麦");
    (u "blx", u "玻璃心");
    (u "cjb", u "成绩表");
    (u "dbq", u "对不起");
    (u "doge", u "doge");
    (u "emmm", u "嗯");
    (u "srds", u "虽然但是");
    (u "xjj", u "小姐姐");
    (u "yysy", u "有一说一");
    (u "物料", u "物料");
    (u "杀我", u "杀我");
    (u "上热搜", u "上热搜")
  ].

(** 2) junk and filler words *)
Definition BAD_WORDS : gset str :=
  list_to_set [
    u "粉丝"; u "感动"; u "预告片"; u "回收"; u "产业链"; u "摔倒"; u "房型";
    u "妹妹"; u "妹"; u "妹子"; u "小妹"; u "儿子"; u "女儿"; u "老公"; u "老婆";
    u "姐姐"; u "姐"; u "哥哥"; u "哥"; u "妈妈"; u "妈"; u "爸爸"; u "爸";
    u "小"; u "大"; u "太"; u "很"; u "真的"; u "觉得"; u "好像"; u "一个";
    u "现场"; u "视频"; u "照片"; u "网友"; u "热搜"; u "回应"; u "最新";
    u "爆料"; u "真相"; u "原因"; u "结果"; u "进展"; u "后续"; u "瓜";
    u "妹小"; u "这个"; u "那个"; u "什么"; u "怎么"; u "如何"; u "为什么";
    u "已经"; u "开始"; u "结束"; u "终于"; u "可能"; u "应该"; u "需要";
    u "大家"; u "有人"; u "没有"; u "不是"; u "就是";
    u "但是"; u "而且"; u "虽然"; u "因为"; u "所以"; u "如果"; u "只有";
    u "自己"; u "别人"; u "事情"; u "问题"; u "东西"; u "时候"; u "地方";
    u "一下"; u "一点"; u "一些"; u "这种"; u "那样"; u "怎样";
    u "确实"; u "简直"; u "居然"; u "竟然"; u "总算";
    u "看看"; u "说说"; u "听听"; u "问问"; u "想想"; u "念念";
    u "今天"; u "昨天"; u "明天"; u "今年"; u "去年"; u "明年"; u "以前";
    u "以后"; u "现在"; u "马上"; u "立刻"; u "正在"; u "曾经";
    u "还有"; u "只有"; u "都是"; u "总是"; u "经常"; u "偶尔";
    u "也许"; u "大概"; u "似乎"; u "仿佛"; u "反正";
    u "实在"; u "果然"; u "难怪"; u "怪不得";
    u "千万"; u "一定"; u "必须";
    u "快来"; u "快去"; u "快看"; u "快听"; u "快说"; u "快打";
    u "来了"; u "去了"; u "看了"; u "听了"; u "说了"; u "打了";
    u "热搜榜"; u "热榜"; u "话题"; u "超话"; u "广场";
    u "微博"; u "微博之夜"; u "微博电影";
    u "工作室"; u "公司"; u "方面"; u "消息";
    u "第一时间"; u "最新消息"; u "刚刚"; u "官方回应";
    u "强烈推荐"; u "推荐"; u "来看"; u "这部"; u "太好";
    u "太好哭"; u "太好笑"; u "一起来"; u "一起来看"
  ].

(** 3) kinship and address terms: the alternatives of [KINSHIP_RE] *)
Definition KINSHIP_RE : list str :=
  [u "妹"; u "姐"; u "哥"; u "弟"; u "嫂"; u "姨"; u "叔"; u "舅";
   u "爸"; u "妈"; u "爹"; u "娘"; u "儿子"; u "女儿"; u "老公"; u "老婆"].

(** [KINSHIP_RE.search(w)] *)
Definition KINSHIP_RE_search (w : str) : bool :=
  existsb (fun p => Py.contains p w) KINSHIP_RE.

(** 5) parts of speech that are kept *)
Definition ALLOW_POS_PREFIX : list str := [u "n"; u "v"; u "a"; u "eng"].
Definition ALLOW_POS_EXACT : gset str :=
  list_to_set [u "nr"; u "ns"; u "nt"; u "nz"; u "eng"; u "an"; u "i"; u "j"].

(** 6) words that never take part in a merged phrase *)
Definition BAD_COMPONENT : gset str :=
  list_to_set [u "妹"; u "小"; u "姐"; u "哥"; u "儿子"; u "女儿";
               u "粉丝"; u "微博"; u "热搜"].

Section WithRuntime.
Context {R : Py.Runtime}.

(** *** clean_title *)

Fixpoint span_len (p : N -> bool) (s : str) : nat :=
  match s with
  | c :: r => if p c then S (span_len p r) else O
  | [] => O
  end.

(** Distance to the first [close] with no newline before it: the lazy
    [.*?] of the bracket alternatives. *)
Fixpoint find_close (close : N) (s : str) : option nat :=
  match s with
  | [] => None
  | c :: r =>
    if (c =? close)%N then Some O
    else if (c =? 10)%N then None
    else option_map S (find_close close r)
  end.

Definition bracketed (close : N) (r : str) : option nat :=
  option_map (fun k => (k + 2)%nat) (find_close close r).

(** Length of the match of [WEIBO_NOISE_RE] at the start of [s].  The
    eight alternatives begin with different characters, so at most one
    of them applies:
    [#\w+#], [@\w+], [http[s]?://\S+], [&\w+;], the literal 转发微博,
    and the three bracket pairs with a lazy body. *)
Definition WEIBO_NOISE_RE_match (s : str) : option nat :=
  match s with
  | [] => None
  | c :: r =>
    if (c =? 35)%N then
      let n := span_len Py.is_word r in
      if (0 <? n)%nat && Py.startswith (skipn n r) [35%N]
      then Some (n + 2)%nat else None
    else if (c =? 64)%N then
      let n := span_len Py.is_word r in
      if (0 <? n)%nat then Some (n + 1)%nat else None
    else if Py.startswith s (u "http") then
      let r4 := skipn 4 s in
      let '(k, r5) :=
        if Py.startswith r4 (u "s") then (5%nat, skipn 1 r4)
        else (4%nat, r4) in
      if Py.startswith r5 (u "://") then
        let n := span_len (fun c => negb (Py.isspace c)) (skipn 3 r5) in
        if (0 <? n)%nat then Some (k + 3 + n)%nat else None
      else None
    else if (c =? 38)%N then
      let n := span_len Py.is_word r in
      if (0 <? n)%nat && Py.startswith (skipn n r) [59%N]
      then Some (n + 2)%nat else None
    else if Py.startswith s (u "转发微博") then Some 4%nat
    else if (c =? 91)%N then bracketed 93 r
    else if (c =? 40)%N then bracketed 41 r
    else if (c =? 65288)%N then bracketed 65289 r
    else None
  end.

(** [WEIBO_NOISE_RE.sub(" ", s)]: matches are found from the left and do
    not overlap; [skip] counts the characters of the current match still
    to be passed over. *)
Fixpoint WEIBO_NOISE_RE_sub (skip : nat) (s : str) : str :=
  match s with
  | [] => []
  | c :: r =>
    match skip with
    | S k => WEIBO_NOISE_RE_sub k r
    | O =>
      match WEIBO_NOISE_RE_match s with
      | Some n => 32%N :: WEIBO_NOISE_RE_sub (n - 1) r
      | None => c :: WEIBO_NOISE_RE_sub O r
      end
    end
  end.

(** [re.sub(r"[...]+", " ", s)] for a character class [p]: every maximal
    run of characters in [p] becomes one space. *)
Fixpoint sub_runs (p : N -> bool) (in_run : bool) (s : str) : str :=
  match s with
  | [] => []
  | c :: r =>
    if p c then
      if in_run then sub_runs p true r else 32%N :: sub_runs p true r
    else c :: sub_runs p false r
  end.

Definition keep_char (c : N) : bool :=
  Py.is_cjk c || (Py.is_ascii c && (Py.is_alpha c || Py.is_digit c)).

Definition clean_title (s : str) : str :=
  match s with
  | [] => []
  | _ =>
    let s := WEIBO_NOISE_RE_sub O s in
    let s := sub_runs (fun c => negb (keep_char c)) false s in
    Py.strip (sub_runs Py.isspace false s)
  end.

(** *** normalize_word *)

Definition normalize_word (w : str) : str :=
  let w := Py.strip w in
  match w with
  | [] => []
  | _ =>
    let w_lower := Py.lower w in
    let w := match Py.dict_get w_lower NORMALIZE_MAP with
             | Some v => v
             | None => w
             end in
    if Py.fullmatch_alpha w then Py.upper w else w
  end.

(** *** is_bad_token *)

Definition is_bad_token (w : str) (stop_set : gset str) : bool :=
  match w with
  | [] => true
  | _ =>
    if bool_decide (w ∈ stop_set) then true
    else if bool_decide (w ∈ BAD_WORDS) then true
    else if Py.isdigit w then true
    else if Py.fullmatch_alpha w && (length w <? 2)%nat then true
    else if Py.search_cjk w && ((length w <? 2)%nat || (10 <? length w)%nat)
    then true
    else if KINSHIP_RE_search w && (length w <=? 4)%nat then true
    else false
  end.

(** *** allow_by_pos *)

Definition allow_by_pos (flag : str) : bool :=
  match flag with
  | [] => false
  | _ =>
    if bool_decide (flag ∈ ALLOW_POS_EXACT) then true
    else existsb (fun p => Py.startswith flag p) ALLOW_POS_PREFIX
  end.

(** *** calculate_word_score *)

Definition high_value_flags : list str := [u "nr"; u "ns"; u "nt"; u "nz"].

Definition calculate_word_score (word flag1 flag2 : str)
    (pos_list : list (str * str)) : Z :=
  let score := (Z.of_nat (length word) * 2)%Z in
  let score :=
    if bool_decide (flag1 ∈ ALLOW_POS_EXACT)
       || bool_decide (flag2 ∈ ALLOW_POS_EXACT)
    then (score + 10)%Z else score in
  let score :=
    if Py.startswith flag1 (u "n") || Py.startswith flag2 (u "n")
    then (score + 5)%Z else score in
  let score :=
    if Py.startswith flag1 (u "a") || Py.startswith flag2 (u "a")
    then (score + 3)%Z else score in
  let score :=
    if existsb (Py.eqb flag1) high_value_flags
       || existsb (Py.eqb flag2) high_value_flags
    then (score + 15)%Z else score in
  fold_left
    (fun score wf =>
       if Py.eqb (fst wf) word then score
       else if Py.contains word (fst wf) then (score + 2)%Z
       else score)
    pos_list score.

(** *** tokenize *)

(** The segmenter is jieba, which is not part of the repository:
    [pseg] is [jieba.posseg.cut(title, HMM=False)] when that module could
    be imported, [lcut] is [jieba.lcut(title, HMM=False)]. *)
Section Tokenize.
Variable pseg : option (str -> list (str * str)).
Variable lcut : str -> list str.

(** The first loop.  [tokens] and [pos_list] grow together, so [tokens]
    is the first components of [pos_list]. *)
Definition tagged_tokens (title : str) (stop_set : gset str)
  : list (str * str) :=
  match pseg with
  | Some cut =>
    flat_map
      (fun wf =>
         let w := normalize_word (fst wf) in
         match w with
         | [] => []
         | _ =>
           if negb (allow_by_pos (snd wf)) then []
           else if is_bad_token w stop_set then []
           else [(w, snd wf)]
         end)
      (cut title)
  | None =>
    flat_map
      (fun w =>
         let w := normalize_word w in
         if is_bad_token w stop_set then [] else [(w, [])])
      (lcut title)
  end.

(** [pos_list[i], pos_list[i + 1]] for [i] in [range(len(pos_list) - 1)] *)
Fixpoint adjacent {A : Type} (l : list A) : list (A * A) :=
  match l with
  | a :: r =>
    match r with
    | b :: _ => (a, b) :: adjacent r
    | [] => []
    end
  | [] => []
  end.

Definition phrase_flag_ok (f : str) : bool :=
  bool_decide (f ∈ ALLOW_POS_EXACT) || Py.startswith f (u "n")
  || Py.startswith f (u "a") || Py.eqb f [].

(** One round of the phrase loop: the scored phrase it appends, if any. *)
Definition phrase_of (pos_list : list (str * str)) (stop_set : gset str)
    (p : (str * str) * (str * str)) : list (str * Z) :=
  let '((w1, f1), (w2, f2)) := p in
  if bool_decide (w1 ∈ BAD_COMPONENT) || bool_decide (w2 ∈ BAD_COMPONENT)
  then []
  else if KINSHIP_RE_search w1 || KINSHIP_RE_search w2 then []
  else if negb (phrase_flag_ok f1 && phrase_flag_ok f2) then []
  else
    let phrase := normalize_word (w1 ++ w2) in
    if is_bad_token phrase stop_set then []
    else if (length phrase <? 2)%nat || (8 <? length phrase)%nat then []
    else [(phrase, calculate_word_score phrase f1 f2 pos_list)].

(** The two closing loops: append what [seen] does not hold yet. *)
Fixpoint add_unseen (ws : list str) (seen : gset str) (final_tokens : list str)
  : gset str * list str :=
  match ws with
  | [] => (seen, final_tokens)
  | w :: r =>
    if bool_decide (w ∈ seen) then add_unseen r seen final_tokens
    else add_unseen r ({[w]} ∪ seen) (final_tokens ++ [w])
  end.

Definition tokenize (title : str) (stop_set : gset str) : list str :=
  let title := clean_title title in
  match title with
  | [] => []
  | _ =>
    let pos_list := tagged_tokens title stop_set in
    let tokens := List.map fst pos_list in
    match pos_list with
    | [] => []
    | _ =>
      let phrases := flat_map (phrase_of pos_list stop_set) (adjacent pos_list) in
      let phrases := Py.sorted_by_count_desc phrases in
      let '(seen, final_tokens) := add_unseen (List.map fst phrases) ∅ [] in
      let '(seen, final_tokens) := add_unseen tokens seen final_tokens in
      firstn 40 final_tokens
    end
  end.

End Tokenize.

End WithRuntime.

(** *** deduplicate_by_inclusion *)

(** The loop [for existing_word, existing_count in result] with the list
    iterator's index [i]: [result.remove] shifts the list under the
    iterator.  The answer is the list and [should_add]; [None] when the
    comparison raises.  An iteration needs [i < len(result)], so
    [len(result)] rounds of [fuel] are never used up. *)
Fixpoint scan_result (fuel : nat) (word : str) (count : Z)
    (result : list (str * Z)) (i : nat) : option (list (str * Z) * bool) :=
  match fuel with
  | O => Some (result, true)
  | S fuel' =>
    match nth_error result i with
    | None => Some (result, true)
    | Some (existing_word, existing_count) =>
      if Py.contains word existing_word then Some (result, false)
      else if Py.contains existing_word word then
        match Py.gt_0_7 count existing_count with
        | None => None
        | Some true =>
          scan_result fuel' word count
            (Py.list_remove (existing_word, existing_count) result) (S i)
        | Some false => Some (result, false)
        end
      else scan_result fuel' word count result (S i)
    end
  end.

Fixpoint dedup_loop (sorted_words result : list (str * Z))
  : option (list (str * Z)) :=
  match sorted_words with
  | [] => Some result
  | (word, count) :: rest =>
    match scan_result (length result) word count result O with
    | None => None
    | Some (result, should_add) =>
      dedup_loop rest (if should_add then result ++ [(word, count)] else result)
    end
  end.

Definition deduplicate_by_inclusion (words_with_counts : list (str * Z))
  : option (list (str * Z)) :=
  match words_with_counts with
  | [] => Some []
  | _ =>
    let sorted_words := Py.sorted_by_count_desc words_with_counts in
    match dedup_loop sorted_words [] with
    | None => None
    | Some result => Some (Py.sorted_by_count_desc result)
    end
  end.

(** *** SEMANTIC_GROUPS, normalize_semantic, merge_semantic_duplicates *)

(** The display names the key 发声 twice. *)
Definition SEMANTIC_GROUPS : Py.dict (list str) :=
  Eval vm_compute in Py.dict_literal [
    (u "火灾事故", [u "火灾"; u "事故"; u "起火"; u "失火"; u "着火"]);
    (u "调查报告", [u "报告"; u "调查"; u "通报"; u "结果"; u "结论"]);
    (u "展品", [u "文物"; u "展品"; u "藏品"; u "古董"; u "艺术品"]);
    (u "真假", [u "真伪"; u "真假"; u "真假"; u "伪造"; u "赝品"]);
    (u "怀孕", [u "怀孕"; u "妊娠"; u "有孕"; u "有喜"; u "准妈妈"]);
    (u "发声", [u "发声"; u "回应"; u "回应"; u "表态"; u "说话"]);
    (u "质疑", [u "质疑"; u "质疑"; u "怀疑"; u "争议"; u "争议"]);
    (u "驾车", [u "开车"; u "驾车"; u "驾驶"; u "开车"; u "开远"]);
    (u "身亡", [u "死亡"; u "身亡"; u "去世"; u "逝世"; u "丧命"]);
    (u "手术", [u "手术"; u "手术"; u "开刀"; u "治疗"; u "救治"]);
    (u "利用漏洞", [u "漏洞"; u "利用"; u "系统漏洞"; u "黑客"]);
    (u "智力障碍", [u "智力"; u "障碍"; u "智障"; u "残疾"]);
    (u "博物馆", [u "博物馆"; u "展馆"; u "美术馆"; u "博物院"]);
    (u "格莱美", [u "格莱美"; u "grammy"; u "颁奖礼"]);
    (u "旗舰", [u "旗舰"; u "高端"; u "顶级"; u "豪华"]);
    (u "镜头", [u "镜头"; u "画面"; u "影像"; u "画面"]);
    (u "舞台", [u "舞台"; u "表演"; u "演出现场"]);
    (u "发声", [u "发声"; u "表态"; u "发言"; u "回应"])
  ].

Definition group_matches (word : str) (g : str * list str) : bool :=
  existsb (Py.eqb word) (snd g) || Py.eqb word (fst g).

Definition normalize_semantic (word : str) : str :=
  match find (group_matches word) SEMANTIC_GROUPS with
  | Some (standard, _) => standard
  | None => word
  end.

Definition merge_step (merged : Py.dict Z) (wc : str * Z) : Py.dict Z :=
  let normalized := normalize_semantic (fst wc) in
  match Py.dict_get normalized merged with
  | Some v => Py.dict_set normalized (v + snd wc)%Z merged
  | None => Py.dict_set normalized (0 + snd wc)%Z merged
  end.

Definition merge_semantic_duplicates (words_with_counts : list (str * Z))
  : list (str * Z) :=
  match words_with_counts with
  | [] => []
  | _ => Py.sorted_by_count_desc (fold_left merge_step words_with_counts [])
  end.

End Segment.

(** ** mapper.py *)

Module Mapper.

Definition SEMANTIC_GROUPS : Py.dict (list str) :=
  Eval vm_compute in Py.dict_literal [
    (u "火灾事故", [u "火灾"; u "事故"; u "起火"; u "失火"; u "着火"]);
    (u "调查报告", [u "报告"; u "调查"; u "通报"; u "结果"; u "结论"]);
    (u "展品", [u "文物"; u "展品"; u "藏品"; u "古董"; u "艺术品"]);
    (u "真假", [u "真伪"; u "真假"; u "伪造"; u "赝品"]);
    (u "怀孕", [u "怀孕"; u "妊娠"; u "有孕"; u "有喜"; u "准妈妈"]);
    (u "发声", [u "发声"; u "回应"; u "表态"; u "说话"]);
    (u "质疑", [u "质疑"; u "怀疑"; u "争议"]);
    (u "驾车", [u "开车"; u "驾车"; u "驾驶"]);
    (u "身亡", [u "死亡"; u "身亡"; u "去世"; u "逝世"; u "丧命"]);
    (u "手术", [u "手术"; u "开刀"; u "治疗"; u "救治"]);
    (u "利用漏洞", [u "漏洞"; u "利用"; u "系统漏洞"; u "黑客"]);
    (u "智力障碍", [u "智力"; u "障碍"; u "智障"; u "残疾"]);
    (u "博物馆", [u "博物馆"; u "展馆"; u "美术馆"; u "博物院"]);
    (u "格莱美", [u "格莱美"; u "grammy"; u "颁奖礼"]);
    (u "旗舰", [u "旗舰"; u "高端"; u "顶级"; u "豪华"]);
    (u "镜头", [u "镜头"; u "画面"; u "影像"]);
    (u "舞台", [u "舞台"; u "表演"; u "演出现场"])
  ].

Definition EXCLUDE_PREFIXES : list str :=
  [u "原"; u "级"; u "化"; u "体"; u "性"].

Definition group_matches (word : str) (g : str * list str) : bool :=
  existsb (Py.eqb word) (snd g) || Py.eqb word (fst g).

Definition normalize_semantic (word : str) : str :=
  match find (group_matches word) SEMANTIC_GROUPS with
  | Some (standard, _) => standard
  | None => word
  end.

Definition should_exclude (word base_word : str) : bool :=
  if (length word <=? length base_word)%nat then false
  else
    let extra := skipn (length base_word) word in
    (length extra <=? 2)%nat
    && existsb (fun p => Py.startswith extra p) EXCLUDE_PREFIXES.

Definition normalize_word_mapper (word : str) : str := normalize_semantic word.

(** [weight = 51 - rank], raised to 1 when smaller *)
Definition weight_of_rank (rank : Z) : Z :=
  let weight := (51 - rank)%Z in
  if (weight <? 1)%Z then 1%Z else weight.

Section WithRuntime.
Context {R : Py.Runtime}.

(** The [try] block on a stripped line that holds a comma: the weight
    and the tokens, or [None] where the loop goes on to the next line. *)
Definition rank_str (parts : list str) : str := Py.strip (nth 0 parts []).

Definition tokens_str (parts : list str) : str :=
  if (1 <? length parts)%nat then Py.strip (nth 1 parts []) else [].

Definition parse (line : str) : option (Z * list str) :=
  let parts := Py.split1 44 line in
  match Py.int (rank_str parts) with
  | None => None
  | Some rank =>
    let weight := weight_of_rank rank in
    match tokens_str parts with
    | [] => None
    | _ => Some (weight, Py.split (tokens_str parts))
    end
  end.

(** The loop over the tokens of one line: the set [seen] afterwards and
    the records written. *)
Fixpoint emit (weight : Z) (tokens : list str) (seen : gset str)
  : gset str * list (str * Z) :=
  match tokens with
  | [] => (seen, [])
  | token :: rest =>
    let normalized := normalize_word_mapper token in
    match normalized with
    | [] => emit weight rest seen
    | _ =>
      if (length normalized <? 2)%nat then emit weight rest seen
      else
        let key := normalized in
        if bool_decide (key ∈ seen) then emit weight rest seen
        else
          let '(seen', out) := emit weight rest ({[key]} ∪ seen) in
          (seen', (key, weight) :: out)
    end
  end.

(** One round of [for line in sys.stdin]. *)
Definition step (seen : gset str) (line : str) : gset str * list (str * Z) :=
  let line := Py.strip line in
  match line with
  | [] => (seen, [])
  | _ =>
    if negb (Py.has_char 44 line) then (seen, [])
    else
      match parse line with
      | None => (seen, [])
      | Some (weight, tokens) => emit weight tokens seen
      end
  end.

(** The records written for each input line, [seen] passing from one
    line to the next. *)
Fixpoint run (stdin : list str) (seen : gset str) : list (list (str * Z)) :=
  match stdin with
  | [] => []
  | line :: rest =>
    let '(seen', out) := step seen line in
    out :: run rest seen'
  end.

(** [main]: [seen = set()] is made once, before the loop; each record
    [(key, weight)] is a line [key<TAB>weight] on standard output. *)
Definition main (stdin : list str) : list (str * Z) := concat (run stdin ∅).

End WithRuntime.

End Mapper.

(** ** reducer.py *)

Module Reducer.

(** *** deduplicate_by_inclusion *)

(** The loop [for existing_word, existing_count in result] with the list
    iterator's index [i]: [result.remove] shifts the list under the
    iterator.  The answer is the list and [should_add]; [None] when the
    comparison raises.  An iteration needs [i < len(result)], so
    [len(result)] rounds of [fuel] are never used up. *)
Fixpoint scan_result (fuel : nat) (word : str) (count : Z)
    (result : list (str * Z)) (i : nat) : option (list (str * Z) * bool) :=
  match fuel with
  | O => Some (result, true)
  | S fuel' =>
    match nth_error result i with
    | None => Some (result, true)
    | Some (existing_word, existing_count) =>
      if Py.contains word existing_word then Some (result, false)
      else if Py.contains existing_word word then
        match Py.gt_0_7 count existing_count with
        | None => None
        | Some true =>
          scan_result fuel' word count
            (Py.list_remove (existing_word, existing_count) result) (S i)
        | Some false => Some (result, false)
        end
      else scan_result fuel' word count result (S i)
    end
  end.

Fixpoint dedup_loop (sorted_words result : list (str * Z))
  : option (list (str * Z)) :=
  match sorted_words with
  | [] => Some result
  | (word, count) :: rest =>
    match scan_result (length result) word count result O with
    | None => None
    | Some (result, should_add) =>
      dedup_loop rest (if should_add then result ++ [(word, count)] else result)
    end
  end.

Definition deduplicate_by_inclusion (words_with_counts : list (str * Z))
  : option (list (str * Z)) :=
  match words_with_counts with
  | [] => Some []
  | _ =>
    let sorted_words := Py.sorted_by_count_desc words_with_counts in
    match dedup_loop sorted_words [] with
    | None => None
    | Some result => Some (Py.sorted_by_count_desc result)
    end
  end.

Section WithRuntime.
Context {R : Py.Runtime}.

(** The head of the loop body: the stripped line is split at the first
    tab; [None] where the loop goes on to the next line. *)
Definition parse_line (line : str) : option (str * Z) :=
  let line := Py.strip line in
  match line with
  | [] => None
  | _ =>
    match Py.split1 9 line with
    | [word; value] =>
      match Py.int value with
      | Some cnt => Some (word, cnt)
      | None => None
      end
    | _ => None
    end
  end.

Record state := State {
  current_word : option str;
  current_sum : Z;
  aggregated : list (str * Z);
}.

Definition flush (st : state) : list (str * Z) :=
  match current_word st with
  | Some w => aggregated st ++ [(w, current_sum st)]
  | None => aggregated st
  end.

Definition step (st : state) (line : str) : state :=
  match parse_line line with
  | None => st
  | Some (word, cnt) =>
    if bool_decide (current_word st = Some word)
    then State (current_word st) (current_sum st + cnt)%Z (aggregated st)
    else State (Some word) cnt (flush st)
  end.

(** The list [aggregated] after the loop and the closing flush. *)
Definition aggregate (stdin : list str) : list (str * Z) :=
  flush (fold_left step stdin (State None 0%Z [])).

(** The records written; [None] when [deduplicate_by_inclusion] raises. *)
Definition main (stdin : list str) : option (list (str * Z)) :=
  match aggregate stdin with
  | [] => Some []
  | aggregated => deduplicate_by_inclusion aggregated
  end.

End WithRuntime.

End Reducer.

(** ** cooccurrence_mapper.py *)

Module CooccurrenceMapper.

(** [itertools.combinations(l, 2)] *)
Fixpoint combinations2 {A : Type} (l : list A) : list (A * A) :=
  match l with
  | [] => []
  | a :: r => List.map (pair a) r ++ combinations2 r
  end.

(** [valid_tokens] for one line; [[]] where the loop goes on to the next
    line. *)
Definition valid_tokens (line : str) : list str :=
  let line := Py.strip line in
  match line with
  | [] => []
  | _ =>
    if negb (Py.has_char 44 line) then []
    else
      let parts := Py.split1 44 line in
      let tokens_str :=
        if (1 <? length parts)%nat then Py.strip (nth 1 parts []) else [] in
      match tokens_str with
      | [] => []
      | _ =>
        let tokens := Py.split tokens_str in
        List.filter (fun t => (2 <=? length t)%nat) tokens
      end
  end.

(** The pairs the inner loop runs over. *)
Definition pairs_of_line (line : str) : list (str * str) :=
  combinations2 (Py.sorted Py.ltb (valid_tokens line)).

(** The printed line, without its newline: the two words with a comma
    between them, a tab and [1]. *)
Definition format (pair : str * str) : str :=
  fst pair ++ [44%N] ++ snd pair ++ [9%N; 49%N].

Definition main (stdin : list str) : list str :=
  flat_map (fun line => List.map format (pairs_of_line line)) stdin.

End CooccurrenceMapper.

(** ** cooccurrence_reducer.py *)

Module CooccurrenceReducer.

Section WithRuntime.
Context {R : Py.Runtime}.

Definition parse_line (line : str) : option (str * Z) :=
  let line := Py.strip line in
  match line with
  | [] => None
  | _ =>
    if negb (Py.has_char 9 line) then None
    else
      match Py.split1 9 line with
      | [pair_str; count_str] =>
        match Py.int count_str with
        | Some count => Some (pair_str, count)
        | None => None
        end
      | _ => None
      end
  end.

Record state := State {
  current_pair : option str;
  current_count : Z;
  printed : list (str * Z);
}.

Definition flush (st : state) : list (str * Z) :=
  match current_pair st with
  | Some p => printed st ++ [(p, current_count st)]
  | None => printed st
  end.

Definition step (st : state) (line : str) : state :=
  match parse_line line with
  | None => st
  | Some (pair_str, count) =>
    if bool_decide (current_pair st = Some pair_str)
    then State (current_pair st) (current_count st + count)%Z (printed st)
    else State (Some pair_str) count (flush st)
  end.

(** The records [(pair, count)] printed, each as [pair<TAB>count]. *)
Definition main (stdin : list str) : list (str * Z) :=
  flush (fold_left step stdin (State None 0%Z [])).

End WithRuntime.

End CooccurrenceReducer.

(** ** The records on standard output *)

Module Stdout.

Local Open Scope N_scope.

(** The decimal digits of [n], most significant first, put in front of
    [acc].  A number has no more decimal digits than binary ones, which
    is what [fuel] counts. *)
Fixpoint decimal (fuel : nat) (n : N) (acc : Py.str) : Py.str :=
  match fuel with
  | O => acc
  | S fuel' =>
    if n <? 10 then (48 + n) :: acc
    else decimal fuel' (n / 10) ((48 + n mod 10) :: acc)
  end.

Definition digits (n : N) : Py.str :=
  decimal (S (N.to_nat (N.log2 n))) n [].

Section WithRuntime.
Context {R : Py.Runtime}.

(** ["%d" % z]; [None] is the [ValueError] of the limit on the digits
    of an integer turned into a string. *)
Definition format_d (z : Z) : option Py.str :=
  let ds := digits (Z.abs_N z) in
  let s := if (z <? 0)%Z then 45 :: ds else ds in
  if (640 <? N.of_nat (length s)) && (0 <? Py.int_max_str_digits)
     && (Py.int_max_str_digits <? N.of_nat (length ds))
  then None
  else Some s.

(** ["%s\t%d\n" % (key, value)], the line [mapper.py] and [reducer.py]
    write for a record. *)
Definition record (r : Py.str * Z) : option Py.str :=
  match format_d (snd r) with
  | Some d => Some (fst r ++ [9] ++ d ++ [10])
  | None => None
  end.

(** The lines a loop over [rs] writes: a write that raises ends it. *)
Fixpoint written (rs : list (Py.str * Z)) : list Py.str :=
  match rs with
  | [] => []
  | r :: rest =>
    match record r with
    | Some line => line :: written rest
    | None => []
    end
  end.

End WithRuntime.

End Stdout.

(** ** More of [str] *)

Module PyStr.

Local Open Scope N_scope.

(** [s.split(sep, maxsplit)] for a one-character separator: the text is
    cut at the first [maxsplit] separators. *)
Fixpoint splitn (sep : Py.char) (s : Py.str) (maxsplit : nat) {struct s}
  : list Py.str :=
  match s with
  | [] => [[]]
  | c :: r =>
    match maxsplit with
    | O => [s]
    | S k =>
      if c =? sep then [] :: splitn sep r k
      else match splitn sep r maxsplit with
           | a :: rest => (c :: a) :: rest
           | [] => [[c]]
           end
    end
  end.

(** [s.split(sep)]: cut at every separator; there are no more of them
    than characters. *)
Definition split_sep (sep : Py.char) (s : Py.str) : list Py.str :=
  splitn sep s (length s).

(** [sep.join(l)] *)
Fixpoint join (sep : Py.str) (l : list Py.str) : Py.str :=
  match l with
  | [] => []
  | [a] => a
  | a :: r => a ++ sep ++ join sep r
  end.

End PyStr.

(** ** segment.py: the loop of [main] *)

Module SegmentMain.

Section WithRuntime.
Context {R : Py.Runtime}.
Variable pseg : option (Py.str -> list (Py.str * Py.str)).
Variable lcut : Py.str -> list Py.str.

(** One round of [for line in lines]: the line appended to [out_lines],
    if any. *)
Definition out_line (stop_set : gset Py.str) (line : Py.str)
  : option Py.str :=
  let line := Py.strip line in
  match line with
  | [] => None
  | _ =>
    if negb (Py.has_char 44 line) then None
    else
      match Py.split1 44 line with
      | [rank_str; title] =>
        let rank_str := Py.strip rank_str in
        let title := Py.strip title in
        if negb (Py.isdigit rank_str) then None
        else
          match Segment.tokenize pseg lcut title stop_set with
          | [] => None
          | toks => Some (rank_str ++ [44%N] ++ PyStr.join [32%N] toks)
          end
      | _ => None
      end
  end.

(** [out_lines] after the loop. *)
Definition out_lines (stop_set : gset Py.str) (lines : list Py.str)
  : list Py.str :=
  omap (out_line stop_set) lines.

End WithRuntime.

End SegmentMain.

(** ** time_dist_mapper.py *)

Module TimeDistMapper.

Local Open Scope N_scope.

(** What [time.localtime] decides: the hour of the local time of a
    timestamp; [None] where it raises. *)
Class Clock := {
  tm_hour : Z -> option N;
  tm_hour_range : forall t h, tm_hour t = Some h -> h < 24;
}.

(** [time.strftime("%H", t)]: the hour in two digits *)
Definition strftime_H (h : N) : Py.str := [48 + h / 10; 48 + h mod 10].

Section WithRuntime.
Context {R : Py.Runtime} {C : Clock}.

(** The lines printed for one input line, without their newlines. *)
Definition step (line : Py.str) : list Py.str :=
  let line := Py.strip line in
  match line with
  | [] => []
  | _ =>
    if Py.startswith line (u "#") then []
    else
      let parts := PyStr.splitn 44 line 2 in
      if (length parts <? 3)%nat then []
      else
        match Py.int (Py.strip (nth 0 parts [])) with
        | None => []
        | Some timestamp =>
          let title := Py.strip (nth 2 parts []) in
          match tm_hour timestamp with
          | None => []
          | Some h =>
            let hour := strftime_H h in
            let words := Py.split title in
            List.map (fun word => hour ++ [44] ++ word ++ [9; 49])
              (List.filter (fun word => (2 <=? length word)%nat) words)
          end
        end
  end.

Definition main (stdin : list Py.str) : list Py.str := flat_map step stdin.

End WithRuntime.

End TimeDistMapper.

(** ** web/app.py *)

Module App.



Section WithRuntime.
Context {R : Py.Runtime}.

(** *** parse_top20 *)



(** *** parse_cooccurrence *)

(** An entry [{"word1": .., "word2": .., "count": ..}] is
    [((word1, word2), count)]. *)
Definition cooccurrence_step (data : list ((Py.str * Py.str) * Z))
    (line : Py.str) : list ((Py.str * Py.str) * Z) :=
  if negb (Py.has_char 9 line) then data
  else
    match Py.split1 9 line with
    | [pair_str; count_str] =>
      match Py.int count_str with
      | None => data
      | Some count =>
        if (count <? 2)%Z then data
        else
          match PyStr.split_sep 44 pair_str with
          | [word1; word2] => data ++ [((word1, word2), count)]
          | _ => data
          end
      end
    | _ => data
    end.

Definition parse_cooccurrence (file : option (list Py.str))
  : list ((Py.str * Py.str) * Z) :=
  match file with
  | None => []
  | Some lines =>
    firstn 50 (Py.sorted_by_count_desc (fold_left cooccurrence_step lines []))
  end.

End WithRuntime.

(** *** get_hotword_categories *)

Definition categories0 : Py.dict Z :=
  Eval vm_compute in Py.dict_literal [
    (u "娱乐", 0%Z); (u "社会", 0%Z); (u "科技", 0%Z);
    (u "体育", 0%Z); (u "财经", 0%Z); (u "其他", 0%Z)
  ].

Definition category_rules : Py.dict (list Py.str) :=
  Eval vm_compute in Py.dict_literal [
    (u "娱乐",
     [u "明星"; u "电影"; u "电视剧"; u "综艺"; u "演唱会"; u "演员"; u "歌手"; u "爱豆";
      u "流量"; u "红毯"; u "粉丝"; u "偶像"; u "剧"; u "影视"; u "音乐"; u "艺人";
      u "剧组"; u "首映"; u "票房"; u "颁奖礼"; u "节目"; u "导演"; u "编剧"; u "制片人";
      u "发布会"; u "电影节"; u "颁奖典礼"; u "走红毯"; u "新剧"; u "开播"; u "收官"; u "收视率";
      u "口碑"; u "影评"; u "剧评"; u "蔡依林"; u "林俊杰"; u "金巧巧"; u "吴启华"; u "湖南卫视";
      u "演唱会"; u "直播"; u "写真"; u "婚纱"; u "女友"; u "分手"; u "求婚"; u "夫妻";
      u "四大才子"; u "BILLBOARD"; u "写真"; u "宫格"; u "同游"; u "得闲"; u "骄阳";
      u "湖南卫视演唱会"; u "演唱会"]);
    (u "社会",
     [u "事故"; u "救援"; u "事件"; u "社会"; u "民生"; u "交通"; u "安全"; u "公益";
      u "环保"; u "火灾"; u "爆炸"; u "车祸"; u "疫情"; u "防控"; u "政策"; u "法规";
      u "教育"; u "医疗"; u "地震"; u "洪水"; u "养老"; u "就业"; u "社保"; u "住房";
      u "慈善"; u "志愿者"; u "民生"; u "热点"; u "话题"; u "讨论"; u "争议"; u "关注";
      u "确诊"; u "骨癌"; u "孩子"; u "父母"; u "道歉"; u "农村"; u "摆摊"; u "烤红薯";
      u "女孩"; u "长寿"; u "猫咪"; u "分手"; u "夫妻"; u "新闻联播"; u "战区"; u "破袭";
      u "青州地震"; u "台湾岛"; u "演习"; u "解放军"; u "震动"; u "农村"; u "摆摊"; u "烤红薯";
      u "孩子"; u "打翻"; u "父母"; u "父母公开"; u "披萨"]);
    (u "科技",
     [u "AI"; u "人工智能"; u "科技"; u "互联网"; u "手机"; u "电脑"; u "技术"; u "算法";
      u "芯片"; u "软件"; u "APP"; u "5G"; u "大数据"; u "云计算"; u "区块链"; u "元宇宙";
      u "自动驾驶"; u "机器人"; u "网络"; u "创新"; u "数码"; u "智能"; u "VR"; u "AR";
      u "MR"; u "XR"; u "半导体"; u "编程"; u "开发"; u "应用"; u "小米"; u "小米新车";
      u "科技"; u "罗永浩"; u "罗永浩科技"; u "数字世界"; u "加速"; u "拥抱"; u "银发";
      u "银发网民"; u "数字"]);
    (u "体育",
     [u "比赛"; u "冠军"; u "球员"; u "球队"; u "奥运会"; u "世界杯"; u "体育"; u "赛事";
      u "足球"; u "篮球"; u "排球"; u "网球"; u "乒乓球"; u "羽毛球"; u "田径"; u "游泳";
      u "比分"; u "运动员"; u "亚军"; u "季军"; u "金牌"; u "银牌"; u "铜牌"; u "进球";
      u "得分"; u "胜利"; u "失败"; u "平局"; u "欧洲杯"; u "亚洲杯"; u "亚运会"; u "世锦赛";
      u "冠军赛"; u "大师赛"; u "公开赛"]);
    (u "财经",
     [u "股市"; u "经济"; u "金融"; u "投资"; u "理财"; u "公司"; u "企业"; u "市场";
      u "经济数据"; u "股票"; u "基金"; u "汇率"; u "利率"; u "GDP"; u "CPI"; u "上市";
      u "破产"; u "保险"; u "银行"; u "PPI"; u "退市"; u "并购"; u "重组"; u "融资";
      u "贷款"; u "债券"; u "期货"; u "外汇"; u "黄金"; u "原油"; u "增值税"; u "经济";
      u "印度经济"; u "经济日本"; u "世界经济体"; u "金价"; u "票房"; u "预测"; u "全资";
      u "波动"; u "印度经济"; u "经济日本"])
  ].

Definition brands : list Py.str :=
  [u "小米"; u "苹果"; u "华为"; u "三星"; u "谷歌"; u "微软"; u "阿里";
   u "腾讯"; u "百度"].

(** [categories[category] += 1]; [None] is [KeyError]. *)
Definition incr (category : Py.str) (categories : Py.dict Z)
  : option (Py.dict Z) :=
  match Py.dict_get category categories with
  | Some v => Some (Py.dict_set category (v + 1)%Z categories)
  | None => None
  end.

(** The first loop over [category_rules]: the word is a keyword. *)
Definition direct_match (word : Py.str) : option Py.str :=
  option_map fst
    (find (fun rule => existsb (Py.eqb word) (snd rule)) category_rules).

(** The second loop: a keyword occurs in the word. *)
Definition substring_match (word : Py.str) : option Py.str :=
  option_map fst
    (find (fun rule =>
             existsb (fun keyword => Py.contains keyword word) (snd rule))
          category_rules).

(** The chain of special cases. *)
Definition special_case (word : Py.str) : option Py.str :=
  if existsb (fun brand => Py.contains brand word) brands
  then Some (u "科技")
  else if Py.contains (u "经济") word || Py.contains (u "金融") word
          || Py.contains (u "投资") word || Py.contains (u "增值税") word
  then Some (u "财经")
  else if Py.contains (u "演习") word || Py.contains (u "解放军") word
          || Py.contains (u "台湾岛") word
  then Some (u "社会")
  else if Py.contains (u "数字") word || Py.contains (u "加速") word
          || Py.contains (u "拥抱") word || Py.contains (u "银发") word
  then Some (u "科技")
  else if Py.contains (u "农村") word || Py.contains (u "摆摊") word
          || Py.contains (u "烤红薯") word || Py.contains (u "孩子") word
          || Py.contains (u "父母") word
  then Some (u "社会")
  else if Py.contains (u "演唱会") word || Py.contains (u "湖南卫视") word
  then Some (u "娱乐")
  else None.

(** The key that one round of the loop over [hotwords] increments. *)
Definition category_of (word : Py.str) : Py.str :=
  match direct_match word with
  | Some category => category
  | None =>
    match substring_match word with
    | Some category => category
    | None =>
      match special_case word with
      | Some category => category
      | None => u "其他"
      end
    end
  end.

Fixpoint count_categories (hotwords : list (Py.str * Z))
    (categories : Py.dict Z) : option (Py.dict Z) :=
  match hotwords with
  | [] => Some categories
  | hotword :: rest =>
    match incr (category_of (fst hotword)) categories with
    | Some categories => count_categories rest categories
    | None => None
    end
  end.

Definition get_hotword_categories (hotwords : list (Py.str * Z))
  : option (Py.dict Z) :=
  count_categories hotwords categories0.

End App.

(** ** Vocabulary of the statements *)

(** Descending order of count. *)
Definition count_ge {K : Type} (a b : K * Z) : Prop := (snd b <= snd a)%Z.

(** An input line of a reducer: [key<TAB>value]. *)
Definition record_line (key value : str) : str := key ++ [9%N] ++ value.

Definition sum_counts {K : Type} (l : list (K * Z)) : Z :=
  fold_right Z.add 0%Z (List.map snd l).

(** The entries of [l] whose word has the canonical form [k], by
    [segment.py]'s table, and the sum of their counts. *)
Definition semantic_class (k : str) (l : list (str * Z)) : list (str * Z) :=
  List.filter (fun wc => Py.eqb (Segment.normalize_semantic (fst wc)) k) l.

Definition semantic_total (k : str) (l : list (str * Z)) : Z :=
  sum_counts (semantic_class k l).

(** *** Reducer input *)

Section ReducerVocabulary.
Context {R : Py.Runtime}.

(** The records of the well-formed lines, in order. *)
Definition records (stdin : list str) : list (str * Z) :=
  omap Reducer.parse_line stdin.

End ReducerVocabulary.

(** The records left once the leading ones with key [k] are passed. *)
Fixpoint skip_key (k : str) (recs : list (str * Z)) : list (str * Z) :=
  match recs with
  | [] => []
  | r :: rest => if Py.eqb (fst r) k then skip_key k rest else recs
  end.

(** Grouped by key: once the run of a key has ended, the key does not
    come back. *)
Fixpoint groupedb (recs : list (str * Z)) : bool :=
  match recs with
  | [] => true
  | r :: rest =>
    negb (existsb (Py.eqb (fst r)) (List.map fst (skip_key (fst r) rest)))
    && groupedb rest
  end.

(** The sum of the values recorded under [k]. *)
Definition value_sum (k : str) (recs : list (str * Z)) : Z :=
  sum_counts (List.filter (fun r => Py.eqb (fst r) k) recs).

(** The reducers' step on the record of a well-formed line. *)
Definition feed (st : Reducer.state) (r : str * Z) : Reducer.state :=
  if bool_decide (Reducer.current_word st = Some (fst r))
  then Reducer.State (Reducer.current_word st)
         (Reducer.current_sum st + snd r)%Z (Reducer.aggregated st)
  else Reducer.State (Some (fst r)) (snd r) (Reducer.flush st).

(** Run-length summation: [join r rs] puts [r] in front of the summed
    runs [rs], adding it to the first run when the keys agree. *)
Definition join (r : str * Z) (rs : list (str * Z)) : list (str * Z) :=
  match rs with
  | (k', s) :: t =>
    if Py.eqb (fst r) k' then (fst r, (snd r + s)%Z) :: t else r :: rs
  | [] => [r]
  end.

Definition runs (recs : list (str * Z)) : list (str * Z) :=
  fold_right join [] recs.

(** [a <= b] on strings *)
Definition str_le (a b : str) : Prop := Py.ltb b a = false.

(** *** Normalisation *)

(** The words a group table can act on. *)
Definition vocabulary (groups : list (str * list str)) : list str :=
  flat_map (fun g => fst g :: snd g) groups.

(** The closing step of [normalize_word]. *)
Definition upper_if_alpha (w : str) : str :=
  if Py.fullmatch_alpha w then Py.upper w else w.

(** The words on which the two semantic tables part. *)
Definition table_differences : list str := [u "说话"; u "发言"; u "开远"].

(** The count a dictionary holds for [k], 0 when it holds none. *)
Definition count_of (k : str) (d : list (str * Z)) : Z :=
  match Py.dict_get k d with Some v => v | None => 0%Z end.

(** The two reducers' states hold the same. *)
Definition same_state (s : Reducer.state) (s' : CooccurrenceReducer.state) : Prop :=
  Reducer.current_word s = CooccurrenceReducer.current_pair s'
  /\ Reducer.current_sum s = CooccurrenceReducer.current_count s'
  /\ Reducer.aggregated s = CooccurrenceReducer.printed s'.


(** *** Tokens *)

(** The shape the design document gives every token: CJK of length 2 to
    10, or two or more ASCII letters. *)
Definition claimed_shape (t : str) : bool :=
  (Py.search_cjk t && (2 <=? length t)%nat && (length t <=? 10)%nat)
  || (Py.fullmatch_alpha t && (2 <=? length t)%nat).

Section TokenVocabulary.
Context {R : Py.Runtime}.
Variable pseg : option (str -> list (str * str)).
Variable lcut : str -> list str.

(** The tokens before the cut at 40: phrases by descending score, then
    the single tokens, each once. *)
Definition all_tokens (title : str) (stop_set : gset str) : list str :=
  let pos_list := Segment.tagged_tokens pseg lcut (Segment.clean_title title) stop_set in
  let phrases := Py.sorted_by_count_desc
                   (flat_map (Segment.phrase_of pos_list stop_set)
                             (Segment.adjacent pos_list)) in
  snd (Segment.add_unseen (map fst pos_list)
         (fst (Segment.add_unseen (map fst phrases) ∅ []))
         (snd (Segment.add_unseen (map fst phrases) ∅ []))).

End TokenVocabulary.

(** The phrase the tokenizer makes of two neighbours. *)
Definition merged_phrase {R : Py.Runtime} (p : (str * str) * (str * str)) : str :=
  Segment.normalize_word (fst (fst p) ++ fst (snd p)).

(** No two neighbouring characters are both whitespace. *)
Fixpoint single_spaced (s : str) : bool :=
  match s with
  | [] => true
  | c :: r =>
    match r with
    | [] => true
    | d :: _ => negb (Py.isspace c && Py.isspace d) && single_spaced r
    end
  end.

(** *** Independent words *)

(** Neither word contains the other. *)
Definition indep (a b : str * Z) : bool :=
  negb (Py.contains (fst a) (fst b)) && negb (Py.contains (fst b) (fst a)).

(** No word of the list contains another word of the list. *)
Fixpoint independentb (l : list (str * Z)) : bool :=
  match l with
  | [] => true
  | x :: r => forallb (indep x) r && independentb r
  end.

(** No character of the string is whitespace. *)
Definition no_space (s : str) : bool := forallb (fun c => negb (Py.isspace c)) s.

(** A character of a cleaned title: CJK, an ASCII letter or digit, or
    the space. *)
Definition title_char (c : N) : bool := Segment.keep_char c || (c =? 32)%N.

(** The literal alternative of [WEIBO_NOISE_RE]. *)
Definition retweet : str := Eval vm_compute in u "转发微博".

(** *** The page and the other jobs *)

(** The number of times [c] occurs in [s]. *)
Definition count_char (c : N) (s : str) : nat := length (List.filter (N.eqb c) s).

Section PageVocabulary.
Context {R : Py.Runtime}.


End PageVocabulary.

(** The hot words that [get_hotword_categories] counts under
    [category]. *)
Definition counted (category : str) (hotwords : list (str * Z)) : Z :=
  Z.of_nat (length (List.filter
                      (fun hw => Py.eqb (App.category_of (fst hw)) category)
                      hotwords)).

(** A clock for the examples: the hour of the day in UTC. *)
Definition utc : TimeDistMapper.Clock.
Proof.
  refine {| TimeDistMapper.tm_hour :=
              fun t => Some (Z.to_N ((t / 3600) mod 24)) |}.
  intros t h [= <-].
  pose proof (Z.mod_pos_bound (t / 3600) 24 ltac:(lia)). lia.
Defined.
(** * Properties *)

(** ** Frequency mapper: the weight of a rank *)

Lemma weight_of_rank_max (rank : Z) :
  Mapper.weight_of_rank rank = Z.max 1 (51 - rank).
Proof. unfold Mapper.weight_of_rank. destruct (Z.ltb_spec (51 - rank) 1); lia. Qed.

Lemma weight_of_rank_antitone (r1 r2 : Z) :
  (r1 <= r2)%Z -> (Mapper.weight_of_rank r2 <= Mapper.weight_of_rank r1)%Z.
Proof. rewrite !weight_of_rank_max. lia. Qed.

Section MapperFacts.
Context {R : Py.Runtime}.

Lemma emit_weight (weight : Z) (tokens : list str) (seen : gset str) :
  Forall (fun kw => snd kw = weight) (snd (Mapper.emit weight tokens seen)).
Proof.
  revert seen. induction tokens as [|token rest IH]; intros seen; simpl.
  - constructor.
  - destruct (Mapper.normalize_word_mapper token) as [|c n] eqn:En; [apply IH|].
    destruct (length (c :: n) <? 2)%nat; [apply IH|].
    case_bool_decide; [apply IH|].
    specialize (IH ({[c :: n]} ∪ seen)).
    destruct (Mapper.emit weight rest ({[c :: n]} ∪ seen)) as [seen' out].
    simpl in *. constructor; [reflexivity|exact IH].
Qed.

Lemma step_weight (seen : gset str) (line : str) (rank : Z) :
  Py.int (Mapper.rank_str (Py.split1 44 (Py.strip line))) = Some rank ->
  Forall (fun kw => snd kw = Mapper.weight_of_rank rank)
         (snd (Mapper.step seen line)).
Proof.
  intros Hr. unfold Mapper.step.
  destruct (Py.strip line) as [|c l] eqn:El; [constructor|].
  destruct (negb (Py.has_char 44 (c :: l))); [constructor|].
  unfold Mapper.parse. rewrite Hr.
  destruct (Mapper.tokens_str (Py.split1 44 (c :: l))); [constructor|].
  apply emit_weight.
Qed.

End MapperFacts.

(** C8: for a line whose rank field parses to [rank >= 1], every record
    the frequency mapper writes for it carries the weight
    [max(1, 51 - rank)], which lies in [1..50]; the weight does not grow
    with the rank, and ranks 1, 50 and 60 weigh 50, 1 and 1. *)
Theorem mapper_weight_of_parsed_rank
    (R : Py.Runtime) (seen : gset str) (line : str) (rank : Z) :
  Py.int (Mapper.rank_str (Py.split1 44 (Py.strip line))) = Some rank ->
  (1 <= rank)%Z ->
  Forall (fun kw => snd kw = Z.max 1 (51 - rank)) (snd (Mapper.step seen line))
  /\ Mapper.weight_of_rank rank = Z.max 1 (51 - rank)
  /\ (1 <= Mapper.weight_of_rank rank <= 50)%Z
  /\ (forall rank', (rank <= rank')%Z ->
        (Mapper.weight_of_rank rank' <= Mapper.weight_of_rank rank)%Z)
  /\ Mapper.weight_of_rank 1 = 50%Z
  /\ Mapper.weight_of_rank 50 = 1%Z
  /\ Mapper.weight_of_rank 60 = 1%Z.
Proof.
  intros Hr Hpos. repeat split.
  - rewrite <- weight_of_rank_max. now apply step_weight.
  - apply weight_of_rank_max.
  - rewrite weight_of_rank_max. lia.
  - rewrite weight_of_rank_max. lia.
  - intros rank'. apply weight_of_rank_antitone.
Qed.

Lemma mapper_weight_of_parsed_rank_witness :
  Forall (fun kw => snd kw = Z.max 1 (51 - 3))
    (snd (Mapper.step (R := Py.bare_runtime) ∅ (u "3,苹果 手机")))
  /\ snd (Mapper.step (R := Py.bare_runtime) ∅ (u "3,苹果 手机"))
     = [(u "苹果", 48%Z); (u "手机", 48%Z)].
Proof.
  split.
  - apply (mapper_weight_of_parsed_rank Py.bare_runtime ∅ (u "3,苹果 手机") 3);
      [vm_compute; reflexivity | lia].
  - vm_compute; reflexivity.
Defined.

(** ** Frequency mapper: the set [seen] *)

(** C1: the set [seen] is made once for the whole input.  On the lines
    [1,苹果 手机] and [2,苹果 发布] the first line yields 苹果 and 手机
    with weight 50 and the second line yields 发布 alone: 苹果, seen in
    the first line, is not written again with weight 49. *)
Theorem mapper_seen_spans_lines (R : Py.Runtime) :
  Mapper.run [u "1,苹果 手机"; u "2,苹果 发布"] ∅
  = [[(u "苹果", 50%Z); (u "手机", 50%Z)]; [(u "发布", 49%Z)]].
Proof. vm_compute. reflexivity. Qed.

(** ** Facts about the runtime *)

Lemma eqb_eq (a b : str) : Py.eqb a b = true <-> a = b.
Proof. unfold Py.eqb. apply bool_decide_eq_true. Qed.

Lemma eqb_refl (a : str) : Py.eqb a a = true.
Proof. now apply eqb_eq. Qed.

Lemma lstrip_length (s : str) : (length (Py.lstrip s) <= length s)%nat.
Proof. induction s as [|c r IH]; simpl; [lia|]. destruct (Py.isspace c); simpl; lia. Qed.

(** [rstrip] read from the left. *)
Lemma lstrip_snoc (l : str) (c : N) :
  Py.lstrip (l ++ [c]) =
  match Py.lstrip l with
  | [] => if Py.isspace c then [] else [c]
  | t => t ++ [c]
  end.
Proof.
  induction l as [|a l IH]; simpl; [reflexivity|].
  destruct (Py.isspace a); [exact IH | reflexivity].
Qed.

Lemma rstrip_cons (c : N) (r : str) :
  Py.rstrip (c :: r) =
  match Py.rstrip r with
  | [] => if Py.isspace c then [] else [c]
  | t => c :: t
  end.
Proof.
  unfold Py.rstrip. simpl rev. rewrite lstrip_snoc.
  destruct (Py.lstrip (rev r)) as [|a t]; simpl.
  - destruct (Py.isspace c); reflexivity.
  - rewrite rev_app_distr. simpl.
    destruct (rev t ++ [a]) eqn:E; [|reflexivity].
    now destruct (rev t).
Qed.

Lemma rstrip_nil : Py.rstrip [] = [].
Proof. reflexivity. Qed.

Lemma rstrip_idem (s : str) : Py.rstrip (Py.rstrip s) = Py.rstrip s.
Proof.
  induction s as [|c r IH]; [reflexivity|].
  rewrite rstrip_cons. destruct (Py.rstrip r) as [|a t] eqn:E.
  - destruct (Py.isspace c) eqn:Ec; [reflexivity|].
    rewrite rstrip_cons, rstrip_nil, Ec. reflexivity.
  - rewrite rstrip_cons, IH. reflexivity.
Qed.

Lemma rstrip_no_space (s : str) :
  forallb (fun c => negb (Py.isspace c)) s = true -> Py.rstrip s = s.
Proof.
  induction s as [|c r IH]; [reflexivity|]. simpl. intros H.
  apply andb_prop in H as [Hc Hr]. rewrite rstrip_cons, (IH Hr).
  destruct r; [|reflexivity]. now destruct (Py.isspace c).
Qed.

Lemma lstrip_no_space (s : str) :
  forallb (fun c => negb (Py.isspace c)) s = true -> Py.lstrip s = s.
Proof. destruct s as [|c r]; [reflexivity|]. simpl. now destruct (Py.isspace c). Qed.

Lemma strip_no_space (s : str) :
  forallb (fun c => negb (Py.isspace c)) s = true -> Py.strip s = s.
Proof. intros H. unfold Py.strip. rewrite (lstrip_no_space _ H). now apply rstrip_no_space. Qed.

(** What [lstrip] returns does not begin with a space. *)
Lemma lstrip_head (s : str) :
  match Py.lstrip s with [] => True | c :: _ => Py.isspace c = false end.
Proof.
  induction s as [|c r IH]; simpl; [exact I|].
  destruct (Py.isspace c) eqn:E; [exact IH | exact E].
Qed.

Lemma lstrip_rstrip_fixed (s : str) :
  Py.lstrip s = s -> Py.lstrip (Py.rstrip s) = Py.rstrip s.
Proof.
  intros H. pose proof (lstrip_head s) as Hh. rewrite H in Hh.
  destruct s as [|c r]; [reflexivity|].
  rewrite rstrip_cons. destruct (Py.rstrip r); rewrite ?Hh; simpl; rewrite Hh; reflexivity.
Qed.

Lemma lstrip_idem (s : str) : Py.lstrip (Py.lstrip s) = Py.lstrip s.
Proof.
  induction s as [|c r IH]; [reflexivity|]. simpl.
  destruct (Py.isspace c) eqn:E; [exact IH|]. simpl. now rewrite E.
Qed.

Lemma strip_idem (s : str) : Py.strip (Py.strip s) = Py.strip s.
Proof.
  unfold Py.strip.
  rewrite (lstrip_rstrip_fixed (Py.lstrip s) (lstrip_idem s)).
  apply rstrip_idem.
Qed.

Lemma isspace_bound (c : N) : Py.isspace c = true -> (c <= 32 \/ 133 <= c)%N.
Proof.
  unfold Py.isspace.
  rewrite !orb_true_iff, !andb_true_iff, !N.leb_le, !N.eqb_eq. lia.
Qed.

Lemma is_alpha_bound (c : N) : Py.is_alpha c = true -> (65 <= c <= 122)%N.
Proof.
  unfold Py.is_alpha, Py.is_upper, Py.is_lower.
  rewrite !orb_true_iff, !andb_true_iff, !N.leb_le. lia.
Qed.

Lemma is_alpha_not_space (c : N) : Py.is_alpha c = true -> Py.isspace c = false.
Proof.
  intros H. apply is_alpha_bound in H.
  destruct (Py.isspace c) eqn:E; [|reflexivity].
  apply isspace_bound in E. lia.
Qed.

Lemma is_alpha_plain (c : N) :
  Py.is_alpha c = true -> Py.is_ascii c || Py.is_cjk c = true.
Proof.
  intros H. apply is_alpha_bound in H. unfold Py.is_ascii.
  destruct (N.ltb_spec c 128); [reflexivity | lia].
Qed.

Lemma is_lower_iff (c : N) : Py.is_lower c = true <-> (97 <= c <= 122)%N.
Proof. unfold Py.is_lower. rewrite andb_true_iff, !N.leb_le. reflexivity. Qed.

Lemma is_upper_iff (c : N) : Py.is_upper c = true <-> (65 <= c <= 90)%N.
Proof. unfold Py.is_upper. rewrite andb_true_iff, !N.leb_le. reflexivity. Qed.

Lemma ascii_upper_alpha (c : N) :
  Py.is_alpha c = true -> Py.is_alpha (Py.ascii_upper c) = true.
Proof.
  unfold Py.ascii_upper. intros H.
  destruct (Py.is_lower c) eqn:E; [|exact H].
  apply is_lower_iff in E. unfold Py.is_alpha.
  apply orb_true_intro. left. apply is_upper_iff. lia.
Qed.

Lemma ascii_upper_idem (c : N) :
  Py.ascii_upper (Py.ascii_upper c) = Py.ascii_upper c.
Proof.
  unfold Py.ascii_upper.
  destruct (Py.is_lower c) eqn:E; [|now rewrite E].
  apply is_lower_iff in E.
  destruct (Py.is_lower (c - 32)) eqn:E'; [|reflexivity].
  apply is_lower_iff in E'. lia.
Qed.

Lemma ascii_lower_upper (c : N) :
  Py.is_alpha c = true -> Py.ascii_lower (Py.ascii_upper c) = Py.ascii_lower c.
Proof.
  unfold Py.ascii_upper, Py.ascii_lower. intros H.
  destruct (Py.is_lower c) eqn:E; [|reflexivity].
  apply is_lower_iff in E.
  destruct (Py.is_upper (c - 32)) eqn:E1.
  - destruct (Py.is_upper c) eqn:E2; [apply is_upper_iff in E2; lia | lia].
  - assert (Py.is_upper (c - 32) = true) by (apply is_upper_iff; lia). congruence.
Qed.

Section RuntimeFacts.
Context {R : Py.Runtime}.

Lemma fullmatch_alpha_forall (s : str) :
  Py.fullmatch_alpha s = true -> forallb Py.is_alpha s = true.
Proof. destruct s; [discriminate|]. simpl. auto. Qed.

Lemma fullmatch_alpha_upper (s : str) :
  Py.fullmatch_alpha s = true -> Py.fullmatch_alpha (Py.upper s) = true.
Proof.
  destruct s as [|c r]; [discriminate|]. unfold Py.fullmatch_alpha, Py.upper.
  simpl map. intros H. rewrite forallb_forall in H. apply forallb_forall.
  intros x Hx. change (Py.ascii_upper c :: map Py.ascii_upper r)
    with (map Py.ascii_upper (c :: r)) in Hx.
  apply in_map_iff in Hx as [y [<- Hy]]. apply ascii_upper_alpha, H, Hy.
Qed.

Lemma upper_idem (s : str) : Py.upper (Py.upper s) = Py.upper s.
Proof.
  unfold Py.upper. rewrite map_map. apply map_ext. intros. apply ascii_upper_idem.
Qed.

Lemma lower_alpha (s : str) :
  forallb Py.is_alpha s = true -> Py.lower s = map Py.ascii_lower s.
Proof.
  intros H. unfold Py.lower.
  replace (forallb (fun c => Py.is_ascii c || Py.is_cjk c) s) with true; [reflexivity|].
  symmetry. apply forallb_forall. intros x Hx. rewrite forallb_forall in H.
  apply is_alpha_plain, H, Hx.
Qed.

Lemma lower_upper_alpha (s : str) :
  Py.fullmatch_alpha s = true -> Py.lower (Py.upper s) = Py.lower s.
Proof.
  intros H. pose proof (fullmatch_alpha_forall _ H) as Ha.
  pose proof (fullmatch_alpha_forall _ (fullmatch_alpha_upper _ H)) as Hu.
  rewrite (lower_alpha _ Ha), (lower_alpha _ Hu). unfold Py.upper.
  rewrite map_map. apply map_ext_in. intros a Hin.
  rewrite forallb_forall in Ha. apply ascii_lower_upper, Ha, Hin.
Qed.

Lemma strip_alpha (s : str) : forallb Py.is_alpha s = true -> Py.strip s = s.
Proof.
  intros H. apply strip_no_space. apply forallb_forall. intros x Hx.
  rewrite forallb_forall in H. rewrite (is_alpha_not_space x (H x Hx)). reflexivity.
Qed.

End RuntimeFacts.

Lemma dict_get_In {V : Type} (k : str) (v : V) (d : list (str * V)) :
  Py.dict_get k d = Some v -> In (k, v) d.
Proof.
  induction d as [|[k' v'] d IH]; simpl; [discriminate|].
  destruct (Py.eqb k' k) eqn:E.
  - intros [= ->]. apply eqb_eq in E. subst. now left.
  - intros H. right. auto.
Qed.

(** ** Normalisation *)

Lemma find_group_outside (groups : list (str * list str)) (w : str) :
  ~ In w (vocabulary groups) ->
  find (fun g => existsb (Py.eqb w) (snd g) || Py.eqb w (fst g)) groups = None.
Proof.
  induction groups as [|g groups IH]; simpl; [reflexivity|]. intros Hn.
  destruct (existsb (Py.eqb w) (snd g) || Py.eqb w (fst g)) eqn:E.
  - exfalso. apply Hn. apply orb_prop in E as [E|E].
    + apply existsb_exists in E as [x [Hx Ex]]. apply eqb_eq in Ex. subst x.
      right. apply in_or_app. now left.
    + apply eqb_eq in E. now left.
  - apply IH. intros Hin. apply Hn. right. apply in_or_app. now right.
Qed.

Lemma mapper_semantic_outside (w : str) :
  ~ In w (vocabulary Mapper.SEMANTIC_GROUPS) -> Mapper.normalize_semantic w = w.
Proof.
  intros H. unfold Mapper.normalize_semantic.
  change (Mapper.group_matches w)
    with (fun g : str * list str => existsb (Py.eqb w) (snd g) || Py.eqb w (fst g)).
  now rewrite find_group_outside.
Qed.

Lemma segment_semantic_outside (w : str) :
  ~ In w (vocabulary Segment.SEMANTIC_GROUPS) -> Segment.normalize_semantic w = w.
Proof.
  intros H. unfold Segment.normalize_semantic.
  change (Segment.group_matches w)
    with (fun g : str * list str => existsb (Py.eqb w) (snd g) || Py.eqb w (fst g)).
  now rewrite find_group_outside.
Qed.

(** A canonical form is the word itself or the label of a group. *)
Lemma mapper_semantic_cases (w : str) :
  Mapper.normalize_semantic w = w
  \/ In (Mapper.normalize_semantic w) (map fst Mapper.SEMANTIC_GROUPS).
Proof.
  unfold Mapper.normalize_semantic.
  destruct (find (Mapper.group_matches w) Mapper.SEMANTIC_GROUPS) as [[s v]|] eqn:E;
    [right | now left].
  apply find_some in E as [E _]. now apply (in_map fst) in E.
Qed.

Lemma segment_semantic_cases (w : str) :
  Segment.normalize_semantic w = w
  \/ In (Segment.normalize_semantic w) (map fst Segment.SEMANTIC_GROUPS).
Proof.
  unfold Segment.normalize_semantic.
  destruct (find (Segment.group_matches w) Segment.SEMANTIC_GROUPS) as [[s v]|] eqn:E;
    [right | now left].
  apply find_some in E as [E _]. now apply (in_map fst) in E.
Qed.

Lemma mapper_semantic_labels_fixed :
  forallb (fun s => Py.eqb (Mapper.normalize_semantic s) s)
          (map fst Mapper.SEMANTIC_GROUPS) = true.
Proof. vm_compute. reflexivity. Qed.

Lemma segment_semantic_labels_fixed :
  forallb (fun s => Py.eqb (Segment.normalize_semantic s) s)
          (map fst Segment.SEMANTIC_GROUPS) = true.
Proof. vm_compute. reflexivity. Qed.

Lemma mapper_semantic_idem (w : str) :
  Mapper.normalize_semantic (Mapper.normalize_semantic w)
  = Mapper.normalize_semantic w.
Proof.
  destruct (mapper_semantic_cases w) as [E|Hin]; [now rewrite !E|].
  pose proof mapper_semantic_labels_fixed as H. rewrite forallb_forall in H.
  apply eqb_eq, H, Hin.
Qed.

Lemma segment_semantic_idem (w : str) :
  Segment.normalize_semantic (Segment.normalize_semantic w)
  = Segment.normalize_semantic w.
Proof.
  destruct (segment_semantic_cases w) as [E|Hin]; [now rewrite !E|].
  pose proof segment_semantic_labels_fixed as H. rewrite forallb_forall in H.
  apply eqb_eq, H, Hin.
Qed.

Section NormalizeWord.
Context {R : Py.Runtime}.

Lemma normalize_word_unfold (w : str) :
  Segment.normalize_word w =
  match Py.strip w with
  | [] => []
  | c :: r =>
    upper_if_alpha
      match Py.dict_get (Py.lower (c :: r)) Segment.NORMALIZE_MAP with
      | Some v => v
      | None => c :: r
      end
  end.
Proof. unfold Segment.normalize_word. now destruct (Py.strip w). Qed.

Lemma normalize_word_stripped (w : str) :
  Py.strip w = w -> w <> [] ->
  Segment.normalize_word w =
  upper_if_alpha
    match Py.dict_get (Py.lower w) Segment.NORMALIZE_MAP with
    | Some v => v
    | None => w
    end.
Proof.
  intros Hs Hne. rewrite normalize_word_unfold, Hs. now destruct w.
Qed.

(** Every value of the table, once through the closing step, is left
    alone by a second pass. *)
Lemma normalize_map_values_fixed :
  forallb (fun kv => Py.eqb (Segment.normalize_word (upper_if_alpha (snd kv)))
                            (upper_if_alpha (snd kv)))
          Segment.NORMALIZE_MAP = true.
Proof. vm_compute. reflexivity. Qed.

Lemma normalize_word_idem (x : str) :
  Segment.normalize_word (Segment.normalize_word x) = Segment.normalize_word x.
Proof.
  rewrite (normalize_word_unfold x).
  destruct (Py.strip x) as [|c r] eqn:Es; [reflexivity|].
  assert (Hs : Py.strip (c :: r) = c :: r) by (rewrite <- Es; apply strip_idem).
  destruct (Py.dict_get (Py.lower (c :: r)) Segment.NORMALIZE_MAP) as [v|] eqn:Eg.
  - apply dict_get_In in Eg.
    pose proof normalize_map_values_fixed as H. rewrite forallb_forall in H.
    apply eqb_eq. exact (H _ Eg).
  - unfold upper_if_alpha. destruct (Py.fullmatch_alpha (c :: r)) eqn:Ea.
    + pose proof (fullmatch_alpha_upper _ Ea) as Hu.
      rewrite normalize_word_stripped;
        [| apply strip_alpha, fullmatch_alpha_forall, Hu | discriminate].
      rewrite (lower_upper_alpha _ Ea), Eg.
      unfold upper_if_alpha. rewrite Hu. apply upper_idem.
    + rewrite normalize_word_stripped, Eg; [| exact Hs | discriminate].
      unfold upper_if_alpha. now rewrite Ea.
Qed.

End NormalizeWord.

(** C9: normalisation is idempotent: a second pass of [normalize_word]
    changes nothing, for every string and every runtime, and neither does
    a second pass of [normalize_semantic], in [mapper.py] and in
    [segment.py]; so it is for every entry of the tables. *)
Theorem normalize_idempotent (R : Py.Runtime) (x : str) :
  Segment.normalize_word (Segment.normalize_word x) = Segment.normalize_word x
  /\ Mapper.normalize_semantic (Mapper.normalize_semantic x)
     = Mapper.normalize_semantic x
  /\ Segment.normalize_semantic (Segment.normalize_semantic x)
     = Segment.normalize_semantic x.
Proof.
  split; [apply normalize_word_idem|].
  split; [apply mapper_semantic_idem | apply segment_semantic_idem].
Qed.

(** ** The two semantic tables *)

Lemma semantic_tables_agree_on_vocabulary :
  forallb (fun w => Py.eqb (Segment.normalize_semantic w) (Mapper.normalize_semantic w)
                    || existsb (Py.eqb w) table_differences)
          (vocabulary Segment.SEMANTIC_GROUPS ++ vocabulary Mapper.SEMANTIC_GROUPS)
  = true.
Proof. vm_compute. reflexivity. Qed.

(** C4: the two copies of [normalize_semantic] are not the same function.
    [segment.py]'s table names the key 发声 twice, so its first list,
    the one holding 说话, is lost: [segment.py] leaves 说话 alone where
    [mapper.py] sends it to 发声.  [segment.py] alone knows 发言 and 开远.
    On every other word the two agree. *)
Theorem normalize_semantic_copies_differ :
  Segment.normalize_semantic (u "说话") = u "说话"
  /\ Mapper.normalize_semantic (u "说话") = u "发声"
  /\ Segment.normalize_semantic (u "发言") = u "发声"
  /\ Mapper.normalize_semantic (u "发言") = u "发言"
  /\ Segment.normalize_semantic (u "开远") = u "驾车"
  /\ Mapper.normalize_semantic (u "开远") = u "开远"
  /\ forall w, Segment.normalize_semantic w = Mapper.normalize_semantic w
               \/ In w table_differences.
Proof.
  repeat (split; [vm_compute; reflexivity|]).
  intros w.
  destruct (in_dec (fun a b : str => decide (a = b)) w
              (vocabulary Segment.SEMANTIC_GROUPS ++ vocabulary Mapper.SEMANTIC_GROUPS))
    as [Hin|Hout].
  - pose proof semantic_tables_agree_on_vocabulary as H.
    rewrite forallb_forall in H. specialize (H w Hin).
    apply orb_prop in H as [H|H].
    + left. now apply eqb_eq.
    + right. apply existsb_exists in H as [y [Hy Ey]]. apply eqb_eq in Ey. now subst.
  - left. rewrite segment_semantic_outside, mapper_semantic_outside; [reflexivity | |];
      intros Hin; apply Hout, in_or_app; auto.
Qed.

(** ** Sorting *)

Section SortingFacts.
Context {A : Type} (lt : A -> A -> bool).

Lemma insert_sorted_perm (x : A) (l : list A) :
  Permutation (Py.insert_sorted lt x l) (x :: l).
Proof.
  induction l as [|y l IH]; simpl; [reflexivity|].
  destruct (lt y x); [|reflexivity].
  rewrite IH. apply perm_swap.
Qed.

Lemma sorted_perm (l : list A) : Permutation (Py.sorted lt l) l.
Proof.
  induction l as [|x l IH]; simpl; [reflexivity|].
  rewrite insert_sorted_perm. now constructor.
Qed.

Lemma sorted_In (x : A) (l : list A) : In x (Py.sorted lt l) <-> In x l.
Proof.
  split; apply Permutation_in; [|symmetry]; apply sorted_perm.
Qed.

(** The order [le] the sort establishes: whatever [lt] puts first is
    below, and so is an element before one that need not precede it. *)
Context (le : A -> A -> Prop).
Hypothesis lt_le : forall y x, lt y x = true -> le y x.
Hypothesis not_lt_le : forall y x, lt y x = false -> le x y.
Hypothesis le_trans : forall a b c, le a b -> le b c -> le a c.

Lemma insert_sorted_sorted (x : A) (l : list A) :
  StronglySorted le l -> StronglySorted le (Py.insert_sorted lt x l).
Proof.
  induction 1 as [|y l Hs IH Hy]; simpl.
  - repeat constructor.
  - destruct (lt y x) eqn:E.
    + constructor; [exact IH|].
      apply List.Forall_forall. intros z Hz.
      apply (Permutation_in _ (insert_sorted_perm x l)) in Hz.
      destruct Hz as [<-|Hz]; [now apply lt_le|].
      rewrite List.Forall_forall in Hy. now apply Hy.
    + constructor; [now constructor|].
      constructor; [now apply not_lt_le|].
      apply List.Forall_forall. intros z Hz. rewrite List.Forall_forall in Hy.
      apply le_trans with y; [now apply not_lt_le | now apply Hy].
Qed.

Lemma sorted_sorted (l : list A) : StronglySorted le (Py.sorted lt l).
Proof.
  induction l as [|x l IH]; simpl; [constructor|].
  now apply insert_sorted_sorted.
Qed.

End SortingFacts.

Lemma sorted_by_count_desc_sorted {K : Type} (l : list (K * Z)) :
  StronglySorted count_ge (Py.sorted_by_count_desc l).
Proof.
  apply sorted_sorted; unfold count_ge.
  - intros y x H. apply Z.ltb_lt in H. lia.
  - intros y x H. apply Z.ltb_ge in H. lia.
  - intros a b c. lia.
Qed.

Lemma sorted_by_count_desc_In {K : Type} (x : K * Z) (l : list (K * Z)) :
  In x (Py.sorted_by_count_desc l) <-> In x l.
Proof. apply sorted_In. Qed.

(** ** Deduplication by inclusion *)

Lemma list_remove_incl (x : str * Z) (l : list (str * Z)) :
  incl (Py.list_remove x l) l.
Proof.
  induction l as [|y l IH]; simpl; [easy|].
  case_bool_decide.
  - now apply incl_tl.
  - intros z [<-|Hz]; [now left | right; now apply IH].
Qed.

Lemma list_remove_length (x : str * Z) (l : list (str * Z)) :
  (length (Py.list_remove x l) <= length l)%nat.
Proof.
  induction l as [|y l IH]; simpl; [lia|]. case_bool_decide; simpl; lia.
Qed.

Lemma gt_0_7_None (count existing_count : Z) :
  Py.gt_0_7 count existing_count = None ->
  Py.float_of_int existing_count = None.
Proof. unfold Py.gt_0_7. now destruct (Py.float_of_int existing_count). Qed.

Lemma gt_0_7_Some (count existing_count : Z) (b : bool) :
  Py.gt_0_7 count existing_count = Some b ->
  Py.float_of_int existing_count <> None.
Proof. unfold Py.gt_0_7. now destruct (Py.float_of_int existing_count). Qed.

(** The walk over [result] never needs more rounds than [result] is
    long: any two fuels that cover the rest of the list agree. *)
Lemma scan_result_fuel (fuel1 fuel2 : nat) (word : str) (count : Z)
    (result : list (str * Z)) (i : nat) :
  (length result <= fuel1 + i)%nat -> (length result <= fuel2 + i)%nat ->
  Reducer.scan_result fuel1 word count result i
  = Reducer.scan_result fuel2 word count result i.
Proof.
  revert fuel2 result i.
  induction fuel1 as [|fuel1 IH]; intros fuel2 result i H1 H2.
  - assert (nth_error result i = None) as En by (apply nth_error_None; lia).
    destruct fuel2; simpl; [reflexivity | now rewrite En].
  - destruct fuel2 as [|fuel2].
    + assert (nth_error result i = None) as En by (apply nth_error_None; lia).
      simpl. now rewrite En.
    + simpl. destruct (nth_error result i) as [[ew ec]|]; [|reflexivity].
      destruct (Py.contains word ew); [reflexivity|].
      destruct (Py.contains ew word).
      * destruct (Py.gt_0_7 count ec) as [[|]|]; try reflexivity.
        pose proof (list_remove_length (ew, ec) result).
        apply IH; lia.
      * apply IH; lia.
Qed.

Lemma scan_result_incl (fuel : nat) (word : str) (count : Z)
    (result : list (str * Z)) (i : nat) :
  match Reducer.scan_result fuel word count result i with
  | Some (result', _) => incl result' result
  | None => exists p, In p result /\ Py.float_of_int (snd p) = None
  end.
Proof.
  revert result i. induction fuel as [|fuel IH]; intros result i; simpl.
  - apply incl_refl.
  - destruct (nth_error result i) as [[ew ec]|] eqn:En; [|apply incl_refl].
    destruct (Py.contains word ew); [apply incl_refl|].
    destruct (Py.contains ew word).
    + destruct (Py.gt_0_7 count ec) as [[|]|] eqn:Eg.
      * specialize (IH (Py.list_remove (ew, ec) result) (S i)).
        destruct (Reducer.scan_result fuel word count
                    (Py.list_remove (ew, ec) result) (S i)) as [[r' b]|].
        -- eapply incl_tran; [exact IH | apply list_remove_incl].
        -- destruct IH as [p [Hp Hf]]. exists p. split; [|exact Hf].
           now apply (list_remove_incl (ew, ec)).
      * apply incl_refl.
      * exists (ew, ec). split; [now apply nth_error_In in En|].
        now apply gt_0_7_None in Eg.
    + apply IH.
Qed.

Lemma dedup_loop_incl (sorted_words result : list (str * Z)) :
  match Reducer.dedup_loop sorted_words result with
  | Some out => incl out (result ++ sorted_words)
  | None => exists p, In p (result ++ sorted_words)
                      /\ Py.float_of_int (snd p) = None
  end.
Proof.
  revert result. induction sorted_words as [|[word count] rest IH]; intros result; simpl.
  - rewrite app_nil_r. apply incl_refl.
  - pose proof (scan_result_incl (length result) word count result 0) as Hs.
    destruct (Reducer.scan_result (length result) word count result 0)
      as [[result' should_add]|].
    + specialize (IH (if should_add then result' ++ [(word, count)] else result')).
      assert (incl ((if should_add then result' ++ [(word, count)] else result') ++ rest)
                   (result ++ (word, count) :: rest)) as Hi.
      { intros z Hz. apply in_app_or in Hz. apply in_or_app.
        destruct Hz as [Hz|Hz]; [|right; now right].
        destruct should_add.
        - apply in_app_or in Hz as [Hz|[<-|[]]]; [left; now apply Hs | right; now left].
        - left. now apply Hs. }
      destruct (Reducer.dedup_loop rest _) as [out|].
      * eapply incl_tran; [exact IH | exact Hi].
      * destruct IH as [p [Hp Hf]]. exists p. split; [now apply Hi | exact Hf].
    + destruct Hs as [p [Hp Hf]]. exists p. split; [apply in_or_app; now left | exact Hf].
Qed.

Lemma segment_dedup_is_reducer_dedup :
  Segment.deduplicate_by_inclusion = Reducer.deduplicate_by_inclusion.
Proof. reflexivity. Qed.

Lemma reducer_dedup_sound (l : list (str * Z)) :
  match Reducer.deduplicate_by_inclusion l with
  | Some out => incl out l /\ StronglySorted count_ge out
  | None => exists p, In p l /\ Py.float_of_int (snd p) = None
  end.
Proof.
  unfold Reducer.deduplicate_by_inclusion.
  destruct l as [|p l]; [split; [apply incl_refl | constructor]|].
  pose proof (dedup_loop_incl (Py.sorted_by_count_desc (p :: l)) []) as H.
  destruct (Reducer.dedup_loop (Py.sorted_by_count_desc (p :: l)) []) as [out|].
  - split; [|apply sorted_by_count_desc_sorted].
    intros z Hz. apply (proj1 (sorted_by_count_desc_In _ _)) in Hz.
    apply H in Hz. now apply (proj1 (sorted_by_count_desc_In _ _)) in Hz.
  - destruct H as [q [Hq Hf]]. exists q. split; [|exact Hf].
    now apply (proj1 (sorted_by_count_desc_In _ _)) in Hq.
Qed.

(** C10: whatever [deduplicate_by_inclusion] returns, in [reducer.py] and
    in [segment.py], is made of pairs of its input, unchanged, in
    descending order of count.  It returns unless the product with 0.7
    raises, which takes a count of the input too large for a float. *)
Theorem dedup_output_within_input (l : list (str * Z)) :
  match Reducer.deduplicate_by_inclusion l with
  | Some out => incl out l /\ StronglySorted count_ge out
  | None => exists p, In p l /\ Py.float_of_int (snd p) = None
  end
  /\ match Segment.deduplicate_by_inclusion l with
     | Some out => incl out l /\ StronglySorted count_ge out
     | None => exists p, In p l /\ Py.float_of_int (snd p) = None
     end.
Proof.
  rewrite segment_dedup_is_reducer_dedup. split; apply reducer_dedup_sound.
Qed.

(** The two examples of the design document. *)
Lemma dedup_example_replace :
  Reducer.deduplicate_by_inclusion [(u "足球", 10%Z); (u "中国足球", 8%Z)]
  = Some [(u "中国足球", 8%Z)].
Proof. vm_compute. reflexivity. Qed.

Lemma dedup_example_drop :
  Reducer.deduplicate_by_inclusion [(u "足球", 10%Z); (u "中国足球", 5%Z)]
  = Some [(u "足球", 10%Z)].
Proof. vm_compute. reflexivity. Qed.

Lemma dedup_example_substring :
  Reducer.deduplicate_by_inclusion [(u "人工智能", 100%Z); (u "智能", 95%Z)]
  = Some [(u "人工智能", 100%Z)].
Proof. vm_compute. reflexivity. Qed.

(** C2: removing from [result] while walking it makes the walk skip the
    entry after the removed one.  With 中国 (10), 足球 (9) and 中国足球 (8):
    the candidate 中国足球 replaces 中国, and 足球, now first in the list,
    is never looked at.  It stays, although it is a substring of the
    candidate and [8 > 9 * 0.7]. *)
Theorem dedup_skips_entry_after_removal :
  Reducer.deduplicate_by_inclusion
    [(u "中国", 10%Z); (u "足球", 9%Z); (u "中国足球", 8%Z)]
  = Some [(u "足球", 9%Z); (u "中国足球", 8%Z)]
  /\ Segment.deduplicate_by_inclusion
       [(u "中国", 10%Z); (u "足球", 9%Z); (u "中国足球", 8%Z)]
     = Some [(u "足球", 9%Z); (u "中国足球", 8%Z)]
  /\ Py.contains (u "足球") (u "中国足球") = true
  /\ Py.gt_0_7 8 9 = Some true
  /\ Reducer.scan_result 2 (u "中国足球") 8
       [(u "中国", 10%Z); (u "足球", 9%Z)] 0
     = Some ([(u "足球", 9%Z)], true).
Proof. repeat split; vm_compute; reflexivity. Qed.

(** ** Dictionaries *)

Section DictFacts.
Context {V : Type}.
Implicit Types (d : list (str * V)) (k : str) (v : V).

Lemma dict_get_set d k k' v :
  Py.dict_get k (Py.dict_set k' v d)
  = if Py.eqb k' k then Some v else Py.dict_get k d.
Proof.
  induction d as [|[k0 v0] d IH]; simpl.
  - reflexivity.
  - destruct (Py.eqb k0 k') eqn:E0; simpl.
    + apply eqb_eq in E0. subst k0. now destruct (Py.eqb k' k).
    + destruct (Py.eqb k0 k) eqn:E1; [|exact IH].
      destruct (Py.eqb k' k) eqn:E2; [|reflexivity].
      apply eqb_eq in E1, E2. subst. now rewrite eqb_refl in E0.
Qed.

Lemma dict_set_keys d k v x :
  In x (map fst (Py.dict_set k v d)) <-> x = k \/ In x (map fst d).
Proof.
  induction d as [|[k0 v0] d IH]; simpl.
  - intuition.
  - destruct (Py.eqb k0 k) eqn:E; simpl.
    + apply eqb_eq in E. subst. intuition.
    + rewrite IH. intuition.
Qed.

Lemma dict_set_NoDup d k v :
  List.NoDup (map fst d) -> List.NoDup (map fst (Py.dict_set k v d)).
Proof.
  induction d as [|[k0 v0] d IH]; simpl; intros H.
  - constructor; [intros [] | constructor].
  - inversion H as [|? ? Hn Hd]; subst.
    destruct (Py.eqb k0 k) eqn:E; simpl.
    + now constructor.
    + constructor; [|now apply IH].
      rewrite dict_set_keys. intros [->|Hin]; [|contradiction].
      now rewrite eqb_refl in E.
Qed.

Lemma dict_get_of_In d k v :
  List.NoDup (map fst d) -> In (k, v) d -> Py.dict_get k d = Some v.
Proof.
  induction d as [|[k0 v0] d IH]; simpl; intros Hn Hin; [contradiction|].
  inversion Hn as [|? ? Hk Hd]; subst.
  destruct Hin as [[= -> ->]|Hin].
  - now rewrite eqb_refl.
  - destruct (Py.eqb k0 k) eqn:E; [|now apply IH].
    apply eqb_eq in E. subst. exfalso. apply Hk.
    now apply (in_map fst) in Hin.
Qed.

Lemma dict_get_None_keys d k :
  Py.dict_get k d = None -> ~ In k (map fst d).
Proof.
  induction d as [|[k0 v0] d IH]; simpl; [tauto|].
  destruct (Py.eqb k0 k) eqn:E; [discriminate|].
  intros H [->|Hin]; [now rewrite eqb_refl in E | now apply IH].
Qed.

End DictFacts.

(** ** Semantic merge *)

Lemma merge_step_set (merged : list (str * Z)) (wc : str * Z) :
  Segment.merge_step merged wc
  = Py.dict_set (Segment.normalize_semantic (fst wc))
      (count_of (Segment.normalize_semantic (fst wc)) merged + snd wc)%Z merged.
Proof.
  unfold Segment.merge_step, count_of.
  now destruct (Py.dict_get (Segment.normalize_semantic (fst wc)) merged).
Qed.

Lemma semantic_total_cons (k : str) (wc : str * Z) (l : list (str * Z)) :
  semantic_total k (wc :: l)
  = ((if Py.eqb (Segment.normalize_semantic (fst wc)) k then snd wc else 0)
     + semantic_total k l)%Z.
Proof.
  unfold semantic_total, semantic_class, sum_counts. simpl.
  now destruct (Py.eqb (Segment.normalize_semantic (fst wc)) k).
Qed.

Lemma merge_fold_spec (l : list (str * Z)) (d : list (str * Z)) :
  List.NoDup (map fst d) ->
  let m := fold_left Segment.merge_step l d in
  List.NoDup (map fst m)
  /\ (forall k, count_of k m = (count_of k d + semantic_total k l)%Z)
  /\ (forall k, In k (map fst m) <->
                In k (map fst d)
                \/ In k (map (fun wc => Segment.normalize_semantic (fst wc)) l)).
Proof.
  revert d. induction l as [|wc l IH]; intros d Hd; simpl.
  - split; [exact Hd|]. split.
    + intros k. unfold semantic_total, semantic_class, sum_counts. simpl. lia.
    + intros k. tauto.
  - rewrite merge_step_set.
    set (n := Segment.normalize_semantic (fst wc)).
    set (d' := Py.dict_set n (count_of n d + snd wc)%Z d).
    destruct (IH d' (dict_set_NoDup d _ _ Hd)) as [H1 [H2 H3]].
    split; [exact H1|]. split.
    + intros k. rewrite H2, semantic_total_cons. fold n.
      unfold count_of at 1. unfold d'. rewrite dict_get_set.
      destruct (Py.eqb n k) eqn:E.
      * apply eqb_eq in E. subst k. lia.
      * fold (count_of k d). lia.
    + intros k. rewrite H3. unfold d'. rewrite dict_set_keys. intuition.
Qed.

Lemma merge_semantic_duplicates_spec (l : list (str * Z)) :
  let m := Segment.merge_semantic_duplicates l in
  List.NoDup (map fst m)
  /\ StronglySorted count_ge m
  /\ Forall (fun kc => snd kc = semantic_total (fst kc) l
                       /\ In (fst kc)
                            (map (fun wc => Segment.normalize_semantic (fst wc)) l)) m
  /\ Forall (fun wc => In (Segment.normalize_semantic (fst wc)) (map fst m)) l.
Proof.
  unfold Segment.merge_semantic_duplicates.
  destruct l as [|p l].
  { repeat split; constructor. }
  set (l0 := p :: l).
  destruct (merge_fold_spec l0 [] (List.NoDup_nil _)) as [H1 [H2 H3]].
  set (d := fold_left Segment.merge_step l0 []) in *.
  assert (Hp : Permutation (Py.sorted_by_count_desc d) d) by apply sorted_perm.
  cbv zeta. split.
  { eapply Permutation_NoDup; [symmetry; apply Permutation_map, Hp | exact H1]. }
  split; [apply sorted_by_count_desc_sorted|].
  split.
  - apply List.Forall_forall. intros [k c] Hin. simpl.
    apply (Permutation_in _ Hp) in Hin.
    split.
    + specialize (H2 k). unfold count_of in H2.
      rewrite (dict_get_of_In d k c H1 Hin) in H2. simpl in H2. lia.
    + apply (in_map fst) in Hin. apply H3 in Hin. simpl in Hin. tauto.
  - apply List.Forall_forall. intros wc Hin.
    assert (In (Segment.normalize_semantic (fst wc)) (map fst d)) as Hk.
    { apply H3. right.
      now apply (in_map (fun wc => Segment.normalize_semantic (fst wc))) in Hin. }
    eapply Permutation_in; [symmetry; apply Permutation_map, Hp | exact Hk].
Qed.

(** ** The frequency mapper writes canonical keys, each once *)

Section MapperKeys.
Context {R : Py.Runtime}.

Lemma emit_keys (weight : Z) (tokens : list str) (seen : gset str) :
  let '(seen', out) := Mapper.emit weight tokens seen in
  Forall (fun kw => Mapper.normalize_semantic (fst kw) = fst kw
                    /\ (2 <= length (fst kw))%nat
                    /\ In (fst kw) (map Mapper.normalize_semantic tokens)) out
  /\ List.NoDup (map fst out)
  /\ (forall k, k ∈ seen' <-> k ∈ seen \/ In k (map fst out))
  /\ (forall k, In k (map fst out) -> k ∉ seen).
Proof.
  revert seen. induction tokens as [|token rest IH]; intros seen; simpl.
  - repeat split; try constructor; tauto.
  - assert (Hskip : forall s o,
      Mapper.emit weight rest seen = (s, o) ->
      Forall (fun kw => Mapper.normalize_semantic (fst kw) = fst kw
                    /\ (2 <= length (fst kw))%nat
                    /\ In (fst kw) (Mapper.normalize_semantic token
                                    :: map Mapper.normalize_semantic rest)) o
      /\ List.NoDup (map fst o)
      /\ (forall k, k ∈ s <-> k ∈ seen \/ In k (map fst o))
      /\ (forall k, In k (map fst o) -> k ∉ seen)).
    { intros s o E. specialize (IH seen). rewrite E in IH.
      destruct IH as [F [N [S D]]]. repeat split; try assumption; try apply S.
      eapply List.Forall_impl; [|exact F]. simpl. intros a [? [? ?]]. auto. }
    unfold Mapper.normalize_word_mapper.
    destruct (Mapper.normalize_semantic token) as [|c n] eqn:En.
    { destruct (Mapper.emit weight rest seen) eqn:E. now apply Hskip. }
    destruct (length (c :: n) <? 2)%nat eqn:El.
    { destruct (Mapper.emit weight rest seen) eqn:E. now apply Hskip. }
    case_bool_decide as Hs.
    { destruct (Mapper.emit weight rest seen) eqn:E. now apply Hskip. }
    specialize (IH ({[c :: n]} ∪ seen)).
    destruct (Mapper.emit weight rest ({[c :: n]} ∪ seen)) as [seen' out].
    destruct IH as [F [N [S D]]].
    apply Nat.ltb_ge in El.
    split; [|split; [|split]].
    + constructor.
      * simpl fst. split; [|split; [exact El | now left]].
        rewrite <- En. apply mapper_semantic_idem.
      * eapply List.Forall_impl; [|exact F]. simpl. intros a [? [? ?]]. auto.
    + simpl. constructor; [|exact N].
      intros Hin. apply D in Hin. apply Hin.
      apply elem_of_union. left. now apply elem_of_singleton.
    + intros k. rewrite S, elem_of_union, elem_of_singleton. simpl.
      intuition congruence.
    + intros k [<-|Hin]; [exact Hs|]. apply D in Hin.
      intros Hk. apply Hin, elem_of_union. now right.
Qed.

Lemma step_keys (seen : gset str) (line : str) :
  let '(seen', out) := Mapper.step seen line in
  Forall (fun kw => Mapper.normalize_semantic (fst kw) = fst kw
                    /\ (2 <= length (fst kw))%nat) out
  /\ List.NoDup (map fst out)
  /\ (forall k, k ∈ seen' <-> k ∈ seen \/ In k (map fst out))
  /\ (forall k, In k (map fst out) -> k ∉ seen).
Proof.
  assert (Hnone : Forall (fun kw : str * Z =>
                    Mapper.normalize_semantic (fst kw) = fst kw
                    /\ (2 <= length (fst kw))%nat) []
    /\ List.NoDup (map fst ([] : list (str * Z)))
    /\ (forall k, k ∈ seen <-> k ∈ seen \/ In k (map fst ([] : list (str * Z))))
    /\ (forall k, In k (map fst ([] : list (str * Z))) -> k ∉ seen)).
  { repeat split; try constructor; simpl; tauto. }
  unfold Mapper.step. destruct (Py.strip line) as [|c l]; [exact Hnone|].
  destruct (negb (Py.has_char 44 (c :: l))); [exact Hnone|].
  destruct (Mapper.parse (c :: l)) as [[weight tokens]|]; [|exact Hnone].
  pose proof (emit_keys weight tokens seen) as H.
  destruct (Mapper.emit weight tokens seen) as [seen' out].
  destruct H as [F [N [S D]]]. repeat split; try assumption; try apply S.
  eapply List.Forall_impl; [|exact F]. simpl. tauto.
Qed.

Lemma run_keys (stdin : list str) (seen : gset str) :
  let out := concat (Mapper.run stdin seen) in
  Forall (fun kw => Mapper.normalize_semantic (fst kw) = fst kw
                    /\ (2 <= length (fst kw))%nat) out
  /\ List.NoDup (map fst out)
  /\ (forall k, In k (map fst out) -> k ∉ seen).
Proof.
  revert seen. induction stdin as [|line rest IH]; intros seen; simpl.
  - repeat split; try constructor. intros k [].
  - pose proof (step_keys seen line) as Hs.
    destruct (Mapper.step seen line) as [seen' out].
    destruct Hs as [F [N [S D]]].
    destruct (IH seen') as [F' [N' D']]. simpl.
    split; [apply List.Forall_app; now split|]. split.
    + rewrite map_app. apply List.NoDup_app; [exact N | exact N' |].
      intros k Hk Hk'. apply D' in Hk'. apply Hk'. apply S. now right.
    + intros k Hk. rewrite map_app in Hk. apply in_app_or in Hk as [Hk|Hk].
      * now apply D.
      * apply D' in Hk. intros Hin. apply Hk, S. now left.
Qed.

(** X1: no key is written twice in one run of the mapper, whatever the
    lines. *)
Lemma main_keys_NoDup (stdin : list str) : List.NoDup (map fst (Mapper.main stdin)).
Proof. apply (run_keys stdin ∅). Qed.

End MapperKeys.

(** ** The frequency reducer does not merge semantic variants *)

Lemma reducer_main_within_aggregate {R : Py.Runtime} (stdin : list str) :
  match Reducer.main stdin with
  | Some out => incl out (Reducer.aggregate stdin)
                /\ StronglySorted count_ge out
  | None => exists p, In p (Reducer.aggregate stdin)
                      /\ Py.float_of_int (snd p) = None
  end.
Proof.
  unfold Reducer.main.
  pose proof (reducer_dedup_sound (Reducer.aggregate stdin)) as H.
  destruct (Reducer.aggregate stdin) as [|p l] eqn:E; [|exact H].
  split; [apply incl_refl | constructor].
Qed.

(** C3, as stated: on the reducer input 回应 5, 发声 3, 表态 2 the
    frequency reducer writes the three keys as they came, not the merged
    entry 发声 10. *)
Lemma reducer_keeps_semantic_variants :
  Reducer.main (R := Py.bare_runtime)
    [record_line (u "回应") (u "5"); record_line (u "发声") (u "3");
     record_line (u "表态") (u "2")]
  = Some [(u "回应", 5%Z); (u "发声", 3%Z); (u "表态", 2%Z)]
  /\ Reducer.main (R := Py.bare_runtime)
       [record_line (u "回应") (u "5"); record_line (u "发声") (u "3");
        record_line (u "表态") (u "2")]
     <> Some [(u "发声", 10%Z)].
Proof. split; [vm_compute; reflexivity | vm_compute; discriminate]. Qed.

(** C3, amended: the canonical forms are taken by the mapper, whose keys
    are all fixed points of [mapper.py]'s [normalize_semantic]; the
    reducer writes pairs of its aggregated list unchanged, in descending
    order of count, with no merge after the deduplication.
    [merge_semantic_duplicates] of [segment.py] does merge: its keys are
    the canonical forms of the input words, each once, with the sum of
    the counts of its class, in descending order of count; 回应 5,
    发声 3, 表态 2 become 发声 10. *)
Theorem semantic_merge_is_at_map_time
    (R : Py.Runtime) (lines stdin : list str) (l : list (str * Z)) :
  Forall (fun kw => Mapper.normalize_semantic (fst kw) = fst kw)
         (Mapper.main lines)
  /\ match Reducer.main stdin with
     | Some out => incl out (Reducer.aggregate stdin)
                   /\ StronglySorted count_ge out
     | None => exists p, In p (Reducer.aggregate stdin)
                         /\ Py.float_of_int (snd p) = None
     end
  /\ List.NoDup (map fst (Segment.merge_semantic_duplicates l))
  /\ StronglySorted count_ge (Segment.merge_semantic_duplicates l)
  /\ Forall (fun kc => snd kc = semantic_total (fst kc) l
                       /\ In (fst kc)
                            (map (fun wc => Segment.normalize_semantic (fst wc)) l))
            (Segment.merge_semantic_duplicates l)
  /\ Forall (fun wc => In (Segment.normalize_semantic (fst wc))
                          (map fst (Segment.merge_semantic_duplicates l))) l
  /\ Segment.merge_semantic_duplicates
       [(u "回应", 5%Z); (u "发声", 3%Z); (u "表态", 2%Z)]
     = [(u "发声", 10%Z)].
Proof.
  split.
  { destruct (run_keys lines ∅) as [F _].
    eapply List.Forall_impl; [|exact F]. simpl. tauto. }
  split; [apply reducer_main_within_aggregate|].
  destruct (merge_semantic_duplicates_spec l) as [H1 [H2 [H3 H4]]].
  repeat (split; [assumption|]).
  vm_compute. reflexivity.
Qed.

(** ** Streaming aggregation *)

Lemma split1_no_sep (sep : N) (s : str) :
  Py.has_char sep s = false -> Py.split1 sep s = [s].
Proof.
  induction s as [|c r IH]; simpl; [reflexivity|].
  rewrite (N.eqb_sym sep c).
  destruct (c =? sep)%N; simpl; [discriminate|].
  intros H. now rewrite (IH H).
Qed.

Lemma split1_sep (sep : N) (s : str) :
  Py.has_char sep s = true ->
  exists a b, Py.split1 sep s = [a; b] /\ s = a ++ sep :: b
              /\ Py.has_char sep a = false.
Proof.
  induction s as [|c r IH]; simpl; [discriminate|].
  rewrite (N.eqb_sym sep c).
  destruct (c =? sep)%N eqn:E; simpl.
  - intros _. apply N.eqb_eq in E. subst. now exists [], r.
  - intros H. destruct (IH H) as [a [b [E1 [E2 E3]]]].
    exists (c :: a), b. rewrite E1. simpl. rewrite (N.eqb_sym sep c), E, E3.
    now subst.
Qed.

Section ReducerFacts.
Context {R : Py.Runtime}.

Lemma parse_line_no_tab (line : str) :
  Py.has_char 9 (Py.strip line) = false -> Reducer.parse_line line = None.
Proof.
  intros H. unfold Reducer.parse_line.
  destruct (Py.strip line) as [|c l]; [reflexivity|].
  now rewrite (split1_no_sep _ _ H).
Qed.

Lemma parse_line_Some (line k : str) (v : Z) :
  Reducer.parse_line line = Some (k, v) <->
  exists value, Py.strip line = k ++ 9%N :: value
                /\ Py.has_char 9 k = false /\ Py.int value = Some v.
Proof.
  unfold Reducer.parse_line. split.
  - destruct (Py.strip line) as [|c l] eqn:Es; [discriminate|].
    destruct (Py.has_char 9 (c :: l)) eqn:Eh.
    + destruct (split1_sep _ _ Eh) as [a [b [E1 [E2 E3]]]]. rewrite E1.
      destruct (Py.int b) as [n|] eqn:Ei; [|discriminate].
      intros [= <- <-]. now exists b.
    + now rewrite (split1_no_sep _ _ Eh).
  - intros [value [Es [Hk Hi]]]. rewrite Es.
    assert (Py.has_char 9 (k ++ 9%N :: value) = true) as Eh.
    { unfold Py.has_char. rewrite existsb_app. simpl. now rewrite orb_true_r. }
    destruct (split1_sep _ _ Eh) as [a [b [E1 [E2 E3]]]].
    assert (a = k /\ b = value) as [-> ->].
    { clear -E2 E3 Hk. unfold Py.has_char in *. revert a E2 E3.
      induction k as [|c k IH]; intros [|c' a] E2 E3; cbn [existsb app] in *.
      - now injection E2.
      - injection E2 as <- _. rewrite N.eqb_refl in E3. discriminate.
      - injection E2 as -> _. rewrite N.eqb_refl in Hk. discriminate.
      - injection E2 as <- E2.
        apply orb_false_elim in Hk as [_ Hk].
        apply orb_false_elim in E3 as [_ E3].
        destruct (IH Hk a E2 E3) as [-> ->]. now split. }
    rewrite E1, Hi. destruct (k ++ 9%N :: value) eqn:E; [|reflexivity].
    now destruct k.
Qed.

Lemma parse_line_bad_value (line : str) :
  (forall a b, Py.split1 9 (Py.strip line) = [a; b] -> Py.int b = None) ->
  Reducer.parse_line line = None.
Proof.
  intros H. unfold Reducer.parse_line.
  destruct (Py.strip line) as [|c l]; [reflexivity|].
  destruct (Py.split1 9 (c :: l)) as [|a [|b [|? ?]]] eqn:E; try reflexivity.
  now rewrite (H a b eq_refl).
Qed.

(** The co-occurrence reducer reads a line as the frequency reducer
    does. *)
Lemma cooccurrence_parse_line (line : str) :
  CooccurrenceReducer.parse_line line = Reducer.parse_line line.
Proof.
  unfold CooccurrenceReducer.parse_line, Reducer.parse_line.
  destruct (Py.strip line) as [|c l]; [reflexivity|].
  destruct (Py.has_char 9 (c :: l)) eqn:E; cbn [negb]; [reflexivity|].
  now rewrite (split1_no_sep _ _ E).
Qed.

Lemma same_state_flush s s' :
  same_state s s' -> Reducer.flush s = CooccurrenceReducer.flush s'.
Proof.
  destruct s, s'. unfold same_state, Reducer.flush, CooccurrenceReducer.flush.
  simpl. now intros [-> [-> ->]].
Qed.

Lemma same_state_step s s' line :
  same_state s s' ->
  same_state (Reducer.step s line) (CooccurrenceReducer.step s' line).
Proof.
  intros H. unfold Reducer.step, CooccurrenceReducer.step.
  rewrite cooccurrence_parse_line.
  destruct (Reducer.parse_line line) as [[k v]|]; [|exact H].
  pose proof (same_state_flush _ _ H) as Hf.
  destruct s, s'. destruct H as [H1 [H2 H3]]. simpl in *. subst.
  case_bool_decide; unfold same_state; simpl; auto.
Qed.

Lemma same_state_fold (stdin : list str) s s' :
  same_state s s' ->
  same_state (fold_left Reducer.step stdin s)
             (fold_left CooccurrenceReducer.step stdin s').
Proof.
  revert s s'. induction stdin as [|line rest IH]; intros s s' H; simpl;
    [exact H|].
  apply IH, same_state_step, H.
Qed.

Lemma cooccurrence_main_is_aggregate (stdin : list str) :
  CooccurrenceReducer.main stdin = Reducer.aggregate stdin.
Proof.
  unfold CooccurrenceReducer.main, Reducer.aggregate. symmetry.
  apply same_state_flush, same_state_fold. unfold same_state. auto.
Qed.

End ReducerFacts.

Section AggregateFacts.
Context {R : Py.Runtime}.

Lemma fold_step_records (stdin : list str) (st : Reducer.state) :
  fold_left Reducer.step stdin st = fold_left feed (records stdin) st.
Proof.
  revert st. induction stdin as [|line rest IH]; intros st; [reflexivity|].
  unfold records. simpl. unfold Reducer.step at 2.
  destruct (Reducer.parse_line line) as [[k v]|]; simpl; apply IH.
Qed.

End AggregateFacts.

Lemma join_join (k : str) (s v : Z) (rs : list (str * Z)) :
  join (k, (s + v)%Z) rs = join (k, s) (join (k, v) rs).
Proof.
  destruct rs as [|[k' s'] t]; simpl.
  - now rewrite eqb_refl.
  - destruct (Py.eqb k k') eqn:E; simpl.
    + rewrite eqb_refl. f_equal. f_equal. lia.
    + now rewrite eqb_refl.
Qed.

Lemma join_head (r : str * Z) (rs : list (str * Z)) :
  exists c t, join r rs = (fst r, c) :: t.
Proof.
  destruct r as [k v]. destruct rs as [|[k' s'] t]; simpl; [now eexists _, _|].
  destruct (Py.eqb k k'); now eexists _, _.
Qed.

Lemma fold_feed_runs (recs : list (str * Z)) (k : str) (s : Z)
    (agg : list (str * Z)) :
  Reducer.flush (fold_left feed recs (Reducer.State (Some k) s agg))
  = agg ++ join (k, s) (runs recs).
Proof.
  revert k s agg. induction recs as [|[k1 v1] rest IH]; intros k s agg.
  - reflexivity.
  - simpl fold_left. unfold feed at 2. simpl.
    case_bool_decide as E.
    + injection E as <-. rewrite IH. now rewrite join_join.
    + rewrite IH. unfold Reducer.flush. simpl. rewrite <- app_assoc. simpl.
      destruct (join_head (k1, v1) (runs rest)) as [c [t Ej]]. rewrite Ej.
      simpl. destruct (Py.eqb k k1) eqn:Ek; [|reflexivity].
      apply eqb_eq in Ek. now subst.
Qed.

Lemma aggregate_runs {R : Py.Runtime} (stdin : list str) :
  Reducer.aggregate stdin = runs (records stdin).
Proof.
  unfold Reducer.aggregate. rewrite fold_step_records.
  destruct (records stdin) as [|[k v] rest]; [reflexivity|].
  simpl fold_left. unfold feed at 2. simpl.
  now rewrite fold_feed_runs.
Qed.

Lemma join_keys (r : str * Z) (rs : list (str * Z)) (k : str) :
  In k (map fst (join r rs)) <-> k = fst r \/ In k (map fst rs).
Proof.
  destruct rs as [|[k' s'] t]; simpl; [intuition|].
  destruct (Py.eqb (fst r) k') eqn:E; simpl; [|intuition].
  apply eqb_eq in E. subst. intuition.
Qed.

Lemma runs_keys (recs : list (str * Z)) (k : str) :
  In k (map fst (runs recs)) <-> In k (map fst recs).
Proof.
  induction recs as [|r rest IH]; simpl; [tauto|].
  rewrite join_keys, IH. intuition.
Qed.

Lemma value_sum_cons (k : str) (r : str * Z) (recs : list (str * Z)) :
  value_sum k (r :: recs)
  = ((if Py.eqb (fst r) k then snd r else 0) + value_sum k recs)%Z.
Proof.
  unfold value_sum, sum_counts. simpl. now destruct (Py.eqb (fst r) k).
Qed.

Lemma value_sum_absent (k : str) (recs : list (str * Z)) :
  ~ In k (map fst recs) -> value_sum k recs = 0%Z.
Proof.
  induction recs as [|r rest IH]; [reflexivity|]. simpl. intros H.
  rewrite value_sum_cons, IH by tauto.
  destruct (Py.eqb (fst r) k) eqn:E; [|reflexivity].
  apply eqb_eq in E. tauto.
Qed.

Lemma existsb_eqb_false (k : str) (l : list str) :
  existsb (Py.eqb k) l = false -> ~ In k l.
Proof.
  intros H Hin. assert (existsb (Py.eqb k) l = true) as Ht; [|congruence].
  apply existsb_exists. exists k. split; [exact Hin | apply eqb_refl].
Qed.

Lemma runs_grouped (recs : list (str * Z)) :
  groupedb recs = true ->
  List.NoDup (map fst (runs recs))
  /\ Forall (fun kc => snd kc = value_sum (fst kc) recs) (runs recs).
Proof.
  induction recs as [|r rest IH]; [split; constructor|].
  cbn [groupedb]. intros H. apply andb_prop in H as [Hk Hg].
  apply negb_true_iff in Hk. destruct (IH Hg) as [Hn Hs]. clear IH.
  change (runs (r :: rest)) with (join r (runs rest)).
  destruct (runs rest) as [|[k' s] t] eqn:Er.
  - assert (rest = []) as ->.
    { destruct rest as [|r' rest']; [reflexivity|].
      change (runs (r' :: rest')) with (join r' (runs rest')) in Er.
      destruct (join_head r' (runs rest')) as [c [t Ej]]. congruence. }
    simpl. split; [constructor; [intros []|constructor]|].
    constructor; [|constructor]. simpl. rewrite value_sum_cons, eqb_refl.
    unfold value_sum, sum_counts. simpl. lia.
  - assert (exists v' rest', rest = (k', v') :: rest') as [v' [rest' ->]].
    { destruct rest as [|r' rest']; [discriminate|].
      change (runs (r' :: rest')) with (join r' (runs rest')) in Er.
      destruct (join_head r' (runs rest')) as [c [t' Ej]].
      rewrite Ej in Er. injection Er as <- _ _. destruct r'. now eexists _, _. }
    inversion Hn as [|? ? Hk' Hn']; subst.
    inversion Hs as [|? ? Hs1 Hs']; subst. simpl in Hs1.
    unfold join. destruct (Py.eqb (fst r) k') eqn:E.
    + apply eqb_eq in E. subst k'. split; [now constructor|].
      constructor.
      * simpl. rewrite value_sum_cons, eqb_refl, Hs1. reflexivity.
      * rewrite List.Forall_forall in Hs'. apply List.Forall_forall.
        intros [k2 c2] Hin. pose proof (Hs' _ Hin) as Hc. simpl in Hc |- *.
        rewrite value_sum_cons, <- Hc. simpl.
        destruct (Py.eqb (fst r) k2) eqn:E2; [|lia].
        apply eqb_eq in E2. subst k2. exfalso. apply Hk'.
        now apply (in_map fst) in Hin.
    + assert (~ In (fst r) (map fst ((k', v') :: rest'))) as Hout.
      { apply existsb_eqb_false. cbn [skip_key fst] in Hk.
        rewrite <- Hk. f_equal. f_equal.
        destruct (Py.eqb k' (fst r)) eqn:E'; [|reflexivity].
        apply eqb_eq in E'. subst k'. now rewrite eqb_refl in E. }
      split.
      * constructor; [|exact Hn].
        intros Hin. apply Hout. apply runs_keys. now rewrite Er.
      * constructor.
        -- rewrite value_sum_cons, eqb_refl, (value_sum_absent _ _ Hout). lia.
        -- rewrite List.Forall_forall in Hs. apply List.Forall_forall.
           intros [k2 c2] Hin. pose proof (Hs _ Hin) as Hc. simpl in Hc |- *.
           rewrite value_sum_cons, <- Hc. simpl.
           destruct (Py.eqb (fst r) k2) eqn:E2; [|lia].
           apply eqb_eq in E2. subst k2. exfalso. apply Hout, runs_keys.
           rewrite Er. now apply (in_map fst) in Hin.
Qed.

(** ** The order on strings *)

Lemma ltb_irrefl (a : str) : Py.ltb a a = false.
Proof.
  induction a as [|x a IH]; [reflexivity|]. simpl.
  now rewrite N.ltb_irrefl, N.eqb_refl, IH.
Qed.

Lemma ltb_trans (a b c : str) :
  Py.ltb a b = true -> Py.ltb b c = true -> Py.ltb a c = true.
Proof.
  revert b c. induction a as [|x a IH]; intros [|y b] [|z c]; simpl;
    try discriminate; try reflexivity.
  rewrite !orb_true_iff, !andb_true_iff, !N.ltb_lt, !N.eqb_eq.
  intros [H1|[H1 H1']] [H2|[H2 H2']]; subst; try (left; lia); try tauto.
  right. split; [reflexivity|]. now apply IH with b.
Qed.

Lemma ltb_total (a b : str) :
  Py.ltb a b = false -> Py.ltb b a = false -> a = b.
Proof.
  revert b. induction a as [|x a IH]; intros [|y b]; simpl;
    try discriminate; try reflexivity.
  rewrite !orb_false_iff, !andb_false_iff, !N.ltb_ge, !N.eqb_neq.
  intros [H1 H1'] [H2 H2'].
  assert (x = y) as -> by lia. f_equal.
  apply IH; tauto.
Qed.

Lemma ltb_asym (a b : str) : Py.ltb a b = true -> Py.ltb b a = false.
Proof.
  intros H. destruct (Py.ltb b a) eqn:E; [|reflexivity].
  pose proof (ltb_trans _ _ _ H E) as Hc. now rewrite ltb_irrefl in Hc.
Qed.

Lemma str_le_trans (a b c : str) :
  str_le a b -> str_le b c -> str_le a c.
Proof.
  unfold str_le. intros H1 H2.
  destruct (Py.ltb c a) eqn:E; [|reflexivity].
  destruct (Py.ltb a b) eqn:E'.
  - pose proof (ltb_trans _ _ _ E E'). congruence.
  - assert (a = b) by now apply ltb_total. subst. congruence.
Qed.

Lemma sorted_ltb_sorted (l : list str) :
  StronglySorted str_le (Py.sorted Py.ltb l).
Proof.
  apply sorted_sorted; unfold str_le.
  - intros y x. apply ltb_asym.
  - intros y x H. exact H.
  - apply str_le_trans.
Qed.

(** ** Pairs *)

Section Combinations.
Context {A : Type}.
Implicit Types (l : list A) (a b : A).

Lemma combinations2_In l a b :
  In (a, b) (CooccurrenceMapper.combinations2 l) -> In a l /\ In b l.
Proof.
  induction l as [|x l IH]; simpl; [tauto|]. intros H.
  apply in_app_or in H as [H|H].
  - apply in_map_iff in H as [y [[= <- <-] Hy]]. auto.
  - apply IH in H. tauto.
Qed.

Lemma combinations2_sorted (rel : A -> A -> Prop) l :
  StronglySorted rel l ->
  Forall (fun p => rel (fst p) (snd p)) (CooccurrenceMapper.combinations2 l).
Proof.
  induction 1 as [|x l Hs IH Hx]; simpl; [constructor|].
  apply List.Forall_app. split; [|exact IH].
  apply List.Forall_forall. intros p Hp.
  apply in_map_iff in Hp as [y [<- Hy]]. simpl.
  rewrite List.Forall_forall in Hx. now apply Hx.
Qed.

Lemma combinations2_NoDup l :
  List.NoDup l -> List.NoDup (CooccurrenceMapper.combinations2 l).
Proof.
  induction 1 as [|x l Hx Hn IH]; simpl; [constructor|].
  apply List.NoDup_app; [| exact IH |].
  - clear -Hn. induction Hn as [|y l Hy Hn IH]; simpl; constructor; [|exact IH].
    intros H. apply in_map_iff in H as [z [[= ->] Hz]]. contradiction.
  - intros [a b] Ha Hb. apply in_map_iff in Ha as [y [[= <- <-] Hy]].
    apply combinations2_In in Hb. tauto.
Qed.

Lemma combinations2_complete l a b :
  In a l -> In b l -> a <> b ->
  In (a, b) (CooccurrenceMapper.combinations2 l)
  \/ In (b, a) (CooccurrenceMapper.combinations2 l).
Proof.
  induction l as [|x l IH]; simpl; [tauto|].
  intros [->|Ha] [->|Hb] Hne.
  - congruence.
  - left. apply in_or_app. left. now apply in_map.
  - right. apply in_or_app. left. now apply in_map.
  - destruct (IH Ha Hb Hne); [left | right]; apply in_or_app; now right.
Qed.

End Combinations.

Lemma pairs_of_line_spec (line : str) :
  List.NoDup (CooccurrenceMapper.valid_tokens line) ->
  List.NoDup (CooccurrenceMapper.pairs_of_line line)
  /\ (forall a b, In (a, b) (CooccurrenceMapper.pairs_of_line line) <->
        In a (CooccurrenceMapper.valid_tokens line)
        /\ In b (CooccurrenceMapper.valid_tokens line)
        /\ Py.ltb a b = true).
Proof.
  intros Hn. unfold CooccurrenceMapper.pairs_of_line.
  set (v := CooccurrenceMapper.valid_tokens line) in *.
  assert (Hp : Permutation (Py.sorted Py.ltb v) v) by apply sorted_perm.
  assert (Hn' : List.NoDup (Py.sorted Py.ltb v)).
  { eapply Permutation_NoDup; [symmetry; exact Hp | exact Hn]. }
  split; [now apply combinations2_NoDup|].
  intros a b. split.
  - intros H. pose proof (combinations2_In _ _ _ H) as [Ha Hb].
    split; [eapply Permutation_in; eauto|].
    split; [eapply Permutation_in; eauto|].
    pose proof (combinations2_sorted str_le _ (sorted_ltb_sorted v)) as Hs.
    rewrite List.Forall_forall in Hs. specialize (Hs _ H).
    unfold str_le in Hs. simpl in Hs.
    destruct (Py.ltb a b) eqn:E; [reflexivity|].
    assert (a = b) by now apply ltb_total. subst b. exfalso.
    (* a pair of equal words cannot come from a duplicate-free list *)
    clear -H Hn'. induction (Py.sorted Py.ltb v) as [|x l IH]; simpl in H; [easy|].
    inversion Hn' as [|? ? Hx Hl]; subst.
    apply in_app_or in H as [H|H]; [|now apply IH].
    apply in_map_iff in H as [y [[= -> ->] Hy]]. contradiction.
  - intros [Ha [Hb Hlt]].
    assert (a <> b) as Hne by (intros ->; now rewrite ltb_irrefl in Hlt).
    apply (Permutation_in _ (Permutation_sym Hp)) in Ha, Hb.
    destruct (combinations2_complete _ _ _ Ha Hb Hne) as [H|H]; [exact H|].
    exfalso.
    pose proof (combinations2_sorted str_le _ (sorted_ltb_sorted v)) as Hs.
    rewrite List.Forall_forall in Hs. specialize (Hs _ H).
    unfold str_le in Hs. simpl in Hs. congruence.
Qed.

(** C6: for a line whose tokens of length at least 2 are pairwise
    distinct, the co-occurrence mapper goes through each pair once, the
    pairs being exactly those of two such tokens [a < b]; so every
    unordered pair of two different tokens is met in one order only, the
    smaller word first, and no word is paired with itself.  Each pair is
    printed as the two words with a comma between, a tab and [1]. *)
Theorem cooccurrence_pairs_canonical (line : str) :
  List.NoDup (CooccurrenceMapper.valid_tokens line) ->
  List.NoDup (CooccurrenceMapper.pairs_of_line line)
  /\ (forall a b, In (a, b) (CooccurrenceMapper.pairs_of_line line) <->
        In a (CooccurrenceMapper.valid_tokens line)
        /\ In b (CooccurrenceMapper.valid_tokens line)
        /\ Py.ltb a b = true)
  /\ (forall a b,
        In a (CooccurrenceMapper.valid_tokens line) ->
        In b (CooccurrenceMapper.valid_tokens line) -> a <> b ->
        (In (a, b) (CooccurrenceMapper.pairs_of_line line)
         /\ ~ In (b, a) (CooccurrenceMapper.pairs_of_line line))
        \/ (In (b, a) (CooccurrenceMapper.pairs_of_line line)
            /\ ~ In (a, b) (CooccurrenceMapper.pairs_of_line line)))
  /\ (forall a, ~ In (a, a) (CooccurrenceMapper.pairs_of_line line))
  /\ Forall (fun t => (2 <= length t)%nat) (CooccurrenceMapper.valid_tokens line)
  /\ CooccurrenceMapper.main [line]
     = map (fun p => fst p ++ [44%N] ++ snd p ++ [9%N; 49%N])
           (CooccurrenceMapper.pairs_of_line line).
Proof.
  intros Hn. destruct (pairs_of_line_spec line Hn) as [Hd Hi].
  split; [exact Hd|]. split; [exact Hi|]. split; [|split; [|split]].
  - intros a b Ha Hb Hne. rewrite !Hi.
    destruct (Py.ltb a b) eqn:E.
    + left. split; [tauto|]. rewrite (ltb_asym _ _ E). intros [_ [_ ?]]. discriminate.
    + right. destruct (Py.ltb b a) eqn:E'.
      * split; [tauto|]. intros [_ [_ ?]]. discriminate.
      * exfalso. apply Hne. now apply ltb_total.
  - intros a H. apply Hi in H as [_ [_ H]]. now rewrite ltb_irrefl in H.
  - unfold CooccurrenceMapper.valid_tokens.
    destruct (Py.strip line) as [|c l]; [constructor|].
    destruct (negb (Py.has_char 44 (c :: l))); [constructor|].
    destruct (if (1 <? length (Py.split1 44 (c :: l)))%nat
              then Py.strip (nth 1 (Py.split1 44 (c :: l)) []) else []);
      [constructor|].
    apply List.Forall_forall. intros t Ht. apply filter_In in Ht as [_ Ht].
    now apply Nat.leb_le in Ht.
  - unfold CooccurrenceMapper.main. simpl. now rewrite app_nil_r.
Qed.

Lemma cooccurrence_pairs_canonical_witness :
  CooccurrenceMapper.pairs_of_line (u "3,高考 地震 作文")
  = [(u "作文", u "地震"); (u "作文", u "高考"); (u "地震", u "高考")]
  /\ List.NoDup (CooccurrenceMapper.pairs_of_line (u "3,高考 地震 作文")).
Proof.
  split; [vm_compute; reflexivity|].
  assert (List.NoDup (CooccurrenceMapper.valid_tokens (u "3,高考 地震 作文"))) as H.
  { vm_compute. repeat (constructor; [simpl; intuition discriminate|]). constructor. }
  exact (proj1 (cooccurrence_pairs_canonical (u "3,高考 地震 作文") H)).
Defined.

(** ** Tokens *)

Section TokenizeFacts.
Context {R : Py.Runtime}.

Lemma is_bad_token_false (w : str) (stop_set : gset str) :
  Segment.is_bad_token w stop_set = false ->
  w <> [] /\ (w ∉ Segment.BAD_WORDS) /\ (w ∉ stop_set)
  /\ Py.isdigit w = false
  /\ (Py.search_cjk w = true -> (2 <= length w <= 10)%nat)
  /\ (Py.fullmatch_alpha w = true -> (2 <= length w)%nat).
Proof.
  unfold Segment.is_bad_token. destruct w as [|c w]; [discriminate|].
  case_bool_decide as Hs; [discriminate|].
  case_bool_decide as Hb; [discriminate|].
  destruct (Py.isdigit (c :: w)); [discriminate|].
  destruct (Py.fullmatch_alpha (c :: w) && (length (c :: w) <? 2)%nat) eqn:Ea;
    [discriminate|].
  destruct (Py.search_cjk (c :: w)
            && ((length (c :: w) <? 2)%nat || (10 <? length (c :: w))%nat)) eqn:Ec;
    [discriminate|].
  intros _. split; [discriminate|]. split; [exact Hb|]. split; [exact Hs|].
  split; [reflexivity|]. split.
  - intros Hc. rewrite Hc in Ec. simpl in Ec.
    apply orb_false_elim in Ec as [E1 E2]. apply Nat.ltb_ge in E1, E2.
    simpl. lia.
  - intros Hf. rewrite Hf in Ea. simpl in Ea. apply Nat.ltb_ge in Ea. exact Ea.
Qed.

Section WithSegmenter.
Variable pseg : option (str -> list (str * str)).
Variable lcut : str -> list str.

Lemma tagged_tokens_good (title : str) (stop_set : gset str) :
  Forall (fun wf => Segment.is_bad_token (fst wf) stop_set = false)
         (Segment.tagged_tokens pseg lcut title stop_set).
Proof.
  unfold Segment.tagged_tokens. destruct pseg as [cut|].
  - induction (cut title) as [|wf l IH]; simpl; [constructor|].
    apply List.Forall_app. split; [|exact IH].
    destruct (Segment.normalize_word (fst wf)) as [|c w] eqn:En; [constructor|].
    destruct (negb (Segment.allow_by_pos (snd wf))); [constructor|].
    destruct (Segment.is_bad_token (c :: w) stop_set) eqn:Eb; [constructor|].
    constructor; [exact Eb | constructor].
  - induction (lcut title) as [|w l IH]; simpl; [constructor|].
    apply List.Forall_app. split; [|exact IH].
    destruct (Segment.is_bad_token (Segment.normalize_word w) stop_set) eqn:Eb;
      [constructor|].
    constructor; [exact Eb | constructor].
Qed.

Lemma phrase_of_good (pos_list : list (str * str)) (stop_set : gset str)
    (p : (str * str) * (str * str)) :
  Forall (fun ps => Segment.is_bad_token (fst ps) stop_set = false
                    /\ (2 <= length (fst ps) <= 8)%nat)
         (Segment.phrase_of pos_list stop_set p).
Proof.
  destruct p as [[w1 f1] [w2 f2]]. unfold Segment.phrase_of.
  destruct (bool_decide (w1 ∈ Segment.BAD_COMPONENT)
            || bool_decide (w2 ∈ Segment.BAD_COMPONENT)); [constructor|].
  destruct (Segment.KINSHIP_RE_search w1 || Segment.KINSHIP_RE_search w2);
    [constructor|].
  destruct (negb (Segment.phrase_flag_ok f1 && Segment.phrase_flag_ok f2));
    [constructor|].
  destruct (Segment.is_bad_token (Segment.normalize_word (w1 ++ w2)) stop_set)
    eqn:Eb; [constructor|].
  destruct ((length (Segment.normalize_word (w1 ++ w2)) <? 2)%nat
            || (8 <? length (Segment.normalize_word (w1 ++ w2)))%nat) eqn:El;
    [constructor|].
  apply orb_false_elim in El as [E1 E2].
  apply Nat.ltb_ge in E1, E2.
  constructor; [|constructor]. simpl. split; [exact Eb | lia].
Qed.

Lemma add_unseen_Forall (P : str -> Prop) (ws : list str) (seen : gset str)
    (final_tokens : list str) :
  Forall P ws -> Forall P final_tokens ->
  Forall P (snd (Segment.add_unseen ws seen final_tokens)).
Proof.
  revert seen final_tokens.
  induction ws as [|w r IH]; intros seen ft Hw Hf; simpl; [exact Hf|].
  inversion Hw as [|? ? Hw1 Hw2]; subst.
  case_bool_decide; apply IH; try assumption.
  apply List.Forall_app. split; [exact Hf|]. constructor; [exact Hw1|constructor].
Qed.

Lemma tokenize_good (title : str) (stop_set : gset str) :
  Forall (fun t => Segment.is_bad_token t stop_set = false)
         (Segment.tokenize pseg lcut title stop_set).
Proof.
  unfold Segment.tokenize.
  destruct (Segment.clean_title title) as [|c0 t0]; [constructor|].
  set (title' := c0 :: t0).
  pose proof (tagged_tokens_good title' stop_set) as Ht.
  set (pos_list := Segment.tagged_tokens pseg lcut title' stop_set) in *.
  destruct pos_list as [|p0 pl] eqn:Ep; [constructor|]. rewrite <- Ep in *.
  set (phrases := Py.sorted_by_count_desc
                    (flat_map (Segment.phrase_of pos_list stop_set)
                              (Segment.adjacent pos_list))).
  assert (Forall (fun t => Segment.is_bad_token t stop_set = false)
                 (map fst phrases)) as Hp.
  { apply List.Forall_forall. intros t Hin.
    apply in_map_iff in Hin as [ps [<- Hps]].
    apply (proj1 (sorted_by_count_desc_In _ _)) in Hps.
    apply in_flat_map in Hps as [pr [_ Hps]].
    pose proof (phrase_of_good pos_list stop_set pr) as Hg.
    rewrite List.Forall_forall in Hg. now apply Hg. }
  assert (Forall (fun t => Segment.is_bad_token t stop_set = false)
                 (map fst pos_list)) as Hk.
  { apply List.Forall_forall. intros t Hin.
    apply in_map_iff in Hin as [wf [<- Hwf]].
    rewrite List.Forall_forall in Ht. now apply Ht. }
  pose proof (add_unseen_Forall _ (map fst phrases) ∅ [] Hp (List.Forall_nil _)) as H1.
  destruct (Segment.add_unseen (map fst phrases) ∅ []) as [seen ft].
  pose proof (add_unseen_Forall _ (map fst pos_list) seen ft Hk H1) as H2.
  destruct (Segment.add_unseen (map fst pos_list) seen ft) as [seen' ft'].
  simpl in H2. apply List.Forall_forall. intros t Hin.
  rewrite List.Forall_forall in H2. apply H2.
  rewrite <- (firstn_skipn 40 ft'). apply in_or_app. now left.
Qed.

End WithSegmenter.

End TokenizeFacts.

(** C7, as stated: the tagger may hand over a word of letters and digits,
    such as 5G tagged [eng]; [tokenize] lets it through, and it is neither
    a CJK token nor a word of ASCII letters only. *)
Lemma tokenize_emits_mixed_token :
  Segment.tokenize (R := Py.bare_runtime)
    (Some (fun _ => [(u "5G", u "eng")])) (fun _ => []) (u "5G") ∅
  = [u "5G"]
  /\ claimed_shape (u "5G") = false.
Proof. split; vm_compute; reflexivity. Qed.

(** C7, amended: for every title, stopword set, runtime and segmenter,
    every token [tokenize] returns passes [is_bad_token]: it is not
    empty, not in [BAD_WORDS], not a stopword and not a number; if it
    holds a CJK character its length is within 2 to 10, and if it is made
    of ASCII letters only it has at least two.  A token of neither kind,
    such as 5G, can be returned. *)
Theorem tokenize_tokens_admissible
    (R : Py.Runtime) (pseg : option (str -> list (str * str)))
    (lcut : str -> list str) (title : str) (stop_set : gset str) :
  Forall (fun t => Segment.is_bad_token t stop_set = false
                   /\ t <> []
                   /\ (t ∉ Segment.BAD_WORDS)
                   /\ (t ∉ stop_set)
                   /\ Py.isdigit t = false
                   /\ (Py.search_cjk t = true -> (2 <= length t <= 10)%nat)
                   /\ (Py.fullmatch_alpha t = true -> (2 <= length t)%nat))
         (Segment.tokenize pseg lcut title stop_set).
Proof.
  eapply List.Forall_impl; [|apply tokenize_good].
  intros t Hb. split; [exact Hb|]. now apply is_bad_token_false.
Qed.

(** ** When the comparison with 0.7 raises *)

(** A count of [2^1024] has no float: the product raises and
    [deduplicate_by_inclusion] returns nothing.  Counts that convert are
    compared exactly: [63 > 90 * 0.7] holds, the product being the double
    just below 63, while [7 > 10 * 0.7] does not. *)
Lemma dedup_overflow_example :
  Reducer.deduplicate_by_inclusion [(u "足球", (2 ^ 1024)%Z); (u "中国足球", 1%Z)]
  = None
  /\ Py.gt_0_7 63 90 = Some true
  /\ Py.gt_0_7 7 10 = Some false.
Proof. repeat split; vm_compute; reflexivity. Qed.

(** ** More on [tokenize] *)

Lemma firstn_incl_of {A : Type} (n : nat) (l : list A) : incl (firstn n l) l.
Proof.
  intros x Hx. rewrite <- (firstn_skipn n l). apply in_or_app. now left.
Qed.

Lemma firstn_NoDup {A : Type} (n : nat) (l : list A) :
  List.NoDup l -> List.NoDup (firstn n l).
Proof.
  intros H. rewrite <- (firstn_skipn n l) in H.
  now apply NoDup_app_remove_r in H.
Qed.

Section TokenizeMore.
Context {R : Py.Runtime}.

(** What the two closing loops do to [seen] and [final_tokens]. *)
Lemma add_unseen_spec (ws : list str) (seen : gset str) (final_tokens : list str) :
  List.NoDup final_tokens ->
  (forall x, In x final_tokens -> x ∈ seen) ->
  let '(seen', ft') := Segment.add_unseen ws seen final_tokens in
  List.NoDup ft'
  /\ (forall x, In x ft' -> x ∈ seen')
  /\ (forall x, x ∈ seen' <-> x ∈ seen \/ In x ws)
  /\ (forall x, In x ft' <-> In x final_tokens \/ (In x ws /\ x ∉ seen)).
Proof.
  revert seen final_tokens.
  induction ws as [|w r IH]; intros seen ft Hn Hs; simpl.
  - repeat split; try assumption; tauto.
  - case_bool_decide as Hw.
    + specialize (IH seen ft Hn Hs).
      destruct (Segment.add_unseen r seen ft) as [seen' ft'].
      destruct IH as [H1 [H2 [H3 H4]]].
      split; [exact H1|]. split; [exact H2|]. split.
      * intros x. rewrite H3. intuition (subst; auto).
      * intros x. rewrite H4. intuition (subst; auto). contradiction.
    + assert (List.NoDup (ft ++ [w])) as Hn'.
      { apply List.NoDup_app; [exact Hn | constructor; [intros []|constructor] |].
        intros a Ha [<-|[]]. apply Hw, Hs, Ha. }
      assert (forall x, In x (ft ++ [w]) -> x ∈ {[w]} ∪ seen) as Hs'.
      { intros x Hx. apply elem_of_union. apply in_app_or in Hx as [Hx|[<-|[]]].
        - right. now apply Hs.
        - left. now apply elem_of_singleton. }
      specialize (IH ({[w]} ∪ seen) (ft ++ [w]) Hn' Hs').
      destruct (Segment.add_unseen r ({[w]} ∪ seen) (ft ++ [w])) as [seen' ft'].
      destruct IH as [H1 [H2 [H3 H4]]].
      split; [exact H1|]. split; [exact H2|]. split.
      * intros x. rewrite H3, elem_of_union, elem_of_singleton.
        intuition (subst; auto).
      * intros x. rewrite H4, in_app_iff, elem_of_union, elem_of_singleton.
        simpl. split.
        -- intros [[H|[<-|[]]]|[H H']]; auto. right. split; [now right|].
           intros Hx. apply H'. now right.
        -- intros [H|[[<-|H] H']]; auto.
           destruct (decide (x = w)) as [->|Hne]; [auto|].
           right. split; [exact H|]. intros [?|?]; contradiction.
Qed.

Section WithSegmenter.
Variable pseg : option (str -> list (str * str)).
Variable lcut : str -> list str.

Lemma tokenize_firstn (title : str) (stop_set : gset str) :
  Segment.tokenize pseg lcut title stop_set
  = match Segment.clean_title title with
    | [] => []
    | _ => firstn 40 (all_tokens pseg lcut title stop_set)
    end.
Proof.
  unfold Segment.tokenize, all_tokens.
  destruct (Segment.clean_title title) as [|c0 t0]; [reflexivity|].
  set (pos_list := Segment.tagged_tokens pseg lcut (c0 :: t0) stop_set).
  destruct pos_list as [|p0 pl] eqn:Ep; [reflexivity|]. rewrite <- Ep.
  destruct (Segment.add_unseen _ ∅ []) as [seen ft]. simpl.
  now destruct (Segment.add_unseen (map fst pos_list) seen ft).
Qed.

Lemma all_tokens_spec (title : str) (stop_set : gset str) :
  let pos_list := Segment.tagged_tokens pseg lcut (Segment.clean_title title) stop_set in
  let phrases := flat_map (Segment.phrase_of pos_list stop_set)
                          (Segment.adjacent pos_list) in
  List.NoDup (all_tokens pseg lcut title stop_set)
  /\ forall t, In t (all_tokens pseg lcut title stop_set)
               <-> In t (map fst phrases) \/ In t (map fst pos_list).
Proof.
  cbv zeta. unfold all_tokens.
  set (pos_list := Segment.tagged_tokens pseg lcut (Segment.clean_title title) stop_set).
  set (phrases := flat_map (Segment.phrase_of pos_list stop_set)
                           (Segment.adjacent pos_list)).
  pose proof (add_unseen_spec (map fst (Py.sorted_by_count_desc phrases)) ∅ []
                (List.NoDup_nil _)) as H1.
  destruct (Segment.add_unseen (map fst (Py.sorted_by_count_desc phrases)) ∅ [])
    as [seen ft].
  destruct H1 as [N1 [S1 [M1 I1]]]; [intros x []|].
  pose proof (add_unseen_spec (map fst pos_list) seen ft N1 S1) as H2.
  simpl. destruct (Segment.add_unseen (map fst pos_list) seen ft) as [seen' ft'].
  destruct H2 as [N2 [S2 [M2 I2]]]. simpl.
  split; [exact N2|]. intros t. rewrite I2, I1.
  assert (In t (map fst (Py.sorted_by_count_desc phrases)) <-> In t (map fst phrases))
    as Hp.
  { split; intros H; apply in_map_iff in H as [p [<- Hp]]; apply in_map;
      now apply sorted_by_count_desc_In. }
  rewrite M1, Hp. split.
  - intros [[[]|[H _]]|[H _]]; auto.
  - intros [H|H].
    + left. right. split; [exact H|]. apply not_elem_of_empty.
    + destruct (in_dec (fun a b : str => decide (a = b)) t (map fst phrases))
        as [Hi|Hi].
      * left. right. split; [exact Hi | apply not_elem_of_empty].
      * right. split; [exact H|].
        intros [He|Hp']; [now apply not_elem_of_empty in He | contradiction].
Qed.

Lemma tokenize_NoDup (title : str) (stop_set : gset str) :
  List.NoDup (Segment.tokenize pseg lcut title stop_set)
  /\ (length (Segment.tokenize pseg lcut title stop_set) <= 40)%nat.
Proof.
  rewrite tokenize_firstn.
  destruct (Segment.clean_title title); [split; [constructor | simpl; lia]|].
  split; [|apply firstn_le_length].
  apply firstn_NoDup, all_tokens_spec.
Qed.

End WithSegmenter.

End TokenizeMore.

Section TokenizeTheorems.
Context {R : Py.Runtime}.

Lemma is_bad_token_kinship (w : str) (stop_set : gset str) :
  Segment.is_bad_token w stop_set = false ->
  Segment.KINSHIP_RE_search w = true -> (4 < length w)%nat.
Proof.
  unfold Segment.is_bad_token. destruct w as [|c w]; [discriminate|].
  case_bool_decide as H1; [discriminate|]. case_bool_decide as H2; [discriminate|].
  destruct (Py.isdigit (c :: w)); [discriminate|].
  destruct (Py.fullmatch_alpha (c :: w) && _); [discriminate|].
  destruct (Py.search_cjk (c :: w) && _); [discriminate|].
  intros H Hk. rewrite Hk in H. simpl in H.
  destruct (length w <=? 3)%nat eqn:E; [discriminate|].
  apply Nat.leb_gt in E. simpl. lia.
Qed.

Lemma phrase_of_merged (pos_list : list (str * str)) (stop_set : gset str)
    (p : (str * str) * (str * str)) (ps : str * Z) :
  In ps (Segment.phrase_of pos_list stop_set p) ->
  fst ps = merged_phrase p /\ (2 <= length (fst ps) <= 8)%nat.
Proof.
  intros Hin. pose proof (phrase_of_good pos_list stop_set p) as Hg.
  rewrite List.Forall_forall in Hg. split; [|now apply Hg].
  destruct p as [[w1 f1] [w2 f2]]. unfold Segment.phrase_of in Hin.
  unfold merged_phrase. simpl.
  destruct (bool_decide _ || bool_decide _); [destruct Hin|].
  destruct (Segment.KINSHIP_RE_search w1 || _); [destruct Hin|].
  destruct (negb _); [destruct Hin|].
  destruct (Segment.is_bad_token _ stop_set); [destruct Hin|].
  destruct ((_ <? 2)%nat || _); [destruct Hin|].
  destruct Hin as [<-|[]]. reflexivity.
Qed.

End TokenizeTheorems.

(** X2: [tokenize] returns no token twice and at most 40 tokens, for
    every title, stopword set, runtime and segmenter. *)
Theorem tokenize_distinct_capped
    (R : Py.Runtime) (pseg : option (str -> list (str * str)))
    (lcut : str -> list str) (title : str) (stop_set : gset str) :
  List.NoDup (Segment.tokenize pseg lcut title stop_set)
  /\ (length (Segment.tokenize pseg lcut title stop_set) <= 40)%nat.
Proof. apply tokenize_NoDup. Qed.

(** X3: every token [tokenize] returns is one of the tagged tokens that
    passed the filters, or the normalised concatenation of two
    neighbouring ones, of 2 to 8 characters. *)
Theorem tokenize_provenance
    (R : Py.Runtime) (pseg : option (str -> list (str * str)))
    (lcut : str -> list str) (title : str) (stop_set : gset str) :
  Forall (fun t =>
            In t (map fst (Segment.tagged_tokens pseg lcut
                             (Segment.clean_title title) stop_set))
            \/ (In t (map merged_phrase
                        (Segment.adjacent
                           (Segment.tagged_tokens pseg lcut
                              (Segment.clean_title title) stop_set)))
                /\ (2 <= length t <= 8)%nat))
         (Segment.tokenize pseg lcut title stop_set).
Proof.
  rewrite tokenize_firstn. destruct (Segment.clean_title title) as [|c0 t0] eqn:Ec;
    [constructor|]. rewrite <- Ec.
  apply List.Forall_forall. intros t Hin. apply firstn_incl_of in Hin.
  apply all_tokens_spec in Hin as [Hin|Hin]; [right | now left].
  apply in_map_iff in Hin as [ps [<- Hps]].
  apply in_flat_map in Hps as [p [Hp Hps]].
  apply phrase_of_merged in Hps as [E L]. split; [|exact L].
  rewrite E. now apply in_map.
Qed.

(** X4: unless the cut at 40 applies, nothing is lost: when fewer than 40
    tokens come back from a title that is not empty once cleaned, every
    tagged token that passed the filters is among them. *)
Theorem tokenize_keeps_every_token
    (R : Py.Runtime) (pseg : option (str -> list (str * str)))
    (lcut : str -> list str) (title : str) (stop_set : gset str) :
  Segment.clean_title title <> [] ->
  (length (Segment.tokenize pseg lcut title stop_set) < 40)%nat ->
  incl (map fst (Segment.tagged_tokens pseg lcut
                   (Segment.clean_title title) stop_set))
       (Segment.tokenize pseg lcut title stop_set).
Proof.
  intros Hne Hlen. rewrite tokenize_firstn in *.
  destruct (Segment.clean_title title) as [|c0 t0] eqn:Ec; [contradiction|].
  rewrite <- Ec in *.
  assert (firstn 40 (all_tokens pseg lcut title stop_set)
          = all_tokens pseg lcut title stop_set) as ->.
  { apply firstn_all2. rewrite length_firstn in Hlen. lia. }
  intros t Hin. apply all_tokens_spec. now right.
Qed.

Lemma tokenize_keeps_every_token_witness :
  incl (map fst (Segment.tagged_tokens (R := Py.bare_runtime)
                   (Some (fun _ => [(u "中国", u "ns"); (u "足球", u "n");
                                    (u "的", u "uj"); (u "yyds", u "eng")]))
                   (fun _ => [])
                   (Segment.clean_title (R := Py.bare_runtime) (u "中国足球的yyds")) ∅))
       (Segment.tokenize (R := Py.bare_runtime)
          (Some (fun _ => [(u "中国", u "ns"); (u "足球", u "n");
                           (u "的", u "uj"); (u "yyds", u "eng")]))
          (fun _ => []) (u "中国足球的yyds") ∅).
Proof.
  assert (Segment.clean_title (R := Py.bare_runtime) (u "中国足球的yyds") <> [])
    as H1 by (vm_compute; discriminate).
  assert (length (Segment.tokenize (R := Py.bare_runtime)
          (Some (fun _ => [(u "中国", u "ns"); (u "足球", u "n");
                           (u "的", u "uj"); (u "yyds", u "eng")]))
          (fun _ => []) (u "中国足球的yyds") ∅) < 40)%nat
    as H2 by (vm_compute; lia).
  exact (tokenize_keeps_every_token Py.bare_runtime _ _ _ _ H1 H2).
Defined.

(** X5: [tokenize] returns no short kinship fragment: a token in which
    [KINSHIP_RE] finds a match has more than 4 characters. *)
Theorem tokenize_no_kinship_fragment
    (R : Py.Runtime) (pseg : option (str -> list (str * str)))
    (lcut : str -> list str) (title : str) (stop_set : gset str) :
  Forall (fun t => Segment.KINSHIP_RE_search t = true -> (4 < length t)%nat)
         (Segment.tokenize pseg lcut title stop_set).
Proof.
  eapply List.Forall_impl; [|apply tokenize_good].
  intros t Hb. now apply (is_bad_token_kinship t stop_set).
Qed.

(** ** More on [normalize_word] *)

Section NormalizeWordMore.
Context {R : Py.Runtime}.

Lemma normalize_map_values_clean :
  forallb (fun kv => negb (Py.eqb (upper_if_alpha (snd kv)) [])
                     && Py.eqb (Py.strip (upper_if_alpha (snd kv)))
                               (upper_if_alpha (snd kv)))
          Segment.NORMALIZE_MAP = true.
Proof. vm_compute. reflexivity. Qed.

Lemma ascii_upper_of_alpha (c : N) :
  Py.is_alpha c = true -> Py.is_upper (Py.ascii_upper c) = true.
Proof.
  intros H. unfold Py.ascii_upper. destruct (Py.is_lower c) eqn:E.
  - apply is_lower_iff in E. apply is_upper_iff. lia.
  - unfold Py.is_alpha in H. now rewrite E, orb_false_r in H.
Qed.

Lemma normalize_word_shape (w : str) :
  (Segment.normalize_word w = [] <-> Py.strip w = [])
  /\ Py.strip (Segment.normalize_word w) = Segment.normalize_word w
  /\ (Py.fullmatch_alpha (Segment.normalize_word w) = true ->
      forallb Py.is_upper (Segment.normalize_word w) = true).
Proof.
  rewrite normalize_word_unfold.
  destruct (Py.strip w) as [|c r] eqn:Es; [repeat split; auto; discriminate|].
  assert (Hs : Py.strip (c :: r) = c :: r) by (rewrite <- Es; apply strip_idem).
  set (x := match Py.dict_get (Py.lower (c :: r)) Segment.NORMALIZE_MAP with
            | Some v => v
            | None => c :: r
            end).
  assert (upper_if_alpha x <> [] /\ Py.strip (upper_if_alpha x) = upper_if_alpha x)
    as [Hne Hst].
  { unfold x. destruct (Py.dict_get _ Segment.NORMALIZE_MAP) as [v|] eqn:Eg.
    - apply dict_get_In in Eg. pose proof normalize_map_values_clean as H.
      rewrite forallb_forall in H. specialize (H _ Eg). simpl in H.
      apply andb_prop in H as [H1 H2]. apply eqb_eq in H2. split; [|exact H2].
      intros E. rewrite E in H1. now rewrite eqb_refl in H1.
    - unfold upper_if_alpha. destruct (Py.fullmatch_alpha (c :: r)) eqn:Ea.
      + split; [discriminate|]. apply strip_alpha, fullmatch_alpha_forall.
        now apply fullmatch_alpha_upper.
      + split; [discriminate | exact Hs]. }
  split; [split; [intros E; contradiction | discriminate]|].
  split; [exact Hst|].
  unfold upper_if_alpha. destruct (Py.fullmatch_alpha x) eqn:Ea.
  - intros _. apply fullmatch_alpha_forall in Ea. unfold Py.upper.
    rewrite forallb_forall in Ea. apply forallb_forall. intros y Hy.
    apply in_map_iff in Hy as [z [<- Hz]]. apply ascii_upper_of_alpha, Ea, Hz.
  - congruence.
Qed.

Lemma normalize_word_upper (w : str) :
  Py.fullmatch_alpha w = true ->
  Segment.normalize_word (Py.upper w) = Segment.normalize_word w.
Proof.
  intros Ha. pose proof (fullmatch_alpha_upper _ Ha) as Hu.
  rewrite (normalize_word_stripped (Py.upper w));
    [| apply strip_alpha, fullmatch_alpha_forall, Hu
     | destruct w; [discriminate | discriminate]].
  rewrite (normalize_word_stripped w);
    [| apply strip_alpha, fullmatch_alpha_forall, Ha | destruct w; discriminate].
  rewrite (lower_upper_alpha _ Ha).
  destruct (Py.dict_get (Py.lower w) Segment.NORMALIZE_MAP); [reflexivity|].
  unfold upper_if_alpha. rewrite Ha, Hu. apply upper_idem.
Qed.

End NormalizeWordMore.

(** X6: [normalize_word] returns the empty string exactly for blank
    input; its result has no whitespace at either end; and a result made
    of ASCII letters only is in upper case. *)
Theorem normalize_word_result_shape (R : Py.Runtime) (w : str) :
  (Segment.normalize_word w = [] <-> Py.strip w = [])
  /\ Py.strip (Segment.normalize_word w) = Segment.normalize_word w
  /\ (Py.fullmatch_alpha (Segment.normalize_word w) = true ->
      forallb Py.is_upper (Segment.normalize_word w) = true).
Proof. apply normalize_word_shape. Qed.

(** X7: [normalize_word] does not see the case of an ASCII word: a word
    of ASCII letters and its upper-case form have the same result. *)
Theorem normalize_word_ignores_case (R : Py.Runtime) (w : str) :
  Py.fullmatch_alpha w = true ->
  Segment.normalize_word (Py.upper w) = Segment.normalize_word w.
Proof. apply normalize_word_upper. Qed.

Lemma normalize_word_ignores_case_witness :
  Segment.normalize_word (R := Py.bare_runtime) (Py.upper (u "Yyds"))
  = Segment.normalize_word (R := Py.bare_runtime) (u "Yyds").
Proof.
  apply (normalize_word_ignores_case Py.bare_runtime (u "Yyds")).
  vm_compute. reflexivity.
Defined.

(** ** More on the deduplication *)

Lemma list_remove_perm (x : str * Z) (l : list (str * Z)) :
  In x l -> Permutation (x :: Py.list_remove x l) l.
Proof.
  induction l as [|y l IH]; simpl; [intros []|].
  case_bool_decide as E.
  - intros _. now subst.
  - intros [->|Hin]; [contradiction|].
    rewrite perm_swap. constructor. now apply IH.
Qed.

Lemma scan_result_perm (fuel : nat) (word : str) (count : Z)
    (result : list (str * Z)) (i : nat) (result' : list (str * Z)) (b : bool) :
  Reducer.scan_result fuel word count result i = Some (result', b) ->
  (exists removed, Permutation (result' ++ removed) result)
  /\ (b = false -> result' <> []).
Proof.
  revert result i. induction fuel as [|fuel IH]; intros result i; simpl.
  - intros [= <- <-]. split; [exists []; now rewrite app_nil_r | discriminate].
  - destruct (nth_error result i) as [[ew ec]|] eqn:En.
    2:{ intros [= <- <-]. split; [exists []; now rewrite app_nil_r | discriminate]. }
    assert (result <> []) as Hne by (intros ->; now destruct i).
    destruct (Py.contains word ew).
    { intros [= <- <-]. split; [exists []; now rewrite app_nil_r | auto]. }
    destruct (Py.contains ew word).
    + destruct (Py.gt_0_7 count ec) as [[|]|]; [| |discriminate].
      * intros H. apply IH in H as [[removed Hp] Hb]. split; [|exact Hb].
        exists (removed ++ [(ew, ec)]).
        eapply Permutation_trans;
          [|apply (list_remove_perm (ew, ec)); now apply nth_error_In in En].
        rewrite List.app_assoc.
        eapply Permutation_trans; [apply Permutation_app_comm|].
        simpl. constructor. exact Hp.
      * intros [= <- <-]. split; [exists []; now rewrite app_nil_r | auto].
    + apply IH.
Qed.

Lemma dedup_loop_perm (sorted_words result out : list (str * Z)) :
  Reducer.dedup_loop sorted_words result = Some out ->
  (exists dropped, Permutation (out ++ dropped) (result ++ sorted_words))
  /\ (result ++ sorted_words <> [] -> out <> []).
Proof.
  revert result. induction sorted_words as [|[word count] rest IH]; intros result; simpl.
  - intros [= <-]. rewrite app_nil_r. split; [exists []; now rewrite app_nil_r | auto].
  - destruct (Reducer.scan_result (length result) word count result 0)
      as [[result' should_add]|] eqn:Es; [|discriminate].
    apply scan_result_perm in Es as [[removed Hp] Hb].
    intros H. apply IH in H as [[dropped Hd] Hn]. split.
    + destruct should_add.
      * exists (dropped ++ removed).
        eapply Permutation_trans;
          [rewrite List.app_assoc; apply Permutation_app_tail, Hd|].
        eapply Permutation_trans; [|apply Permutation_app_tail, Hp].
        rewrite <- !List.app_assoc. apply Permutation_app_head. simpl.
        apply (Permutation_app_comm ((word, count) :: rest) removed).
      * exists (dropped ++ (word, count) :: removed).
        eapply Permutation_trans;
          [rewrite List.app_assoc; apply Permutation_app_tail, Hd|].
        eapply Permutation_trans; [|apply Permutation_app_tail, Hp].
        rewrite <- !List.app_assoc. apply Permutation_app_head.
        eapply Permutation_trans; [apply Permutation_app_comm|]. simpl.
        apply Permutation_middle.
    + intros _. apply Hn. destruct should_add.
      * now destruct result'.
      * specialize (Hb eq_refl). now destruct result'.
Qed.

Lemma dedup_drops (l : list (str * Z)) :
  match Reducer.deduplicate_by_inclusion l with
  | Some out =>
    (exists dropped, Permutation (out ++ dropped) l)
    /\ (length out <= length l)%nat
    /\ (l = [] \/ out <> [])
  | None => True
  end.
Proof.
  unfold Reducer.deduplicate_by_inclusion. destruct l as [|p l].
  { split; [now exists [] | split; [simpl; lia | now left]]. }
  destruct (Reducer.dedup_loop (Py.sorted_by_count_desc (p :: l)) []) as [out|] eqn:E;
    [|exact I].
  apply dedup_loop_perm in E as [[dropped Hd] Hn].
  change ([] ++ Py.sorted_by_count_desc (p :: l))
    with (Py.sorted_by_count_desc (p :: l)) in Hd, Hn.
  assert (Permutation (Py.sorted_by_count_desc (p :: l)) (p :: l)) as Hs
    by apply sorted_perm.
  assert (Permutation (Py.sorted_by_count_desc out) out) as Ho by apply sorted_perm.
  assert (Permutation (Py.sorted_by_count_desc out ++ dropped) (p :: l)) as Hp.
  { eapply Permutation_trans; [apply Permutation_app_tail, Ho|].
    eapply Permutation_trans; [exact Hd | exact Hs]. }
  split; [now exists dropped|]. split.
  - apply Permutation_length in Hp. rewrite length_app in Hp. lia.
  - right. intros E.
    assert (out = []) as Eo.
    { rewrite E in Ho. now apply Permutation_nil in Ho. }
    apply Hn; [|exact Eo]. intros E'. rewrite E' in Hs.
    apply Permutation_nil in Hs. discriminate.
Qed.

(** X8: [deduplicate_by_inclusion] only drops: its output together with
    the entries it dropped is a rearrangement of its input, so no pair
    comes out more often than it went in and the output is no longer
    than the input; and for an input that is not empty the output is not
    empty either. *)
Theorem dedup_only_drops (l : list (str * Z)) :
  match Reducer.deduplicate_by_inclusion l with
  | Some out =>
    (exists dropped, Permutation (out ++ dropped) l)
    /\ (length out <= length l)%nat
    /\ (l = [] \/ out <> [])
  | None => True
  end.
Proof. apply dedup_drops. Qed.

Lemma indep_sym (a b : str * Z) : indep a b = indep b a.
Proof. unfold indep. apply andb_comm. Qed.

Lemma insert_sorted_independent (lt : str * Z -> str * Z -> bool)
    (x : str * Z) (l : list (str * Z)) :
  forallb (indep x) l = true -> independentb l = true ->
  independentb (Py.insert_sorted lt x l) = true.
Proof.
  induction l as [|y l IH]; simpl; [reflexivity|].
  intros Hx Hl. apply andb_prop in Hx as [Hxy Hx]. apply andb_prop in Hl as [Hy Hl].
  destruct (lt y x); simpl.
  - rewrite (IH Hx Hl), andb_true_r. apply forallb_forall. intros z Hz.
    apply (Permutation_in _ (insert_sorted_perm lt x l)) in Hz.
    destruct Hz as [<-|Hz]; [now rewrite indep_sym|].
    rewrite forallb_forall in Hy. now apply Hy.
  - now rewrite Hxy, Hx, Hy, Hl.
Qed.

Lemma sorted_independent (lt : str * Z -> str * Z -> bool) (l : list (str * Z)) :
  independentb l = true -> independentb (Py.sorted lt l) = true.
Proof.
  induction l as [|x l IH]; simpl; [reflexivity|]. intros H.
  apply andb_prop in H as [Hx Hl]. apply insert_sorted_independent; [|now apply IH].
  apply forallb_forall. intros z Hz. apply sorted_In in Hz.
  rewrite forallb_forall in Hx. now apply Hx.
Qed.

Lemma scan_result_independent (fuel : nat) (word : str) (count : Z)
    (result : list (str * Z)) (i : nat) :
  forallb (indep (word, count)) result = true ->
  Reducer.scan_result fuel word count result i = Some (result, true).
Proof.
  intros H. revert i. induction fuel as [|fuel IH]; intros i; simpl; [reflexivity|].
  destruct (nth_error result i) as [[ew ec]|] eqn:En; [|reflexivity].
  apply nth_error_In in En. rewrite forallb_forall in H.
  specialize (H _ En). unfold indep in H. simpl in H.
  apply andb_prop in H as [H1 H2]. apply negb_true_iff in H1, H2.
  rewrite H1, H2. apply IH.
Qed.

Lemma dedup_loop_independent (sorted_words result : list (str * Z)) :
  independentb sorted_words = true ->
  (forall w, In w sorted_words -> forallb (indep w) result = true) ->
  Reducer.dedup_loop sorted_words result = Some (result ++ sorted_words).
Proof.
  revert result. induction sorted_words as [|[word count] rest IH];
    intros result Hi Hr; simpl.
  - now rewrite app_nil_r.
  - rewrite scan_result_independent by (apply Hr; now left).
    simpl in Hi. apply andb_prop in Hi as [Hw Hi].
    rewrite IH; [now rewrite <- app_assoc | exact Hi |].
    intros w Hin. rewrite forallb_app, (Hr w (or_intror Hin)). simpl.
    rewrite forallb_forall in Hw. rewrite indep_sym, (Hw _ Hin). reflexivity.
Qed.

Lemma sorted_of_sorted {A : Type} (lt : A -> A -> bool) (le : A -> A -> Prop)
    (l : list A) :
  (forall x y, le x y -> lt y x = false) ->
  StronglySorted le l -> Py.sorted lt l = l.
Proof.
  intros Hle. induction 1 as [|x l Hs IH Hx]; [reflexivity|].
  simpl. rewrite IH. destruct l as [|y l]; [reflexivity|]. simpl.
  inversion Hx as [|? ? Hxy _]; subst. now rewrite (Hle _ _ Hxy).
Qed.

Lemma sorted_by_count_desc_idem {K : Type} (l : list (K * Z)) :
  Py.sorted_by_count_desc (Py.sorted_by_count_desc l) = Py.sorted_by_count_desc l.
Proof.
  apply (sorted_of_sorted _ count_ge); [|apply sorted_by_count_desc_sorted].
  unfold count_ge. intros x y H. apply Z.ltb_ge. lia.
Qed.

(** X9: when no word of the input contains another one,
    [deduplicate_by_inclusion] drops nothing and never raises: it
    returns its input sorted by descending count, ties in input order. *)
Theorem dedup_independent_words (l : list (str * Z)) :
  independentb l = true ->
  Reducer.deduplicate_by_inclusion l = Some (Py.sorted_by_count_desc l)
  /\ Segment.deduplicate_by_inclusion l = Some (Py.sorted_by_count_desc l).
Proof.
  intros H. rewrite segment_dedup_is_reducer_dedup.
  assert (Reducer.deduplicate_by_inclusion l = Some (Py.sorted_by_count_desc l));
    [|now split].
  unfold Reducer.deduplicate_by_inclusion. destruct l as [|p l]; [reflexivity|].
  rewrite dedup_loop_independent.
  - change ([] ++ Py.sorted_by_count_desc (p :: l))
      with (Py.sorted_by_count_desc (p :: l)).
    now rewrite sorted_by_count_desc_idem.
  - now apply sorted_independent.
  - reflexivity.
Qed.

Lemma dedup_independent_words_witness :
  Reducer.deduplicate_by_inclusion
    [(u "地震", 3%Z); (u "高考", 9%Z); (u "世界杯", 9%Z)]
  = Some (Py.sorted_by_count_desc
            [(u "地震", 3%Z); (u "高考", 9%Z); (u "世界杯", 9%Z)]).
Proof.
  apply (dedup_independent_words
           [(u "地震", 3%Z); (u "高考", 9%Z); (u "世界杯", 9%Z)]).
  vm_compute. reflexivity.
Defined.

(** ** More on the semantic merge *)

Lemma dict_get_absent {V : Type} (k : str) (d : list (str * V)) :
  ~ In k (map fst d) -> Py.dict_get k d = None.
Proof.
  induction d as [|[k0 v0] d IH]; simpl; [reflexivity|]. intros H.
  destruct (Py.eqb k0 k) eqn:E; [apply eqb_eq in E; tauto | apply IH; tauto].
Qed.

Lemma dict_set_fresh {V : Type} (k : str) (v : V) (d : list (str * V)) :
  ~ In k (map fst d) -> Py.dict_set k v d = d ++ [(k, v)].
Proof.
  induction d as [|[k0 v0] d IH]; simpl; [reflexivity|]. intros H.
  destruct (Py.eqb k0 k) eqn:E; [apply eqb_eq in E; tauto|].
  rewrite IH by tauto. reflexivity.
Qed.

Lemma fold_merge_canonical (m d : list (str * Z)) :
  List.NoDup (map fst m) ->
  Forall (fun kc => Segment.normalize_semantic (fst kc) = fst kc) m ->
  (forall k, In k (map fst m) -> ~ In k (map fst d)) ->
  fold_left Segment.merge_step m d = d ++ m.
Proof.
  revert d. induction m as [|[k c] m IH]; intros d Hn Hc Hd; simpl.
  - now rewrite app_nil_r.
  - inversion Hn as [|? ? Hk Hn']; subst. inversion Hc as [|? ? Hck Hc']; subst.
    simpl in Hck. rewrite merge_step_set. simpl fst. simpl snd. rewrite Hck.
    assert (~ In k (map fst d)) as Hkd by (apply Hd; now left).
    unfold count_of. rewrite (dict_get_absent _ _ Hkd), Z.add_0_l.
    rewrite (dict_set_fresh _ _ _ Hkd), IH; [now rewrite <- List.app_assoc | exact Hn' | exact Hc' |].
    intros k' Hin. rewrite map_app, in_app_iff. simpl.
    intros [H|[<-|[]]]; [|contradiction].
    apply (Hd k'); [now right | exact H].
Qed.

(** X10: [merge_semantic_duplicates] is idempotent: merging a merged
    list gives the same list. *)
Theorem merge_semantic_duplicates_idempotent (l : list (str * Z)) :
  Segment.merge_semantic_duplicates (Segment.merge_semantic_duplicates l)
  = Segment.merge_semantic_duplicates l.
Proof.
  destruct (merge_semantic_duplicates_spec l) as [Hn [Hs [Hk _]]].
  set (m := Segment.merge_semantic_duplicates l) in *.
  unfold Segment.merge_semantic_duplicates at 1.
  destruct m as [|p m'] eqn:Em; [reflexivity|]. rewrite <- Em in *.
  rewrite fold_merge_canonical; [| exact Hn | | intros k _ []].
  - simpl app. apply (sorted_of_sorted _ count_ge); [|exact Hs].
    unfold count_ge. intros x y H. apply Z.ltb_ge. lia.
  - eapply List.Forall_impl; [|exact Hk]. intros kc [_ Hin].
    apply in_map_iff in Hin as [wc [<- _]]. apply segment_semantic_idem.
Qed.

Lemma sum_counts_perm {K : Type} (l l' : list (K * Z)) :
  Permutation l l' -> sum_counts l = sum_counts l'.
Proof.
  unfold sum_counts. induction 1; simpl; lia.
Qed.

Lemma sum_counts_cons {K : Type} (x : K * Z) (l : list (K * Z)) :
  sum_counts (x :: l) = (snd x + sum_counts l)%Z.
Proof. reflexivity. Qed.

Lemma sum_counts_app {K : Type} (l l' : list (K * Z)) :
  sum_counts (l ++ l') = (sum_counts l + sum_counts l')%Z.
Proof. unfold sum_counts. induction l; simpl; lia. Qed.

Lemma dict_set_sum (k : str) (v : Z) (d : list (str * Z)) :
  sum_counts (Py.dict_set k v d) = (sum_counts d - count_of k d + v)%Z.
Proof.
  unfold count_of. induction d as [|[k0 v0] d IH]; simpl.
  - unfold sum_counts. simpl. lia.
  - destruct (Py.eqb k0 k) eqn:E.
    + unfold sum_counts. simpl. lia.
    + unfold sum_counts in *. simpl. lia.
Qed.

Lemma fold_merge_sum (l d : list (str * Z)) :
  sum_counts (fold_left Segment.merge_step l d) = (sum_counts d + sum_counts l)%Z.
Proof.
  revert d. induction l as [|wc l IH]; intros d; simpl.
  - unfold sum_counts at 3. simpl. lia.
  - rewrite IH, merge_step_set, dict_set_sum, sum_counts_cons. lia.
Qed.

(** X11: [merge_semantic_duplicates] keeps the total: the counts of its
    output add up to the counts of its input. *)
Theorem merge_semantic_duplicates_total (l : list (str * Z)) :
  sum_counts (Segment.merge_semantic_duplicates l) = sum_counts l.
Proof.
  unfold Segment.merge_semantic_duplicates. destruct l as [|p l]; [reflexivity|].
  unfold Py.sorted_by_count_desc.
  rewrite (sum_counts_perm _ _ (sorted_perm _ _)), fold_merge_sum.
  unfold sum_counts at 1. simpl. lia.
Qed.

(** ** The semantic tables *)

Lemma forallb_Forall {A : Type} (f : A -> bool) (l : list A) :
  forallb f l = true -> Forall (fun x => f x = true) l.
Proof.
  intros H. apply List.Forall_forall. now apply forallb_forall.
Qed.

(** X12: in [mapper.py] and in [segment.py], no word sits in two groups
    of [SEMANTIC_GROUPS] in a way that would send it elsewhere: for every
    group of the table, [normalize_semantic] sends the group's label and
    each of its listed variants to that label. *)
Theorem semantic_groups_send_members_to_label :
  Forall (fun g => Forall (fun w => Mapper.normalize_semantic w = fst g)
                          (fst g :: snd g))
         Mapper.SEMANTIC_GROUPS
  /\ Forall (fun g => Forall (fun w => Segment.normalize_semantic w = fst g)
                             (fst g :: snd g))
            Segment.SEMANTIC_GROUPS.
Proof.
  split.
  - assert (forallb (fun g => forallb (fun w => Py.eqb (Mapper.normalize_semantic w) (fst g))
                                      (fst g :: snd g))
                    Mapper.SEMANTIC_GROUPS = true) as H by (vm_compute; reflexivity).
    apply forallb_Forall in H. eapply List.Forall_impl; [|exact H].
    intros g Hg. apply forallb_Forall in Hg.
    eapply List.Forall_impl; [|exact Hg]. intros w. apply eqb_eq.
  - assert (forallb (fun g => forallb (fun w => Py.eqb (Segment.normalize_semantic w) (fst g))
                                      (fst g :: snd g))
                    Segment.SEMANTIC_GROUPS = true) as H by (vm_compute; reflexivity).
    apply forallb_Forall in H. eapply List.Forall_impl; [|exact H].
    intros g Hg. apply forallb_Forall in Hg.
    eapply List.Forall_impl; [|exact Hg]. intros w. apply eqb_eq.
Qed.

(** ** More on the frequency mapper *)

Lemma no_space_rev (s : str) : no_space s = true -> no_space (rev s) = true.
Proof.
  unfold no_space. intros H. apply forallb_forall. intros x Hx.
  apply in_rev in Hx. rewrite forallb_forall in H. now apply H.
Qed.

Lemma split_run_tokens (cur s : str) :
  no_space cur = true ->
  Forall (fun t => t <> [] /\ no_space t = true) (Py.split_run cur s).
Proof.
  revert cur. induction s as [|c r IH]; intros cur Hc; simpl.
  - destruct cur as [|a cur]; [constructor|]. constructor; [|constructor].
    split.
    + intros E. apply (f_equal (@length N)) in E. rewrite length_rev in E.
      discriminate.
    + now apply no_space_rev.
  - destruct (Py.isspace c) eqn:Ec.
    + destruct cur as [|a cur]; [now apply IH|]. constructor; [|now apply IH].
      split.
      * intros E. apply (f_equal (@length N)) in E. rewrite length_rev in E.
        discriminate.
      * now apply no_space_rev.
    + apply IH. unfold no_space in *. simpl. now rewrite Ec, Hc.
Qed.

Lemma split_tokens (s : str) :
  Forall (fun t => t <> [] /\ no_space t = true) (Py.split s).
Proof. now apply split_run_tokens. Qed.

Lemma mapper_labels_no_space :
  forallb (fun g => no_space (fst g)) Mapper.SEMANTIC_GROUPS = true.
Proof. vm_compute. reflexivity. Qed.

Lemma mapper_semantic_no_space (w : str) :
  no_space w = true -> no_space (Mapper.normalize_semantic w) = true.
Proof.
  intros H. destruct (mapper_semantic_cases w) as [E|Hin]; [now rewrite E|].
  apply in_map_iff in Hin as [g [<- Hg]].
  pose proof mapper_labels_no_space as Hl. rewrite forallb_forall in Hl.
  now apply Hl.
Qed.

Lemma weight_of_rank_pos (rank : Z) : (1 <= Mapper.weight_of_rank rank)%Z.
Proof. rewrite weight_of_rank_max. lia. Qed.

Section MapperMore.
Context {R : Py.Runtime}.

Lemma emit_records (weight : Z) (tokens : list str) (seen : gset str) :
  Forall (fun t => no_space t = true) tokens ->
  Forall (fun kw => no_space (fst kw) = true /\ snd kw = weight)
         (snd (Mapper.emit weight tokens seen)).
Proof.
  revert seen. induction tokens as [|token rest IH]; intros seen Ht; simpl;
    [constructor|].
  inversion Ht as [|? ? Ht1 Ht2]; subst.
  pose proof (mapper_semantic_no_space _ Ht1) as Hk.
  unfold Mapper.normalize_word_mapper.
  destruct (Mapper.normalize_semantic token) as [|c n] eqn:En; [now apply IH|].
  destruct (length (c :: n) <? 2)%nat; [now apply IH|].
  case_bool_decide; [now apply IH|].
  specialize (IH ({[c :: n]} ∪ seen) Ht2).
  destruct (Mapper.emit weight rest ({[c :: n]} ∪ seen)) as [seen' out].
  simpl in *. constructor; [now split | exact IH].
Qed.

Lemma step_records (seen : gset str) (line : str) :
  Forall (fun kw => no_space (fst kw) = true /\ (1 <= snd kw)%Z)
         (snd (Mapper.step seen line)).
Proof.
  unfold Mapper.step. destruct (Py.strip line) as [|c l]; [constructor|].
  destruct (negb (Py.has_char 44 (c :: l))); [constructor|].
  unfold Mapper.parse.
  destruct (Py.int (Mapper.rank_str (Py.split1 44 (c :: l)))) as [rank|];
    [|constructor].
  destruct (Mapper.tokens_str (Py.split1 44 (c :: l))) as [|c' l'] eqn:Et;
    [constructor|].
  eapply List.Forall_impl;
    [|apply emit_records; eapply List.Forall_impl; [|apply split_tokens]].
  - simpl. intros kw [H1 ->]. split; [exact H1 | apply weight_of_rank_pos].
  - simpl. tauto.
Qed.

Lemma run_records (stdin : list str) (seen : gset str) :
  Forall (fun kw => no_space (fst kw) = true /\ (1 <= snd kw)%Z)
         (concat (Mapper.run stdin seen)).
Proof.
  revert seen. induction stdin as [|line rest IH]; intros seen; simpl;
    [constructor|].
  pose proof (step_records seen line) as Hs.
  destruct (Mapper.step seen line) as [seen' out]. simpl in *.
  apply List.Forall_app. split; [exact Hs | apply IH].
Qed.

(** A line that the loop passes over. *)
Lemma step_skipped (seen : gset str) (bad : str) :
  Py.has_char 44 (Py.strip bad) = false
  \/ Py.int (Mapper.rank_str (Py.split1 44 (Py.strip bad))) = None
  \/ Mapper.tokens_str (Py.split1 44 (Py.strip bad)) = [] ->
  Mapper.step seen bad = (seen, []).
Proof.
  unfold Mapper.step. destruct (Py.strip bad) as [|c l]; [reflexivity|].
  intros [H|[H|H]].
  - now rewrite H.
  - destruct (negb _); [reflexivity|]. unfold Mapper.parse. now rewrite H.
  - destruct (negb _); [reflexivity|]. unfold Mapper.parse. rewrite H.
    now destruct (Py.int _).
Qed.

Lemma run_skipped (before after : list str) (bad : str) (seen : gset str) :
  (forall s, Mapper.step s bad = (s, [])) ->
  concat (Mapper.run (before ++ bad :: after) seen)
  = concat (Mapper.run (before ++ after) seen).
Proof.
  intros Hb. revert seen. induction before as [|line rest IH]; intros seen; simpl.
  - now rewrite Hb.
  - destruct (Mapper.step seen line) as [seen' out]. simpl. now rewrite IH.
Qed.

End MapperMore.

(** X13: every record the frequency mapper writes has a key of at least
    two characters, free of whitespace and left alone by
    [normalize_semantic], and a weight of at least 1. *)
Theorem mapper_records_well_formed (R : Py.Runtime) (stdin : list str) :
  Forall (fun kw => (2 <= length (fst kw))%nat
                    /\ no_space (fst kw) = true
                    /\ Mapper.normalize_semantic (fst kw) = fst kw
                    /\ (1 <= snd kw)%Z)
         (Mapper.main stdin).
Proof.
  destruct (run_keys stdin ∅) as [F _]. pose proof (run_records stdin ∅) as G.
  unfold Mapper.main. rewrite List.Forall_forall in *. intros kw Hin.
  destruct (F kw Hin) as [H1 H2]. destruct (G kw Hin) as [H3 H4]. auto.
Qed.

(** X14: the frequency mapper passes over a line that has no comma once
    stripped, whose rank field [int] refuses, or whose token field is
    empty: taking such a line out of the input changes nothing in what
    is written. *)
Theorem mapper_skips_malformed_line
    (R : Py.Runtime) (before after : list str) (bad : str) :
  Py.has_char 44 (Py.strip bad) = false
  \/ Py.int (Mapper.rank_str (Py.split1 44 (Py.strip bad))) = None
  \/ Mapper.tokens_str (Py.split1 44 (Py.strip bad)) = [] ->
  Mapper.main (before ++ bad :: after) = Mapper.main (before ++ after).
Proof.
  intros H. apply run_skipped. intros s. now apply step_skipped.
Qed.

Lemma mapper_skips_malformed_line_witness :
  Mapper.main (R := Py.bare_runtime)
    ([u "1,苹果 手机"] ++ u "x,发布 苹果" :: [u "2,地震"])
  = Mapper.main (R := Py.bare_runtime) ([u "1,苹果 手机"] ++ [u "2,地震"]).
Proof.
  apply (mapper_skips_malformed_line Py.bare_runtime
           [u "1,苹果 手机"] [u "2,地震"] (u "x,发布 苹果")).
  right. left. vm_compute. reflexivity.
Defined.

(** X15: the weight has a floor and no ceiling: [int] takes a signed
    rank, and for a line whose rank field parses to [rank < 1] every
    record written carries the weight [51 - rank], which is above 50. *)
Theorem mapper_weight_of_low_rank
    (R : Py.Runtime) (seen : gset str) (line : str) (rank : Z) :
  Py.int (Mapper.rank_str (Py.split1 44 (Py.strip line))) = Some rank ->
  (rank < 1)%Z ->
  Forall (fun kw => snd kw = (51 - rank)%Z /\ (50 < snd kw)%Z)
         (snd (Mapper.step seen line)).
Proof.
  intros Hr Hlow. eapply List.Forall_impl; [|apply (step_weight seen line rank Hr)].
  simpl. intros kw ->. rewrite weight_of_rank_max. lia.
Qed.

Lemma mapper_weight_of_low_rank_witness :
  Forall (fun kw => snd kw = (51 - (-5))%Z /\ (50 < snd kw)%Z)
         (snd (Mapper.step (R := Py.bare_runtime) ∅ (u "-5,苹果 手机"))).
Proof.
  apply (mapper_weight_of_low_rank Py.bare_runtime ∅ (u "-5,苹果 手机") (-5));
    [vm_compute; reflexivity | lia].
Defined.

(** ** More on the reducers *)

Lemma sum_counts_join (r : str * Z) (rs : list (str * Z)) :
  sum_counts (join r rs) = (snd r + sum_counts rs)%Z.
Proof.
  destruct rs as [|[k' s] t]; simpl; [reflexivity|].
  destruct (Py.eqb (fst r) k'); rewrite !sum_counts_cons; simpl; lia.
Qed.

Lemma sum_counts_runs (recs : list (str * Z)) :
  sum_counts (runs recs) = sum_counts recs.
Proof.
  induction recs as [|r rest IH]; [reflexivity|].
  change (runs (r :: rest)) with (join r (runs rest)).
  now rewrite sum_counts_join, sum_counts_cons, IH.
Qed.

Lemma runs_neighbours (recs : list (str * Z)) :
  Forall (fun p => fst p <> snd p) (Segment.adjacent (map fst (runs recs))).
Proof.
  induction recs as [|r rest IH]; [constructor|].
  change (runs (r :: rest)) with (join r (runs rest)).
  destruct (runs rest) as [|[k' s] t]; [constructor|].
  unfold join. destruct (Py.eqb (fst r) k') eqn:E.
  - apply eqb_eq in E. subst k'. exact IH.
  - change (map fst (r :: (k', s) :: t)) with (fst r :: k' :: map fst t).
    change (map fst ((k', s) :: t)) with (k' :: map fst t) in IH.
    simpl. constructor; [|exact IH]. simpl. intros E'. subst k'.
    now rewrite eqb_refl in E.
Qed.

Lemma runs_nil (recs : list (str * Z)) : runs recs = [] <-> recs = [].
Proof.
  split; [|now intros ->]. destruct recs as [|r rest]; [reflexivity|].
  change (runs (r :: rest)) with (join r (runs rest)).
  destruct (join_head r (runs rest)) as [c [t E]]. rewrite E. discriminate.
Qed.

(** X16: grouped or not, the list the reducers aggregate keeps the
    total of the well-formed values, and no two neighbouring entries of
    it have the same key: a key comes once per run of consecutive lines. *)
Theorem reducer_aggregate_runs (R : Py.Runtime) (stdin : list str) :
  sum_counts (Reducer.aggregate stdin) = sum_counts (records stdin)
  /\ Forall (fun p => fst p <> snd p)
            (Segment.adjacent (map fst (Reducer.aggregate stdin)))
  /\ CooccurrenceReducer.main stdin = Reducer.aggregate stdin.
Proof.
  rewrite cooccurrence_main_is_aggregate, aggregate_runs.
  split; [apply sum_counts_runs|]. split; [apply runs_neighbours | reflexivity].
Qed.

(** X17: the frequency reducer has no record to write exactly when no
    line of its input is well-formed.  When [deduplicate_by_inclusion]
    returns, the output is empty either for that reason, or because the
    [%d] of the very first write raises on a count over the limit on
    integer digits: otherwise a first line is written. *)
Theorem reducer_writes_nothing_iff (R : Py.Runtime) (stdin : list str) :
  (Reducer.main stdin = Some [] <-> records stdin = [])
  /\ (forall out,
        Reducer.main stdin = Some out ->
        (Stdout.written out = [] <->
         records stdin = []
         \/ exists r rest, out = r :: rest /\ Stdout.format_d (snd r) = None)).
Proof.
  assert (Reducer.main stdin = Some [] <-> records stdin = []) as Hiff.
  { unfold Reducer.main. rewrite aggregate_runs. split.
    - destruct (runs (records stdin)) as [|p l] eqn:E;
        [intros _; now apply (proj1 (runs_nil _))|].
      intros H. pose proof (dedup_drops (p :: l)) as Hd. rewrite H in Hd.
      destruct Hd as [_ [_ [Hd|Hd]]]; [discriminate | contradiction].
    - intros ->. reflexivity. }
  split; [exact Hiff|]. intros out Hout. destruct out as [|r rest].
  - split; [intros _; left; now apply Hiff | reflexivity].
  - cbn [Stdout.written]. unfold Stdout.record.
    destruct (Stdout.format_d (snd r)) as [d|] eqn:Ed.
    + split; [discriminate|]. intros [Hr|[r' [rest' [[= <- <-] Hf]]]].
      * apply Hiff in Hr. rewrite Hr in Hout. discriminate.
      * rewrite Hf in Ed. discriminate.
    + split; [|reflexivity]. intros _. right. now exists r, rest.
Qed.

(** ** More on the co-occurrence mapper *)

Lemma combinations2_length {A : Type} (l : list A) :
  (2 * length (CooccurrenceMapper.combinations2 l)
   = length l * (length l - 1))%nat.
Proof.
  induction l as [|x l IH]; [reflexivity|].
  simpl CooccurrenceMapper.combinations2.
  rewrite length_app, length_map. simpl length.
  destruct (length l) as [|n] eqn:E; [simpl in *; lia|].
  simpl in IH. rewrite Nat.sub_0_r in IH. nia.
Qed.

Lemma valid_tokens_length (line : str) :
  Forall (fun t => (2 <= length t)%nat /\ no_space t = true)
         (CooccurrenceMapper.valid_tokens line).
Proof.
  unfold CooccurrenceMapper.valid_tokens.
  destruct (Py.strip line) as [|c l]; [constructor|].
  destruct (negb (Py.has_char 44 (c :: l))); [constructor|].
  destruct (if (1 <? length (Py.split1 44 (c :: l)))%nat
            then Py.strip (nth 1 (Py.split1 44 (c :: l)) []) else []) as [|c' l'];
    [constructor|].
  apply List.Forall_forall. intros t Ht. apply filter_In in Ht as [Hin Ht].
  apply Nat.leb_le in Ht. split; [exact Ht|].
  pose proof (split_tokens (c' :: l')) as Hs. rewrite List.Forall_forall in Hs.
  now apply Hs.
Qed.

(** X18: for every line, with [n] tokens of length at least 2, the
    co-occurrence mapper prints [n (n - 1) / 2] pairs; in each pair the
    first word is not greater than the second, and both are tokens of
    the line, of at least two characters and free of whitespace. *)
Theorem cooccurrence_pairs_count_and_order (line : str) :
  (2 * length (CooccurrenceMapper.pairs_of_line line)
   = length (CooccurrenceMapper.valid_tokens line)
     * (length (CooccurrenceMapper.valid_tokens line) - 1))%nat
  /\ Forall (fun p => str_le (fst p) (snd p)
                      /\ In (fst p) (CooccurrenceMapper.valid_tokens line)
                      /\ In (snd p) (CooccurrenceMapper.valid_tokens line)
                      /\ (2 <= length (fst p))%nat /\ (2 <= length (snd p))%nat
                      /\ no_space (fst p) = true /\ no_space (snd p) = true)
            (CooccurrenceMapper.pairs_of_line line).
Proof.
  unfold CooccurrenceMapper.pairs_of_line.
  set (v := CooccurrenceMapper.valid_tokens line).
  assert (Hp : Permutation (Py.sorted Py.ltb v) v) by apply sorted_perm.
  split.
  - rewrite combinations2_length, (Permutation_length Hp). reflexivity.
  - pose proof (combinations2_sorted str_le _ (sorted_ltb_sorted v)) as Hs.
    pose proof (valid_tokens_length line) as Hv. fold v in Hv.
    rewrite List.Forall_forall in *. intros [a b] Hin.
    pose proof (combinations2_In _ _ _ Hin) as [Ha Hb].
    apply (Permutation_in _ Hp) in Ha, Hb.
    destruct (Hv a Ha) as [La Na]. destruct (Hv b Hb) as [Lb Nb].
    specialize (Hs _ Hin). simpl in *. auto 10.
Qed.

(** ** [clean_title] *)

Lemma lstrip_suffix (s : str) : exists z, s = z ++ Py.lstrip s.
Proof.
  induction s as [|c r [z IH]]; simpl; [now exists []|].
  destruct (Py.isspace c); [|now exists []].
  exists (c :: z). simpl. now rewrite <- IH.
Qed.

Lemma rstrip_prefix (s : str) : exists z, s = Py.rstrip s ++ z.
Proof.
  unfold Py.rstrip. destruct (lstrip_suffix (rev s)) as [z Hz].
  exists (rev z). rewrite <- rev_app_distr, <- Hz. now rewrite rev_involutive.
Qed.

Lemma strip_infix (s : str) : exists a z, s = a ++ Py.strip s ++ z.
Proof.
  unfold Py.strip. destruct (lstrip_suffix s) as [a Ha].
  destruct (rstrip_prefix (Py.lstrip s)) as [z Hz].
  exists a, z. now rewrite <- Hz.
Qed.

Lemma single_spaced_cons (c d : N) (t : str) :
  single_spaced (c :: d :: t)
  = negb (Py.isspace c && Py.isspace d) && single_spaced (d :: t).
Proof. reflexivity. Qed.

Lemma isspace_range (c : N) :
  Py.isspace c = true -> (c <= 32 \/ 133 <= c <= 12288)%N.
Proof.
  unfold Py.isspace.
  rewrite !orb_true_iff, !andb_true_iff, !N.leb_le, !N.eqb_eq. lia.
Qed.

Lemma single_spaced_tail (c : N) (r : str) :
  single_spaced (c :: r) = true -> single_spaced r = true.
Proof.
  destruct r as [|d r]; [reflexivity|]. rewrite single_spaced_cons.
  intros H. now apply andb_prop in H as [_ H].
Qed.

Lemma single_spaced_app_r (a s : str) :
  single_spaced (a ++ s) = true -> single_spaced s = true.
Proof.
  induction a as [|c a IH]; [auto|]. intros H. apply IH.
  now apply single_spaced_tail in H.
Qed.

Lemma single_spaced_app_l (s z : str) :
  single_spaced (s ++ z) = true -> single_spaced s = true.
Proof.
  induction s as [|c s IH]; [reflexivity|]. intros H.
  pose proof (single_spaced_tail _ _ H) as Ht. specialize (IH Ht).
  destruct s as [|d s]; [reflexivity|].
  change ((c :: d :: s) ++ z) with (c :: d :: (s ++ z)) in H.
  rewrite single_spaced_cons in *. apply andb_prop in H as [H _].
  now rewrite H, IH.
Qed.

Section CleanTitle.
Context {R : Py.Runtime}.

Lemma sub_runs_chars (p : N -> bool) (b : bool) (s : str) (Q : N -> Prop) :
  Q 32%N -> (forall c, p c = false -> In c s -> Q c) ->
  Forall Q (Segment.sub_runs p b s).
Proof.
  intros H32. revert b. induction s as [|c r IH]; intros b Hq; simpl; [constructor|].
  destruct (p c) eqn:Ep.
  - destruct b; [|constructor; [exact H32|]]; apply IH; intros; apply Hq; auto;
      now right.
  - constructor; [apply Hq; [exact Ep | now left]|].
    apply IH. intros; apply Hq; auto. now right.
Qed.

(** After a run no space follows, and no two spaces meet. *)
Lemma sub_runs_single_spaced (b : bool) (s : str) :
  single_spaced (Segment.sub_runs Py.isspace b s) = true
  /\ (b = true ->
      match Segment.sub_runs Py.isspace b s with
      | [] => True
      | d :: _ => Py.isspace d = false
      end).
Proof.
  revert b. induction s as [|c r IH]; intros b; simpl; [auto|].
  destruct (Py.isspace c) eqn:Ec.
  - destruct (IH true) as [H1 H2]. specialize (H2 eq_refl). destruct b.
    + auto.
    + split; [|discriminate].
      destruct (Segment.sub_runs Py.isspace true r) as [|d t]; [reflexivity|].
      now rewrite single_spaced_cons, H2, andb_false_r, H1.
  - destruct (IH false) as [H1 _]. split; [|auto].
    destruct (Segment.sub_runs Py.isspace false r) as [|d t]; [reflexivity|].
    now rewrite single_spaced_cons, Ec, H1.
Qed.

Lemma keep_char_not_space (c : N) :
  Segment.keep_char c = true -> Py.isspace c = false.
Proof.
  intros H. destruct (Py.isspace c) eqn:E; [|reflexivity].
  apply isspace_range in E. unfold Segment.keep_char in H.
  apply orb_prop in H as [H|H].
  - unfold Py.is_cjk in H. apply andb_prop in H as [H1 H2].
    apply N.leb_le in H1, H2. lia.
  - apply andb_prop in H as [H1 H2].
    unfold Py.is_ascii in H1. apply N.ltb_lt in H1.
    apply orb_prop in H2 as [H2|H2].
    + apply is_alpha_bound in H2. lia.
    + unfold Py.is_digit in H2. apply andb_prop in H2 as [H2 H3].
      apply N.leb_le in H2, H3. lia.
Qed.

End CleanTitle.

Section CleanTitleShape.
Context {R : Py.Runtime}.

Lemma clean_title_unfold (s : str) :
  s <> [] ->
  Segment.clean_title s
  = Py.strip (Segment.sub_runs Py.isspace false
                (Segment.sub_runs (fun c => negb (Segment.keep_char c)) false
                   (Segment.WEIBO_NOISE_RE_sub 0 s))).
Proof. destruct s; [contradiction | reflexivity]. Qed.

Lemma Forall_infix {A : Type} (P : A -> Prop) (a s z : list A) :
  Forall P (a ++ s ++ z) -> Forall P s.
Proof.
  intros H. apply List.Forall_app in H as [_ H].
  now apply List.Forall_app in H as [H _].
Qed.

Lemma clean_title_shape (s : str) :
  Forall (fun c => title_char c = true) (Segment.clean_title s)
  /\ Py.strip (Segment.clean_title s) = Segment.clean_title s
  /\ single_spaced (Segment.clean_title s) = true.
Proof.
  destruct s as [|c0 s0]; [repeat split; constructor|].
  rewrite clean_title_unfold by discriminate.
  set (a := Segment.WEIBO_NOISE_RE_sub 0 (c0 :: s0)).
  set (b := Segment.sub_runs (fun c => negb (Segment.keep_char c)) false a).
  set (c := Segment.sub_runs Py.isspace false b).
  assert (Forall (fun x => title_char x = true) b) as Hb.
  { apply sub_runs_chars; [reflexivity|]. intros x Hx _. unfold title_char.
    apply negb_false_iff in Hx. now rewrite Hx. }
  assert (Forall (fun x => title_char x = true) c) as Hc.
  { apply sub_runs_chars; [reflexivity|]. intros x _ Hx.
    rewrite List.Forall_forall in Hb. now apply Hb. }
  destruct (strip_infix c) as [p [z Hz]].
  split; [|split].
  - rewrite Hz in Hc. now apply Forall_infix in Hc.
  - apply strip_idem.
  - pose proof (proj1 (sub_runs_single_spaced false b)) as Hs. fold c in Hs.
    rewrite Hz in Hs. apply single_spaced_app_r in Hs.
    now apply single_spaced_app_l in Hs.
Qed.

(** *** A cleaned title holds no noise *)

Lemma startswith_nil (s : str) : Py.startswith s [] = true.
Proof. now destruct s. Qed.

Lemma startswith_cons (c : N) (s : str) (a : N) (q : str) :
  Py.startswith (c :: s) (a :: q) = (a =? c)%N && Py.startswith s q.
Proof. reflexivity. Qed.

Lemma contains_cons (q : str) (c : N) (s : str) :
  Py.contains q (c :: s) = Py.startswith (c :: s) q || Py.contains q s.
Proof. reflexivity. Qed.

Lemma noise_sub_cons (c : N) (r : str) :
  Segment.WEIBO_NOISE_RE_sub 0 (c :: r)
  = match Segment.WEIBO_NOISE_RE_match (c :: r) with
    | Some n => 32%N :: Segment.WEIBO_NOISE_RE_sub (n - 1) r
    | None => c :: Segment.WEIBO_NOISE_RE_sub 0 r
    end.
Proof. reflexivity. Qed.

Lemma noise_sub_startswith (q s : str) :
  Forall (fun c => c <> 32%N) q ->
  Py.startswith (Segment.WEIBO_NOISE_RE_sub 0 s) q = true ->
  Py.startswith s q = true.
Proof.
  revert s. induction q as [|a q IH]; intros s Hq; [intros _; apply startswith_nil|].
  inversion Hq as [|? ? Ha Hq']; subst.
  destruct s as [|c r]; [discriminate|]. rewrite noise_sub_cons.
  destruct (Segment.WEIBO_NOISE_RE_match (c :: r)) as [n|].
  - rewrite startswith_cons. destruct (N.eqb_spec a 32); [contradiction|discriminate].
  - rewrite !startswith_cons. intros H. apply andb_prop in H as [H1 H2].
    rewrite H1. now apply IH.
Qed.

Lemma retweet_match (s : str) :
  Py.startswith s retweet = true -> Segment.WEIBO_NOISE_RE_match s = Some 4%nat.
Proof.
  unfold retweet. destruct s as [|c1 [|c2 [|c3 [|c4 r]]]]; try discriminate;
    rewrite !startswith_cons; try (rewrite !andb_false_r; discriminate).
  rewrite startswith_nil, !andb_true_iff, !N.eqb_eq.
  intros [<- [<- [<- [<- _]]]]. destruct r; reflexivity.
Qed.

Lemma noise_sub_no_retweet_head (s : str) :
  Py.startswith (Segment.WEIBO_NOISE_RE_sub 0 s) retweet = false.
Proof.
  destruct (Py.startswith (Segment.WEIBO_NOISE_RE_sub 0 s) retweet) eqn:E;
    [|reflexivity].
  pose proof E as E'. apply noise_sub_startswith in E'.
  - apply retweet_match in E'. destruct s as [|c r]; [discriminate|].
    rewrite noise_sub_cons, E' in E. discriminate.
  - unfold retweet. repeat constructor; discriminate.
Qed.

Lemma noise_sub_no_retweet (k : nat) (s : str) :
  Py.contains retweet (Segment.WEIBO_NOISE_RE_sub k s) = false.
Proof.
  revert k. induction s as [|c r IH]; intros k; [now destruct k|].
  destruct k as [|k]; [|apply IH].
  pose proof (noise_sub_no_retweet_head (c :: r)) as Hh.
  rewrite noise_sub_cons in *.
  destruct (Segment.WEIBO_NOISE_RE_match (c :: r)) as [n|];
    rewrite contains_cons, Hh; apply IH.
Qed.

Lemma sub_runs_startswith (p : N -> bool) (q s : str) :
  Forall (fun c => p c = false /\ c <> 32%N) q ->
  Py.startswith (Segment.sub_runs p false s) q = true ->
  Py.startswith s q = true.
Proof.
  revert s. induction q as [|a q IH]; intros s Hq; [intros _; apply startswith_nil|].
  inversion Hq as [|? ? [Hp Ha] Hq']; subst.
  destruct s as [|c r]; [discriminate|]. simpl Segment.sub_runs.
  destruct (p c) eqn:Ec.
  - rewrite startswith_cons. destruct (N.eqb_spec a 32); [contradiction|discriminate].
  - rewrite !startswith_cons. intros H. apply andb_prop in H as [H1 H2].
    rewrite H1. now apply IH.
Qed.

Lemma sub_runs_contains (p : N -> bool) (a : N) (q : str) (b : bool) (s : str) :
  Forall (fun c => p c = false /\ c <> 32%N) (a :: q) ->
  Py.contains (a :: q) (Segment.sub_runs p b s) = true ->
  Py.contains (a :: q) s = true.
Proof.
  intros Hq. inversion Hq as [|? ? [Hp Ha] Hq']; subst.
  revert b. induction s as [|c r IH]; intros b; [simpl; auto|].
  simpl Segment.sub_runs. rewrite (contains_cons _ c r).
  destruct (p c) eqn:Ec.
  - destruct b.
    + intros H. apply IH in H. rewrite H. apply orb_true_r.
    + rewrite contains_cons, startswith_cons.
      destruct (N.eqb_spec a 32); [contradiction|]. simpl.
      intros H. apply IH in H. rewrite H. apply orb_true_r.
  - rewrite contains_cons. intros H. apply orb_prop in H as [H|H].
    + assert (Py.startswith (Segment.sub_runs p false (c :: r)) (a :: q) = true)
        as H' by (simpl Segment.sub_runs; now rewrite Ec).
      apply sub_runs_startswith in H'; [|exact Hq]. now rewrite H'.
    + apply IH in H. rewrite H. apply orb_true_r.
Qed.

Lemma startswith_app (s z q : str) :
  Py.startswith s q = true -> Py.startswith (s ++ z) q = true.
Proof.
  revert s. induction q as [|a q IH]; intros s; [intros _; apply startswith_nil|].
  destruct s as [|c s]; [discriminate|]. simpl app. rewrite !startswith_cons.
  intros H. apply andb_prop in H as [H1 H2]. now rewrite H1, IH.
Qed.

Lemma contains_infix (q a s z : str) :
  Py.contains q s = true -> Py.contains q (a ++ s ++ z) = true.
Proof.
  intros H. induction a as [|c a IH]; simpl app.
  - induction s as [|c s IH].
    + simpl in H. rewrite orb_false_r in H. destruct q; [|discriminate].
      destruct z; reflexivity.
    + simpl app. rewrite contains_cons in *. apply orb_prop in H as [H|H].
      * change (c :: s ++ z) with ((c :: s) ++ z).
        now rewrite (startswith_app _ z _ H).
      * rewrite (IH H). apply orb_true_r.
  - rewrite contains_cons, IH. apply orb_true_r.
Qed.

Lemma clean_title_no_retweet (s : str) :
  Py.contains retweet (Segment.clean_title s) = false.
Proof.
  destruct s as [|c0 s0]; [reflexivity|].
  rewrite clean_title_unfold by discriminate.
  set (a := Segment.WEIBO_NOISE_RE_sub 0 (c0 :: s0)).
  set (b := Segment.sub_runs (fun c => negb (Segment.keep_char c)) false a).
  set (c := Segment.sub_runs Py.isspace false b).
  destruct (Py.contains retweet (Py.strip c)) eqn:E; [|reflexivity].
  destruct (strip_infix c) as [p [z Hz]].
  apply (contains_infix _ p _ z) in E. rewrite <- Hz in E.
  unfold c, retweet in E. apply sub_runs_contains in E;
    [|repeat constructor; discriminate].
  unfold b in E. apply sub_runs_contains in E;
    [|repeat constructor; discriminate].
  fold retweet in E. unfold a in E. now rewrite noise_sub_no_retweet in E.
Qed.

Lemma title_char_cases (c : N) :
  title_char c = true -> Segment.keep_char c = true \/ c = 32%N.
Proof.
  unfold title_char. intros H. apply orb_prop in H as [H|H]; [now left|].
  right. now apply N.eqb_eq.
Qed.

Lemma title_char_not (c : N) (k : N) :
  title_char k = false -> title_char c = true -> (c =? k)%N = false.
Proof.
  intros Hk Hc. destruct (N.eqb_spec c k); [subst; congruence | reflexivity].
Qed.

Lemma title_no_scheme (x : str) :
  Forall (fun c => title_char c = true) x -> Py.startswith x (u "://") = false.
Proof.
  destruct x as [|c x]; [reflexivity|]. intros H. inversion H as [|? ? Hc _]; subst.
  change (u "://") with [58%N; 47%N; 47%N]. rewrite startswith_cons.
  rewrite N.eqb_sym, (title_char_not c 58); [reflexivity | reflexivity | exact Hc].
Qed.

Lemma Forall_skipn {A : Type} (P : A -> Prop) (n : nat) (l : list A) :
  Forall P l -> Forall P (skipn n l).
Proof.
  intros H. rewrite <- (firstn_skipn n l) in H.
  now apply List.Forall_app in H as [_ H].
Qed.

Lemma title_no_match (s : str) :
  Forall (fun c => title_char c = true) s ->
  Py.startswith s retweet = false ->
  Segment.WEIBO_NOISE_RE_match s = None.
Proof.
  intros Hs Hr. destruct s as [|c r]; [reflexivity|].
  inversion Hs as [|? ? Hc Hr']; subst.
  unfold Segment.WEIBO_NOISE_RE_match.
  rewrite (title_char_not c 35), (title_char_not c 64), (title_char_not c 38),
    (title_char_not c 91), (title_char_not c 40), (title_char_not c 65288)
    by (reflexivity || exact Hc).
  change (u "转发微博") with retweet. rewrite Hr.
  destruct (Py.startswith (c :: r) (u "http")); [|reflexivity].
  destruct (Py.startswith (skipn 4 (c :: r)) (u "s")).
  - rewrite title_no_scheme; [reflexivity|]. now apply Forall_skipn, Forall_skipn.
  - rewrite title_no_scheme; [reflexivity|]. now apply Forall_skipn.
Qed.

Lemma noise_sub_fixed (t : str) :
  Forall (fun c => title_char c = true) t ->
  Py.contains retweet t = false ->
  Segment.WEIBO_NOISE_RE_sub 0 t = t.
Proof.
  induction t as [|c r IH]; [reflexivity|]. intros Ht Hc.
  rewrite contains_cons in Hc. apply orb_false_elim in Hc as [H1 H2].
  rewrite noise_sub_cons, (title_no_match _ Ht H1).
  inversion Ht; subst. now rewrite IH.
Qed.

Lemma sub_runs_fixed (p : N -> bool) (b : bool) (t : str) :
  Forall (fun c => p c = true -> c = 32%N) t ->
  single_spaced t = true ->
  (b = true -> match t with [] => True | c :: _ => p c = false end) ->
  Segment.sub_runs p b t = t.
Proof.
  revert b. induction t as [|c r IH]; intros b Hp Hs Hb; [reflexivity|].
  inversion Hp as [|? ? Hc Hr]; subst. simpl.
  pose proof (single_spaced_tail _ _ Hs) as Hs'.
  destruct (p c) eqn:Ec.
  - destruct b; [specialize (Hb eq_refl); congruence|].
    rewrite (Hc eq_refl) in *. f_equal. apply IH; [exact Hr | exact Hs' |].
    intros _. destruct r as [|d r]; [exact I|].
    rewrite single_spaced_cons in Hs. apply andb_prop in Hs as [Hs _].
    apply negb_true_iff in Hs. simpl in Hs.
    destruct (p d) eqn:Ed; [|reflexivity].
    inversion Hr as [|? ? Hd _]; subst. rewrite (Hd Ed) in Hs. discriminate.
  - f_equal. apply IH; [exact Hr | exact Hs' | discriminate].
Qed.

Lemma clean_title_idem (s : str) :
  Segment.clean_title (Segment.clean_title s) = Segment.clean_title s.
Proof.
  destruct (clean_title_shape s) as [Hc [Hst Hss]].
  pose proof (clean_title_no_retweet s) as Hr.
  set (t := Segment.clean_title s) in *.
  destruct t as [|c0 t0] eqn:Et; [reflexivity|]. rewrite <- Et in *.
  rewrite clean_title_unfold by (rewrite Et; discriminate).
  rewrite (noise_sub_fixed t Hc Hr).
  rewrite (sub_runs_fixed _ false t); [| | exact Hss | discriminate].
  - rewrite (sub_runs_fixed _ false t); [exact Hst | | exact Hss | discriminate].
    eapply List.Forall_impl; [|exact Hc]. intros c H Hsp.
    apply title_char_cases in H as [H|H]; [|exact H].
    apply keep_char_not_space in H. congruence.
  - eapply List.Forall_impl; [|exact Hc]. intros c H Hk.
    apply title_char_cases in H as [H|H]; [|exact H].
    apply negb_true_iff in Hk. congruence.
Qed.

End CleanTitleShape.

(** X19: a cleaned title is made of CJK characters, ASCII letters and
    digits, and spaces only; it has no whitespace at either end and no
    two spaces in a row. *)
Theorem clean_title_alphabet (R : Py.Runtime) (s : str) :
  Forall (fun c => title_char c = true) (Segment.clean_title s)
  /\ Py.strip (Segment.clean_title s) = Segment.clean_title s
  /\ single_spaced (Segment.clean_title s) = true.
Proof. apply clean_title_shape. Qed.

(** X20: [clean_title] is idempotent: a cleaned title holds nothing that
    [WEIBO_NOISE_RE] or the two later substitutions would touch. *)
Theorem clean_title_idempotent (R : Py.Runtime) (s : str) :
  Segment.clean_title (Segment.clean_title s) = Segment.clean_title s.
Proof. apply clean_title_idem. Qed.

(** ** What is written is read back *)

(** *** [%d] and [int] *)

Lemma scan_digit (m : N) (s : str) (b : bool) (a : Z) (k : N) :
  (m < 10)%N ->
  Py.scan_digits ((48 + m)%N :: s) b a k
  = Py.scan_digits s false (a * 10 + Z.of_N m)%Z (k + 1)%N.
Proof.
  intros Hm. cbn [Py.scan_digits].
  assert (Py.is_digit (48 + m) = true) as ->.
  { unfold Py.is_digit. apply andb_true_intro. split; apply N.leb_le; lia. }
  now replace (48 + m - 48)%N with m by lia.
Qed.

Lemma log2_tenth (n : N) : (10 <= n)%N -> (N.succ (N.log2 (n / 10)) <= N.log2 n)%N.
Proof.
  intros Hn. pose proof (N.div_mod' n 10) as Hd.
  pose proof (N.mod_lt n 10 ltac:(lia)) as Hr.
  assert (0 < n / 10)%N as Hq by lia.
  rewrite <- (N.log2_double _ Hq). apply N.log2_le_mono.
  revert Hd Hr. generalize (n / 10)%N (n mod 10)%N. intros q r Hd Hr. lia.
Qed.

Lemma decimal_scan (f : nat) (n : N) (s : str) :
  (N.log2 n <= N.of_nat f)%N ->
  exists (d : nat) (m : N) (t : str),
    Stdout.decimal (S f) n s = (48 + m)%N :: t /\ (m < 10)%N
    /\ length (Stdout.decimal (S f) n s) = (S d + length s)%nat
    /\ forall a k,
         Py.scan_digits (Stdout.decimal (S f) n s) false a k
         = Py.scan_digits s false (a * 10 ^ Z.of_nat (S d) + Z.of_N n)%Z
             (k + N.of_nat (S d))%N.
Proof.
  revert n s. induction f as [|f IH]; intros n s Hl;
    cbn [Stdout.decimal]; destruct (N.ltb_spec n 10) as [Hn|Hn].
  - exists 0%nat, n, s. repeat split; [exact Hn|]. intros a k.
    rewrite (scan_digit n s false a k Hn). f_equal.
  - pose proof (log2_tenth n Hn). lia.
  - exists 0%nat, n, s. repeat split; [exact Hn|]. intros a k.
    rewrite (scan_digit n s false a k Hn). f_equal.
  - assert (N.log2 (n / 10) <= N.of_nat f)%N as Hq
      by (pose proof (log2_tenth n Hn); lia).
    destruct (IH (n / 10)%N ((48 + n mod 10)%N :: s) Hq)
      as [d [m [t [E [Hm [Hlen Hs]]]]]].
    cbn [Stdout.decimal] in E, Hlen, Hs.
    exists (S d), m, t. split; [exact E|]. split; [exact Hm|].
    split; [rewrite Hlen; simpl; lia|]. intros a k. rewrite Hs.
    pose proof (N.mod_lt n 10 ltac:(lia)) as Hr.
    rewrite (scan_digit _ s false _ _ Hr).
    pose proof (N.div_mod' n 10) as Hd.
    set (q := (n / 10)%N) in *. set (r := (n mod 10)%N) in *.
    rewrite (Nat2Z.inj_succ (S d)), Z.pow_succ_r by lia.
    f_equal; [|lia].
    replace (Z.of_N n) with (10 * Z.of_N q + Z.of_N r)%Z by lia. ring.
Qed.

Lemma decimal_digits (f : nat) (n : N) (s : str) :
  Forall (fun c => Py.is_digit c = true) s ->
  Forall (fun c => Py.is_digit c = true) (Stdout.decimal f n s).
Proof.
  revert n s. induction f as [|f IH]; intros n s Hs; cbn [Stdout.decimal];
    [exact Hs|].
  destruct (N.ltb_spec n 10) as [Hn|Hn].
  - constructor; [|exact Hs]. unfold Py.is_digit.
    apply andb_true_intro. split; apply N.leb_le; lia.
  - apply IH. constructor; [|exact Hs].
    pose proof (N.mod_lt n 10 ltac:(lia)) as Hr. revert Hr.
    generalize (n mod 10)%N. intros r Hr. unfold Py.is_digit.
    apply andb_true_intro. split; apply N.leb_le; lia.
Qed.

Lemma digits_scan (n : N) :
  exists (d : nat) (m : N) (t : str),
    Stdout.digits n = (48 + m)%N :: t /\ (m < 10)%N
    /\ length (Stdout.digits n) = S d
    /\ Py.scan_digits (Stdout.digits n) false 0 0
       = Some (Z.of_N n, N.of_nat (S d), []).
Proof.
  unfold Stdout.digits.
  destruct (decimal_scan (N.to_nat (N.log2 n)) n []) as [d [m [t [E [Hm [Hl Hs]]]]]];
    [rewrite N2Nat.id; lia|].
  exists d, m, t. split; [exact E|]. split; [exact Hm|].
  split; [rewrite Hl; simpl; lia|]. rewrite Hs. reflexivity.
Qed.

Lemma digit_cases (m : N) :
  (m < 10)%N ->
  In m [0; 1; 2; 3; 4; 5; 6; 7; 8; 9]%N.
Proof. intros H. simpl. lia. Qed.

Section ReadBack.
Context {R : Py.Runtime}.

(** [int] on text that begins with a digit, or with a minus sign and a
    digit. *)
Lemma int_ascii_unsigned (m : N) (t : str) :
  (m < 10)%N ->
  Py.int_ascii ((48 + m)%N :: t)
  = match Py.scan_digits ((48 + m)%N :: t) false 0 0 with
    | Some (v, n, rest) =>
      match Py.skip_c_space rest with
      | [] =>
        if (640 <? n)%N && (0 <? Py.int_max_str_digits)%N
           && (Py.int_max_str_digits <? n)%N
        then None else Some v
      | _ => None
      end
    | None => None
    end.
Proof.
  intros Hm. apply digit_cases in Hm.
  repeat (destruct Hm as [<-|Hm]; [reflexivity|]). destruct Hm.
Qed.

Lemma int_ascii_negative (m : N) (t : str) :
  (m < 10)%N ->
  Py.int_ascii (45%N :: (48 + m)%N :: t)
  = match Py.scan_digits ((48 + m)%N :: t) false 0 0 with
    | Some (v, n, rest) =>
      match Py.skip_c_space rest with
      | [] =>
        if (640 <? n)%N && (0 <? Py.int_max_str_digits)%N
           && (Py.int_max_str_digits <? n)%N
        then None else Some (- v)%Z
      | _ => None
      end
    | None => None
    end.
Proof.
  intros Hm. apply digit_cases in Hm.
  repeat (destruct Hm as [<-|Hm]; [reflexivity|]). destruct Hm.
Qed.

Lemma to_ascii_plain (s : str) :
  Forall (fun c => (c < 127)%N) s -> map Py.to_ascii s = s.
Proof.
  induction 1 as [|c s Hc _ IH]; [reflexivity|]. simpl. rewrite IH.
  unfold Py.to_ascii. apply N.ltb_lt in Hc. now rewrite Hc.
Qed.

Lemma digits_plain (n : N) :
  Forall (fun c => Py.is_digit c = true) (Stdout.digits n).
Proof. apply decimal_digits. constructor. Qed.

Lemma is_digit_bound (c : N) : Py.is_digit c = true -> (48 <= c <= 57)%N.
Proof.
  unfold Py.is_digit. rewrite andb_true_iff, !N.leb_le. lia.
Qed.

Lemma format_d_shape (z : Z) (s : str) :
  Stdout.format_d z = Some s ->
  s <> [] /\ no_space s = true /\ Forall (fun c => (c < 127)%N) s.
Proof.
  unfold Stdout.format_d. destruct (_ && _ && _); [discriminate|].
  intros [= <-]. pose proof (digits_plain (Z.abs_N z)) as Hd.
  destruct (digits_scan (Z.abs_N z)) as [d [m [t [E _]]]].
  assert (forall c, Py.is_digit c = true -> Py.isspace c = false /\ (c < 127)%N)
    as Hc.
  { intros c H. apply is_digit_bound in H. split; [|lia].
    destruct (Py.isspace c) eqn:Es; [|reflexivity].
    apply isspace_bound in Es. lia. }
  assert (no_space (Stdout.digits (Z.abs_N z)) = true
          /\ Forall (fun c => (c < 127)%N) (Stdout.digits (Z.abs_N z))) as [H1 H2].
  { split.
    - apply forallb_forall. intros c Hin. rewrite List.Forall_forall in Hd.
      apply negb_true_iff. now apply Hc, Hd.
    - eapply List.Forall_impl; [|exact Hd]. intros c H. now apply Hc. }
  destruct (z <? 0)%Z.
  - split; [discriminate|]. split.
    + unfold no_space in *. simpl. exact H1.
    + constructor; [lia | exact H2].
  - split; [rewrite E; discriminate|]. now split.
Qed.

Lemma format_d_int (z : Z) (s : str) :
  Stdout.format_d z = Some s -> Py.int s = Some z.
Proof.
  intros H. destruct (format_d_shape z s H) as [_ [_ Hp]].
  unfold Py.int. rewrite (to_ascii_plain s Hp). clear Hp.
  unfold Stdout.format_d in H.
  destruct (digits_scan (Z.abs_N z)) as [d [m [t [E [Hm [Hl Hs]]]]]].
  rewrite Hl in H.
  assert ((640 <? N.of_nat (S d))%N && (0 <? Py.int_max_str_digits)%N
          && (Py.int_max_str_digits <? N.of_nat (S d))%N = false) as Hlim.
  { destruct (_ && _ && _) eqn:El in |- *; [|reflexivity].
    apply andb_prop in El as [El E3]. apply andb_prop in El as [E1 E2].
    rewrite E2, E3, !andb_true_r in H. apply N.ltb_lt in E1.
    destruct (z <? 0)%Z; cbn [length] in H; rewrite ?Hl in H.
    - assert ((640 <? N.of_nat (S (S d)))%N = true) as E'
        by (apply N.ltb_lt; lia).
      rewrite E' in H. discriminate.
    - apply N.ltb_lt in E1. rewrite E1 in H. discriminate. }
  destruct (_ && _ && _) in H; [discriminate|]. injection H as <-.
  rewrite E in Hs. destruct (Z.ltb_spec z 0) as [Hz|Hz]; rewrite E.
  - rewrite (int_ascii_negative m t Hm), Hs. cbn [Py.skip_c_space].
    rewrite Hlim. f_equal. lia.
  - rewrite (int_ascii_unsigned m t Hm), Hs. cbn [Py.skip_c_space].
    rewrite Hlim. f_equal. lia.
Qed.

(** *** A written record, read by the reducers *)

Lemma no_space_has_char (c : N) (s : str) :
  Py.isspace c = true -> no_space s = true -> Py.has_char c s = false.
Proof.
  intros Hc. unfold no_space, Py.has_char.
  induction s as [|a s IH]; [reflexivity|]. simpl. intros H.
  apply andb_prop in H as [Ha Hs]. rewrite (IH Hs), orb_false_r.
  destruct (N.eqb_spec c a); [subst; now rewrite Hc in Ha | reflexivity].
Qed.

Lemma no_space_app (a b : str) :
  no_space (a ++ b) = no_space a && no_space b.
Proof. apply forallb_app. Qed.

Lemma rstrip_snoc_space (s : str) (c : N) :
  Py.isspace c = true -> Py.rstrip (s ++ [c]) = Py.rstrip s.
Proof.
  intros Hc. unfold Py.rstrip. rewrite rev_app_distr. simpl. now rewrite Hc.
Qed.

Lemma rstrip_app_solid (a b : str) :
  b <> [] -> no_space b = true -> Py.rstrip (a ++ b) = a ++ b.
Proof.
  intros Hb Hn. unfold Py.rstrip. rewrite rev_app_distr.
  destruct (rev b) as [|c r] eqn:E.
  - apply (f_equal (@rev N)) in E. rewrite rev_involutive in E. contradiction.
  - assert (Py.isspace c = false) as Hc.
    { apply no_space_rev in Hn. rewrite E in Hn. unfold no_space in Hn.
      simpl in Hn. apply andb_prop in Hn as [Hn _]. now apply negb_true_iff. }
    simpl. rewrite Hc. change (c :: r ++ rev a) with ((c :: r) ++ rev a).
    now rewrite <- E, <- rev_app_distr, rev_involutive.
Qed.

Lemma lstrip_solid_head (a b : str) :
  a <> [] -> no_space a = true -> Py.lstrip (a ++ b) = a ++ b.
Proof.
  destruct a as [|c a]; [contradiction|]. intros _ Hn. unfold no_space in Hn.
  simpl in Hn. apply andb_prop in Hn as [Hc _]. apply negb_true_iff in Hc.
  simpl. now rewrite Hc.
Qed.

(** A line [key<TAB>value], with or without its newline, is read as the
    record it stands for. *)
Lemma parse_record_line (k value : str) (v : Z) (nl : str) :
  k <> [] -> no_space k = true ->
  value <> [] -> no_space value = true -> Py.int value = Some v ->
  nl = [] \/ nl = [10%N] ->
  Reducer.parse_line (k ++ [9%N] ++ value ++ nl) = Some (k, v).
Proof.
  intros Hk Nk Hv Nv Hi Hnl. apply parse_line_Some. exists value.
  split; [|split; [now apply no_space_has_char | exact Hi]].
  unfold Py.strip. rewrite (lstrip_solid_head k _ Hk Nk).
  assert (Py.rstrip (k ++ [9%N] ++ value ++ nl)
          = Py.rstrip ((k ++ [9%N]) ++ value)) as ->.
  { destruct Hnl as [-> | ->].
    - now rewrite app_nil_r, List.app_assoc.
    - rewrite !List.app_assoc. now rewrite rstrip_snoc_space. }
  rewrite (rstrip_app_solid _ _ Hv Nv), <- List.app_assoc. reflexivity.
Qed.

Lemma record_read_back (k : str) (v : Z) (line : str) :
  k <> [] -> no_space k = true ->
  Stdout.record (k, v) = Some line ->
  Reducer.parse_line line = Some (k, v).
Proof.
  intros Hk Nk. unfold Stdout.record. cbn [fst snd].
  destruct (Stdout.format_d v) as [d|] eqn:E; [|discriminate].
  intros [= <-]. destruct (format_d_shape v d E) as [Hd [Nd _]].
  apply parse_record_line; auto. now apply format_d_int.
Qed.

Lemma written_read_back (recs : list (str * Z)) :
  Forall (fun kw => fst kw <> [] /\ no_space (fst kw) = true) recs ->
  records (Stdout.written recs) = firstn (length (Stdout.written recs)) recs.
Proof.
  induction 1 as [|[k v] rest [Hk Nk] _ IH]; [reflexivity|].
  cbn [Stdout.written]. destruct (Stdout.record (k, v)) as [line|] eqn:E;
    [|reflexivity].
  unfold records in *. cbn [omap list_omap length firstn].
  rewrite (record_read_back k v line Hk Nk E). f_equal. exact IH.
Qed.

Lemma runs_distinct (recs : list (str * Z)) :
  List.NoDup (map fst recs) -> runs recs = recs.
Proof.
  induction recs as [|r rest IH]; [reflexivity|]. simpl map. intros H.
  apply List.NoDup_cons_iff in H as [Hr Hn].
  change (runs (r :: rest)) with (join r (runs rest)). rewrite (IH Hn).
  destruct rest as [|[k' s] t]; [reflexivity|]. unfold join.
  destruct (Py.eqb (fst r) k') eqn:E; [|reflexivity].
  apply eqb_eq in E. exfalso. apply Hr. simpl. now left.
Qed.

Lemma mapper_keys_solid (stdin : list str) :
  Forall (fun kw => fst kw <> [] /\ no_space (fst kw) = true)
         (Mapper.main stdin).
Proof.
  destruct (run_keys stdin ∅) as [F _]. pose proof (run_records stdin ∅) as G.
  unfold Mapper.main. rewrite List.Forall_forall in *. intros kw Hin.
  destruct (F kw Hin) as [_ H2]. destruct (G kw Hin) as [H3 _].
  split; [|exact H3]. intros E. rewrite E in H2. simpl in H2. lia.
Qed.

Lemma mapper_shuffled (stdin shuffled : list str) :
  Permutation shuffled (Stdout.written (Mapper.main stdin)) ->
  Reducer.aggregate shuffled = records shuffled
  /\ Permutation (records shuffled)
       (firstn (length shuffled) (Mapper.main stdin)).
Proof.
  intros Hp.
  assert (Permutation (records shuffled)
            (firstn (length shuffled) (Mapper.main stdin))) as Hr.
  { rewrite (Permutation_length Hp),
      <- (written_read_back _ (mapper_keys_solid stdin)).
    unfold records. now apply omap_Permutation. }
  split; [|exact Hr]. rewrite aggregate_runs. apply runs_distinct.
  apply (Permutation_NoDup (l := map fst (firstn (length shuffled) (Mapper.main stdin)))).
  - apply Permutation_map. now apply Permutation_sym.
  - rewrite <- firstn_map. apply firstn_NoDup.
    destruct (run_keys stdin ∅) as [_ [Hn _]]. exact Hn.
Qed.

(** *** The co-occurrence mapper's lines *)

Lemma int_one : Py.int [49%N] = Some 1%Z.
Proof. reflexivity. Qed.

Lemma cooccurrence_line_read_back (a b : str) :
  a <> [] -> no_space a = true -> b <> [] -> no_space b = true ->
  CooccurrenceReducer.parse_line (CooccurrenceMapper.format (a, b))
  = Some (a ++ 44%N :: b, 1%Z).
Proof.
  intros Ha Na Hb Nb. rewrite cooccurrence_parse_line.
  unfold CooccurrenceMapper.format. cbn [fst snd].
  replace (a ++ [44%N] ++ b ++ [9%N; 49%N])
    with ((a ++ 44%N :: b) ++ [9%N] ++ [49%N] ++ [])
    by (rewrite <- !List.app_assoc; reflexivity).
  apply (parse_record_line (a ++ 44%N :: b) [49%N] 1%Z []).
  - now destruct a.
  - rewrite no_space_app, Na. exact Nb.
  - discriminate.
  - reflexivity.
  - apply int_one.
  - now left.
Qed.

Lemma pairs_of_line_solid (line : str) :
  Forall (fun p => (fst p <> [] /\ no_space (fst p) = true)
                   /\ snd p <> [] /\ no_space (snd p) = true)
         (CooccurrenceMapper.pairs_of_line line).
Proof.
  unfold CooccurrenceMapper.pairs_of_line.
  set (v := CooccurrenceMapper.valid_tokens line).
  assert (Hp : Permutation (Py.sorted Py.ltb v) v) by apply sorted_perm.
  pose proof (valid_tokens_length line) as Hv. fold v in Hv.
  rewrite List.Forall_forall in *. intros [a b] Hin.
  pose proof (combinations2_In _ _ _ Hin) as [Ha Hb].
  apply (Permutation_in _ Hp) in Ha, Hb.
  destruct (Hv a Ha) as [La Na]. destruct (Hv b Hb) as [Lb Nb].
  cbn [fst snd]. repeat split; auto; intros E; subst; simpl in *; lia.
Qed.

Lemma cooccurrence_lines_records (stdin : list str) :
  omap CooccurrenceReducer.parse_line (CooccurrenceMapper.main stdin)
  = map (fun p => (fst p ++ 44%N :: snd p, 1%Z))
        (flat_map CooccurrenceMapper.pairs_of_line stdin).
Proof.
  unfold CooccurrenceMapper.main.
  induction stdin as [|line rest IH]; [reflexivity|].
  cbn [flat_map]. rewrite map_app, <- IH. clear IH.
  rewrite omap_app. f_equal.
  pose proof (pairs_of_line_solid line) as Hs.
  induction Hs as [|[a b] ps [[Ha Na] [Hb Nb]] _ IH]; [reflexivity|].
  cbn [map omap list_omap].
  rewrite (cooccurrence_line_read_back a b Ha Na Hb Nb). cbn [fst snd].
  f_equal. exact IH.
Qed.

Lemma sum_counts_ones {A : Type} (f : A -> str) (l : list A) :
  sum_counts (map (fun p => (f p, 1%Z)) l) = Z.of_nat (length l).
Proof.
  induction l as [|x l IH]; [reflexivity|]. cbn [map length].
  rewrite sum_counts_cons, IH. cbn [snd]. lia.
Qed.

Lemma cooccurrence_shuffled (stdin shuffled : list str) :
  Permutation shuffled (CooccurrenceMapper.main stdin) ->
  Permutation (omap CooccurrenceReducer.parse_line shuffled)
    (map (fun p => (fst p ++ 44%N :: snd p, 1%Z))
         (flat_map CooccurrenceMapper.pairs_of_line stdin))
  /\ sum_counts (CooccurrenceReducer.main shuffled)
     = Z.of_nat (length (CooccurrenceMapper.main stdin)).
Proof.
  intros Hp.
  assert (Permutation (omap CooccurrenceReducer.parse_line shuffled)
            (map (fun p => (fst p ++ 44%N :: snd p, 1%Z))
               (flat_map CooccurrenceMapper.pairs_of_line stdin))) as Hr.
  { rewrite <- cooccurrence_lines_records. now apply omap_Permutation. }
  split; [exact Hr|].
  rewrite cooccurrence_main_is_aggregate, aggregate_runs, sum_counts_runs.
  assert (records shuffled = omap CooccurrenceReducer.parse_line shuffled) as ->.
  { unfold records. clear. induction shuffled as [|l r IH]; [reflexivity|].
    cbn [omap list_omap] in *. now rewrite cooccurrence_parse_line, IH. }
  rewrite (sum_counts_perm _ _ Hr), sum_counts_ones.
  unfold CooccurrenceMapper.main. clear.
  induction stdin as [|line rest IH]; [reflexivity|].
  cbn [flat_map]. rewrite !length_app, length_map. lia.
Qed.

End ReadBack.

(** X21: [int] reads back what [%d] wrote: whenever ["%d" % z] does not
    raise, [int] of its text is [z] again, under the same limit on the
    number of digits. *)
Theorem int_of_format_d (R : Py.Runtime) (z : Z) (s : str) :
  Stdout.format_d z = Some s -> Py.int s = Some z.
Proof. apply format_d_int. Qed.

Lemma int_of_format_d_witness :
  Py.int (R := Py.bare_runtime) (u "-2048") = Some (-2048)%Z.
Proof.
  apply (int_of_format_d Py.bare_runtime (-2048)%Z (u "-2048")).
  vm_compute. reflexivity.
Defined.

(** X22: the frequency reducer never adds two of the mapper's weights.
    Fed the lines one run of the mapper wrote, in any order, it reads
    every line as the record written, and its aggregated list is that
    list of records, each with the weight the mapper gave it. *)
Theorem mapper_records_never_summed
    (R : Py.Runtime) (stdin shuffled : list str) :
  Permutation shuffled (Stdout.written (Mapper.main stdin)) ->
  Reducer.aggregate shuffled = records shuffled
  /\ Permutation (records shuffled)
       (firstn (length shuffled) (Mapper.main stdin)).
Proof. apply mapper_shuffled. Qed.

Lemma mapper_records_never_summed_witness :
  Reducer.aggregate (R := Py.bare_runtime)
    [u "手机" ++ 9%N :: u "50" ++ [10%N]; u "苹果" ++ 9%N :: u "50" ++ [10%N];
     u "地震" ++ 9%N :: u "49" ++ [10%N]]
  = records (R := Py.bare_runtime)
      [u "手机" ++ 9%N :: u "50" ++ [10%N]; u "苹果" ++ 9%N :: u "50" ++ [10%N];
       u "地震" ++ 9%N :: u "49" ++ [10%N]]
  /\ Permutation
       (records (R := Py.bare_runtime)
          [u "手机" ++ 9%N :: u "50" ++ [10%N];
           u "苹果" ++ 9%N :: u "50" ++ [10%N];
           u "地震" ++ 9%N :: u "49" ++ [10%N]])
       (firstn
          (length
             [u "手机" ++ 9%N :: u "50" ++ [10%N];
              u "苹果" ++ 9%N :: u "50" ++ [10%N];
              u "地震" ++ 9%N :: u "49" ++ [10%N]])
          (Mapper.main (R := Py.bare_runtime)
             [u "1,苹果 手机"; u "2,地震 苹果"])).
Proof.
  assert (Permutation
            [u "手机" ++ 9%N :: u "50" ++ [10%N];
             u "苹果" ++ 9%N :: u "50" ++ [10%N];
             u "地震" ++ 9%N :: u "49" ++ [10%N]]
            (Stdout.written (R := Py.bare_runtime)
               (Mapper.main (R := Py.bare_runtime)
                  [u "1,苹果 手机"; u "2,地震 苹果"]))) as H.
  { vm_compute. apply perm_swap. }
  exact (mapper_records_never_summed Py.bare_runtime _ _ H).
Defined.

(** X23: the co-occurrence reducer reads every line the co-occurrence
    mapper prints, in any order, as the pair [word1,word2] with the
    count 1, so that the counts it prints add up to the number of pairs
    printed. *)
Theorem cooccurrence_lines_read_back
    (R : Py.Runtime) (stdin shuffled : list str) :
  Permutation shuffled (CooccurrenceMapper.main stdin) ->
  Permutation (omap CooccurrenceReducer.parse_line shuffled)
    (map (fun p => (fst p ++ 44%N :: snd p, 1%Z))
         (flat_map CooccurrenceMapper.pairs_of_line stdin))
  /\ sum_counts (CooccurrenceReducer.main shuffled)
     = Z.of_nat (length (CooccurrenceMapper.main stdin)).
Proof. apply cooccurrence_shuffled. Qed.

Lemma cooccurrence_lines_read_back_witness :
  Permutation
    (omap (CooccurrenceReducer.parse_line (R := Py.bare_runtime))
       [CooccurrenceMapper.format (u "地震", u "苹果");
        CooccurrenceMapper.format (u "地震", u "手机");
        CooccurrenceMapper.format (u "手机", u "苹果")])
    (map (fun p => (fst p ++ 44%N :: snd p, 1%Z))
         (flat_map CooccurrenceMapper.pairs_of_line [u "1,苹果 手机 地震"]))
  /\ sum_counts
       (CooccurrenceReducer.main (R := Py.bare_runtime)
          [CooccurrenceMapper.format (u "地震", u "苹果");
           CooccurrenceMapper.format (u "地震", u "手机");
           CooccurrenceMapper.format (u "手机", u "苹果")])
     = Z.of_nat (length (CooccurrenceMapper.main [u "1,苹果 手机 地震"])).
Proof.
  assert (Permutation
            [CooccurrenceMapper.format (u "地震", u "苹果");
             CooccurrenceMapper.format (u "地震", u "手机");
             CooccurrenceMapper.format (u "手机", u "苹果")]
            (CooccurrenceMapper.main [u "1,苹果 手机 地震"])) as H.
  { vm_compute. apply perm_swap. }
  exact (cooccurrence_lines_read_back Py.bare_runtime _ _ H).
Defined.

(** ** Splitting at a separator *)

Lemma join_cons (sep a b : str) (r : list str) :
  PyStr.join sep (a :: b :: r) = a ++ sep ++ PyStr.join sep (b :: r).
Proof. reflexivity. Qed.

Lemma splitn_cons (sep c : N) (r : str) (k : nat) :
  PyStr.splitn sep (c :: r) (S k)
  = if (c =? sep)%N then [] :: PyStr.splitn sep r k
    else match PyStr.splitn sep r (S k) with
         | a :: rest => (c :: a) :: rest
         | [] => [[c]]
         end.
Proof. reflexivity. Qed.

Lemma splitn_head (sep : N) (s : str) (k : nat) :
  exists a rest, PyStr.splitn sep s k = a :: rest.
Proof.
  destruct s as [|c r]; [now exists [], []|]. destruct k as [|k];
    [now exists (c :: r), []|].
  rewrite splitn_cons. destruct (c =? sep)%N; [now eexists _, _|].
  destruct (PyStr.splitn sep r (S k)); now eexists _, _.
Qed.

(** [sep.join(s.split(sep, k))] is [s] again. *)
Lemma splitn_join (sep : N) (s : str) (k : nat) :
  PyStr.join [sep] (PyStr.splitn sep s k) = s.
Proof.
  revert k. induction s as [|c r IH]; intros k; [reflexivity|].
  destruct k as [|k]; [reflexivity|]. rewrite splitn_cons.
  destruct (N.eqb_spec c sep) as [->|Hc].
  - destruct (splitn_head sep r k) as [a [rest E]]. rewrite E, join_cons.
    now rewrite <- E, IH.
  - specialize (IH (S k)).
    destruct (PyStr.splitn sep r (S k)) as [|a [|b rest]].
    + now subst r.
    + simpl in *. now subst.
    + rewrite join_cons in *. rewrite <- IH. reflexivity.
Qed.

Lemma count_char_cons (sep c : N) (s : str) :
  count_char sep (c :: s)
  = if (c =? sep)%N then S (count_char sep s) else count_char sep s.
Proof.
  unfold count_char. simpl. rewrite (N.eqb_sym sep c).
  now destruct (c =? sep)%N.
Qed.

Lemma count_char_length (sep : N) (s : str) : (count_char sep s <= length s)%nat.
Proof. apply filter_length_le. Qed.

Lemma count_char_none (sep : N) (s : str) :
  count_char sep s = 0%nat <-> Py.has_char sep s = false.
Proof.
  unfold Py.has_char. induction s as [|c s IH]; [now split|].
  rewrite count_char_cons. simpl. rewrite (N.eqb_sym sep c).
  destruct (c =? sep)%N; simpl; [split; discriminate | exact IH].
Qed.

Lemma count_char_app (sep : N) (a b : str) :
  count_char sep (a ++ b) = (count_char sep a + count_char sep b)%nat.
Proof. unfold count_char. now rewrite List.filter_app, length_app. Qed.

Lemma splitn_length (sep : N) (s : str) (k : nat) :
  length (PyStr.splitn sep s k) = S (Nat.min k (count_char sep s)).
Proof.
  revert k. induction s as [|c r IH]; intros k;
    [now rewrite Nat.min_0_r|].
  destruct k as [|k]; [reflexivity|].
  rewrite splitn_cons, count_char_cons.
  destruct (c =? sep)%N.
  - simpl length. now rewrite IH.
  - specialize (IH (S k)).
    destruct (PyStr.splitn sep r (S k)) as [|a rest]; [discriminate|].
    exact IH.
Qed.

Lemma splitn_parts (sep : N) (s : str) (k : nat) :
  (count_char sep s <= k)%nat ->
  Forall (fun p => Py.has_char sep p = false) (PyStr.splitn sep s k).
Proof.
  revert k. induction s as [|c r IH]; intros k Hk; [now repeat constructor|].
  rewrite count_char_cons in Hk. destruct k as [|k].
  - destruct (N.eqb_spec c sep) as [->|Hc]; [lia|].
    constructor; [|constructor]. apply count_char_none.
    rewrite count_char_cons. destruct (N.eqb_spec c sep); [contradiction | lia].
  - rewrite splitn_cons. destruct (N.eqb_spec c sep) as [->|Hc].
    + constructor; [reflexivity | apply IH; lia].
    + specialize (IH (S k) Hk).
      assert ((sep =? c)%N = false) as Hs
        by (rewrite N.eqb_sym; now apply N.eqb_neq).
      destruct (PyStr.splitn sep r (S k)) as [|a rest].
      * constructor; [|constructor]. unfold Py.has_char. simpl. now rewrite Hs.
      * inversion IH as [|? ? Ha Hrest]; subst. constructor; [|exact Hrest].
        unfold Py.has_char in *. simpl. now rewrite Ha, Hs.
Qed.

Lemma split_sep_two (sep : N) (s a b : str) :
  PyStr.split_sep sep s = [a; b] ->
  s = a ++ sep :: b /\ Py.has_char sep a = false /\ Py.has_char sep b = false.
Proof.
  unfold PyStr.split_sep. intros E.
  pose proof (splitn_join sep s (length s)) as Hj.
  pose proof (splitn_parts sep s (length s) (count_char_length sep s)) as Hp.
  rewrite E in Hj, Hp. simpl in Hj.
  inversion Hp as [|? ? Ha Hb']; subst. inversion Hb' as [|? ? Hb _]; subst.
  auto.
Qed.

Lemma split1_at (sep : N) (k b : str) :
  Py.has_char sep k = false -> Py.split1 sep (k ++ sep :: b) = [k; b].
Proof.
  unfold Py.has_char. induction k as [|c k IH]; simpl.
  - now rewrite N.eqb_refl.
  - rewrite (N.eqb_sym sep c). destruct (c =? sep)%N; [discriminate|].
    simpl. intros H. now rewrite (IH H).
Qed.

(** ** The page's readers *)

Section Page.
Context {R : Py.Runtime}.




Lemma firstn_sorted {A : Type} (le : A -> A -> Prop) (n : nat) (l : list A) :
  StronglySorted le l -> StronglySorted le (firstn n l).
Proof.
  intros H. revert n. induction H as [|x l Hs IH Hx]; intros n.
  - rewrite firstn_nil. constructor.
  - destruct n as [|n]; [constructor|]. simpl. constructor; [apply IH|].
    rewrite List.Forall_forall in *. intros y Hy. apply Hx.
    now apply firstn_incl_of in Hy.
Qed.




(** *** parse_cooccurrence *)

Lemma cooccurrence_step_entries (P : (str * str) * Z -> Prop)
    (data : list ((str * str) * Z)) (line : str) :
  (forall w1 w2 count_str count,
     line = (w1 ++ 44%N :: w2) ++ 9%N :: count_str ->
     Py.has_char 9 (w1 ++ 44%N :: w2) = false ->
     Py.has_char 44 w1 = false -> Py.has_char 44 w2 = false ->
     Py.int count_str = Some count -> (2 <= count)%Z ->
     P ((w1, w2), count)) ->
  Forall P data -> Forall P (App.cooccurrence_step data line).
Proof.
  intros HP Hd. unfold App.cooccurrence_step.
  destruct (Py.has_char 9 line) eqn:Eh; cbn [negb]; [|exact Hd].
  destruct (split1_sep _ _ Eh) as [a [b [E1 [E2 E3]]]]. rewrite E1.
  destruct (Py.int b) as [count|] eqn:Ei; [|exact Hd].
  destruct (Z.ltb_spec count 2) as [Hc|Hc]; [exact Hd|].
  destruct (PyStr.split_sep 44 a) as [|w1 [|w2 [|? ?]]] eqn:Es; try exact Hd.
  apply split_sep_two in Es as [Ea [H1 H2]]. subst a.
  apply List.Forall_app. split; [exact Hd|]. constructor; [|constructor].
  now apply (HP w1 w2 b count).
Qed.

Lemma cooccurrence_fold_entries (P : (str * str) * Z -> Prop)
    (lines : list str) (data : list ((str * str) * Z)) :
  (forall line w1 w2 count_str count,
     In line lines ->
     line = (w1 ++ 44%N :: w2) ++ 9%N :: count_str ->
     Py.has_char 9 (w1 ++ 44%N :: w2) = false ->
     Py.has_char 44 w1 = false -> Py.has_char 44 w2 = false ->
     Py.int count_str = Some count -> (2 <= count)%Z ->
     P ((w1, w2), count)) ->
  Forall P data -> Forall P (fold_left App.cooccurrence_step lines data).
Proof.
  revert data. induction lines as [|line rest IH]; intros data HP Hd;
    [exact Hd|].
  cbn [fold_left]. apply IH.
  - intros l w1 w2 cs c Hin. apply HP. now right.
  - apply cooccurrence_step_entries; [|exact Hd].
    intros w1 w2 cs c. apply HP. now left.
Qed.

Lemma parse_cooccurrence_spec (lines : list str) :
  (length (App.parse_cooccurrence (Some lines)) <= 50)%nat
  /\ StronglySorted count_ge (App.parse_cooccurrence (Some lines))
  /\ Forall (fun e =>
       (2 <= snd e)%Z
       /\ Py.has_char 44 (fst (fst e)) = false
       /\ Py.has_char 44 (snd (fst e)) = false
       /\ exists count_str,
            In ((fst (fst e) ++ 44%N :: snd (fst e)) ++ 9%N :: count_str) lines
            /\ Py.int count_str = Some (snd e))
       (App.parse_cooccurrence (Some lines)).
Proof.
  unfold App.parse_cooccurrence. split; [apply firstn_le_length|].
  split; [apply firstn_sorted, sorted_by_count_desc_sorted|].
  apply (incl_Forall (l1 := fold_left App.cooccurrence_step lines [])).
  { intros e He. apply firstn_incl_of in He.
    exact (proj1 (sorted_by_count_desc_In _ _) He). }
  apply cooccurrence_fold_entries; [|constructor].
  intros line w1 w2 cs c Hin -> Ht H1 H2 Hi Hc. cbn [fst snd].
  repeat split; auto. now exists cs.
Qed.

End Page.




(** X26: [parse_cooccurrence] returns at most 50 entries, in descending
    order of count; every entry has a count of at least 2 and two words
    free of commas, and stands for a line [word1,word2<TAB>count] of the
    file: a pair with a count below 2, or with a comma inside a word,
    is not shown. *)
Theorem parse_cooccurrence_entries (R : Py.Runtime) (lines : list str) :
  (length (App.parse_cooccurrence (Some lines)) <= 50)%nat
  /\ StronglySorted count_ge (App.parse_cooccurrence (Some lines))
  /\ Forall (fun e =>
       (2 <= snd e)%Z
       /\ Py.has_char 44 (fst (fst e)) = false
       /\ Py.has_char 44 (snd (fst e)) = false
       /\ exists count_str,
            In ((fst (fst e) ++ 44%N :: snd (fst e)) ++ 9%N :: count_str) lines
            /\ Py.int count_str = Some (snd e))
       (App.parse_cooccurrence (Some lines)).
Proof. apply parse_cooccurrence_spec. Qed.

(** ** The categories of the page *)

Lemma dict_set_present_keys {V : Type} (k : str) (v : V) (d : list (str * V)) :
  In k (map fst d) -> map fst (Py.dict_set k v d) = map fst d.
Proof.
  induction d as [|[k0 v0] d IH]; simpl; [tauto|].
  destruct (Py.eqb k0 k) eqn:E; [reflexivity|]. intros [->|H].
  - now rewrite eqb_refl in E.
  - simpl. now rewrite IH.
Qed.

Lemma dict_get_present {V : Type} (k : str) (d : list (str * V)) :
  In k (map fst d) -> exists v, Py.dict_get k d = Some v.
Proof.
  intros H. destruct (Py.dict_get k d) as [v|] eqn:E; [now exists v|].
  now apply dict_get_None_keys in E.
Qed.

Lemma rule_categories :
  forallb (fun rule => existsb (Py.eqb (fst rule)) (map fst App.categories0))
          App.category_rules = true.
Proof. vm_compute. reflexivity. Qed.

Lemma find_rule_key (f : str * list str -> bool) (c : str) :
  option_map fst (find f App.category_rules) = Some c ->
  In c (map fst App.categories0).
Proof.
  destruct (find f App.category_rules) as [[c' kws]|] eqn:E; [|discriminate].
  intros [= <-]. apply find_some in E as [Hin _].
  pose proof rule_categories as H. rewrite forallb_forall in H.
  specialize (H _ Hin). apply existsb_exists in H as [x [Hx E]].
  apply eqb_eq in E. simpl in E. now subst.
Qed.

Lemma special_case_key (word c : str) :
  App.special_case word = Some c -> In c (map fst App.categories0).
Proof.
  unfold App.special_case.
  repeat match goal with
         | |- (if ?b then _ else _) = _ -> _ => destruct b
         end;
    try discriminate; intros [= <-]; vm_compute; tauto.
Qed.

Lemma category_of_key (word : str) :
  In (App.category_of word) (map fst App.categories0).
Proof.
  unfold App.category_of.
  destruct (App.direct_match word) as [c|] eqn:E1;
    [now apply find_rule_key in E1|].
  destruct (App.substring_match word) as [c|] eqn:E2;
    [now apply find_rule_key in E2|].
  destruct (App.special_case word) as [c|] eqn:E3;
    [now apply special_case_key in E3|].
  vm_compute. tauto.
Qed.

Lemma counted_cons (c : str) (hw : str * Z) (rest : list (str * Z)) :
  counted c (hw :: rest)
  = ((if Py.eqb (App.category_of (fst hw)) c then 1 else 0)
     + counted c rest)%Z.
Proof.
  unfold counted. simpl.
  destruct (Py.eqb (App.category_of (fst hw)) c); simpl length; lia.
Qed.

Lemma count_categories_spec (hotwords : list (str * Z))
    (categories : list (str * Z)) :
  map fst categories = map fst App.categories0 ->
  exists out,
    App.count_categories hotwords categories = Some out
    /\ map fst out = map fst App.categories0
    /\ (forall c, count_of c out = (count_of c categories + counted c hotwords)%Z)
    /\ sum_counts out = (sum_counts categories + Z.of_nat (length hotwords))%Z.
Proof.
  revert categories. induction hotwords as [|hw rest IH]; intros categories Hk.
  - exists categories. repeat split; [exact Hk | | simpl; lia].
    intros c. unfold counted. simpl. lia.
  - cbn [App.count_categories]. unfold App.incr.
    pose proof (category_of_key (fst hw)) as Hin. rewrite <- Hk in Hin.
    destruct (dict_get_present _ _ Hin) as [v Hv]. rewrite Hv.
    set (k := App.category_of (fst hw)) in *.
    destruct (IH (Py.dict_set k (v + 1)%Z categories)) as [out [E [K [C S]]]];
      [now rewrite dict_set_present_keys|].
    exists out. split; [exact E|]. split; [exact K|]. split.
    + intros c. rewrite C, counted_cons. fold k. unfold count_of at 1.
      rewrite dict_get_set. destruct (Py.eqb k c) eqn:Ec.
      * apply eqb_eq in Ec. subst c. unfold count_of. rewrite Hv. lia.
      * fold (count_of c categories). lia.
    + rewrite S, dict_set_sum. unfold count_of. rewrite Hv.
      cbn [length]. lia.
Qed.

(** The keywords of all the rules. *)
Lemma direct_match_keyword (word c : str) :
  App.direct_match word = Some c ->
  In word (flat_map snd App.category_rules).
Proof.
  unfold App.direct_match.
  destruct (find _ App.category_rules) as [[c' kws]|] eqn:E; [|discriminate].
  intros _. apply find_some in E as [Hin He]. simpl in He.
  apply existsb_exists in He as [x [Hx Ex]]. apply eqb_eq in Ex. subst x.
  apply in_flat_map. now exists (c', kws).
Qed.

Lemma direct_is_substring_on_keywords :
  forallb (fun w =>
             match App.direct_match w, App.substring_match w with
             | Some a, Some b => Py.eqb a b
             | _, _ => false
             end)
          (flat_map snd App.category_rules) = true.
Proof. vm_compute. reflexivity. Qed.

Lemma direct_then_substring (word c : str) :
  App.direct_match word = Some c -> App.substring_match word = Some c.
Proof.
  intros H. pose proof (direct_match_keyword word c H) as Hin.
  pose proof direct_is_substring_on_keywords as Ha.
  rewrite forallb_forall in Ha. specialize (Ha _ Hin). rewrite H in Ha.
  destruct (App.substring_match word) as [b|]; [|discriminate].
  apply eqb_eq in Ha. now subst.
Qed.

Lemma no_substring_no_keyword (word k : str) :
  App.substring_match word = None ->
  existsb (Py.eqb k) (flat_map snd App.category_rules) = true ->
  Py.contains k word = false.
Proof.
  unfold App.substring_match. intros Hn Hk.
  destruct (find _ App.category_rules) as [r|] eqn:E; [discriminate|].
  apply existsb_exists in Hk as [x [Hx Ex]]. apply eqb_eq in Ex. subst x.
  apply in_flat_map in Hx as [rule [Hr Hin]].
  pose proof (find_none _ _ E rule Hr) as Hf. simpl in Hf.
  destruct (Py.contains k word) eqn:Ec; [|reflexivity].
  assert (existsb (fun keyword => Py.contains keyword word) (snd rule) = true)
    as Ht by (apply existsb_exists; now exists k).
  congruence.
Qed.

Lemma special_case_dead (word : str) :
  App.substring_match word = None ->
  App.special_case word
  = if existsb (fun brand => Py.contains brand word) App.brands
    then Some (u "科技") else None.
Proof.
  intros Hn. unfold App.special_case.
  rewrite !(no_substring_no_keyword word _ Hn) by (vm_compute; reflexivity).
  reflexivity.
Qed.

Lemma category_of_passes (word : str) :
  App.category_of word
  = match App.substring_match word with
    | Some category => category
    | None =>
      if existsb (fun brand => Py.contains brand word) App.brands
      then u "科技" else u "其他"
    end.
Proof.
  unfold App.category_of.
  destruct (App.direct_match word) as [c|] eqn:E1.
  - now rewrite (direct_then_substring word c E1).
  - destruct (App.substring_match word) as [c|] eqn:E2; [reflexivity|].
    rewrite (special_case_dead word E2).
    now destruct (existsb _ App.brands).
Qed.

(** X27: [get_hotword_categories] never raises; it returns the six
    categories in their order, every hot word is counted under exactly
    one of them, the one of [category_of], so that the six counts add up
    to the number of hot words. *)
Theorem get_hotword_categories_counts (hotwords : list (str * Z)) :
  exists categories,
    App.get_hotword_categories hotwords = Some categories
    /\ map fst categories = map fst App.categories0
    /\ (forall c, In c (map fst App.categories0) ->
          Py.dict_get c categories = Some (counted c hotwords))
    /\ sum_counts categories = Z.of_nat (length hotwords).
Proof.
  destruct (count_categories_spec hotwords App.categories0 eq_refl)
    as [out [E [K [C S]]]].
  exists out. split; [exact E|]. split; [exact K|]. split.
  - intros c Hc. specialize (C c). rewrite <- K in Hc.
    destruct (dict_get_present _ _ Hc) as [v Hv].
    unfold count_of in C at 1. rewrite Hv in C. rewrite Hv. f_equal.
    rewrite C. clear -Hc K. rewrite K in Hc.
    assert (count_of c App.categories0 = 0%Z) as ->; [|lia].
    simpl in Hc. destruct Hc as [<-|[<-|[<-|[<-|[<-|[<-|[]]]]]]]; reflexivity.
  - rewrite S. reflexivity.
Qed.

(** X28: the category of a hot word is decided by the second loop and
    the brands alone.  A word that is itself a keyword gets from the
    first loop the category the second loop would give it, and of the
    special cases only the brands can apply: every other term they test
    is a keyword that the second loop has already looked for. *)
Theorem category_of_two_passes (word : str) :
  App.category_of word
  = match App.substring_match word with
    | Some category => category
    | None =>
      if existsb (fun brand => Py.contains brand word) App.brands
      then u "科技" else u "其他"
    end.
Proof. apply category_of_passes. Qed.

(** ** From [segment.py] to the mappers *)

Lemma split_run_solid (t cur s : str) :
  no_space t = true -> Py.split_run cur (t ++ s) = Py.split_run (rev t ++ cur) s.
Proof.
  revert cur. induction t as [|c t IH]; intros cur Ht; [reflexivity|].
  unfold no_space in Ht. simpl in Ht. apply andb_prop in Ht as [Hc Ht].
  apply negb_true_iff in Hc. simpl. rewrite Hc, (IH _ Ht).
  now rewrite <- List.app_assoc.
Qed.

Lemma split_join (toks : list str) :
  Forall (fun t => t <> [] /\ no_space t = true) toks ->
  Py.split (PyStr.join [32%N] toks) = toks.
Proof.
  unfold Py.split. induction 1 as [|a r [Ha Na] Hr IH]; [reflexivity|].
  assert (rev a <> []) as Hrev.
  { intros E. apply (f_equal (@rev N)) in E. now rewrite rev_involutive in E. }
  destruct r as [|b r].
  - simpl. rewrite <- (app_nil_r a) at 1.
    rewrite (split_run_solid a [] [] Na), app_nil_r. simpl.
    destruct (rev a) eqn:E; [contradiction|]. now rewrite <- E, rev_involutive.
  - rewrite join_cons, (split_run_solid a [] _ Na), app_nil_r.
    cbn [app Py.split_run]. change (Py.isspace 32) with true. cbv iota.
    destruct (rev a) eqn:E; [contradiction|].
    rewrite <- E, rev_involutive. f_equal. exact IH.
Qed.

Lemma str_join_head (sep a : str) (r : list str) :
  exists rest, PyStr.join sep (a :: r) = a ++ rest.
Proof.
  destruct r as [|b r]; [exists []; simpl; now rewrite app_nil_r|].
  rewrite join_cons. now eexists.
Qed.

Lemma str_join_last (sep : str) (toks : list str) :
  toks <> [] ->
  exists pre z, PyStr.join sep toks = pre ++ z /\ In z toks.
Proof.
  induction toks as [|a r IH]; [contradiction|]. intros _.
  destruct r as [|b r]; [exists [], a; simpl; auto|].
  destruct IH as [pre [z [E Hz]]]; [discriminate|].
  exists (a ++ sep ++ pre), z. rewrite join_cons, E, <- !List.app_assoc.
  split; [reflexivity | now right].
Qed.

Lemma join_count (c : N) (toks : list str) :
  c <> 32%N ->
  Forall (fun t => Py.has_char c t = false) toks ->
  count_char c (PyStr.join [32%N] toks) = 0%nat.
Proof.
  intros Hc. induction 1 as [|a r Ha Hr IH]; [reflexivity|].
  apply count_char_none in Ha. destruct r as [|b r]; [exact Ha|].
  rewrite join_cons, !count_char_app, Ha, IH. cbn [count_char].
  unfold count_char. simpl. destruct (N.eqb_spec c 32); [contradiction|].
  reflexivity.
Qed.

Lemma strip_solid_ends (s : str) :
  Py.lstrip s = s ->
  (exists pre z, s = pre ++ z /\ z <> [] /\ no_space z = true) ->
  Py.strip s = s.
Proof.
  intros Hl [pre [z [E [Hz Nz]]]]. unfold Py.strip. rewrite Hl.
  rewrite E. now apply rstrip_app_solid.
Qed.

Lemma count_char_strip (c : N) (s : str) :
  (count_char c (Py.strip s) <= count_char c s)%nat.
Proof.
  destruct (strip_infix s) as [a [z E]]. rewrite E at 2.
  rewrite !count_char_app. lia.
Qed.

Section SegmentLines.
Context {R : Py.Runtime}.
Variable pseg : option (str -> list (str * str)).
Variable lcut : str -> list str.

Lemma isdigit_no_comma (s : str) :
  Py.isdigit s = true -> Py.has_char 44 s = false.
Proof.
  unfold Py.isdigit. destruct s as [|c0 s0]; [discriminate|].
  generalize (c0 :: s0). clear. intros s H. unfold Py.has_char.
  induction s as [|c s IH]; [reflexivity|]. cbn [forallb existsb] in *.
  apply andb_prop in H as [Hc Hs]. rewrite (IH Hs), orb_false_r.
  destruct (N.eqb_spec 44 c) as [<-|]; [discriminate | reflexivity].
Qed.

Lemma out_line_shape (stop_set : gset str) (line out : str) :
  SegmentMain.out_line pseg lcut stop_set line = Some out ->
  exists rank_str title,
    Py.isdigit rank_str = true /\ Py.strip rank_str = rank_str
    /\ Segment.tokenize pseg lcut title stop_set <> []
    /\ out = rank_str ++ [44%N]
             ++ PyStr.join [32%N] (Segment.tokenize pseg lcut title stop_set).
Proof.
  unfold SegmentMain.out_line.
  destruct (Py.strip line) as [|c l]; [discriminate|].
  destruct (negb (Py.has_char 44 (c :: l))); [discriminate|].
  destruct (Py.split1 44 (c :: l)) as [|r [|t [|? ?]]]; try discriminate.
  destruct (Py.isdigit (Py.strip r)) eqn:Ed; cbn [negb]; [|discriminate].
  destruct (Segment.tokenize pseg lcut (Py.strip t) stop_set) as [|t0 ts] eqn:Et;
    [discriminate|].
  intros [= <-]. exists (Py.strip r), (Py.strip t). rewrite Et.
  repeat split; [exact Ed | apply strip_idem | discriminate].
Qed.

(** A line with fewer than two commas. *)
Lemma time_dist_step_few_commas {C : TimeDistMapper.Clock} (line : str) :
  (count_char 44 line <= 1)%nat -> TimeDistMapper.step line = [].
Proof.
  intros H. unfold TimeDistMapper.step.
  pose proof (count_char_strip 44 line) as Hs.
  destruct (Py.strip line) as [|c l]; [reflexivity|].
  destruct (Py.startswith (c :: l) (u "#")); [reflexivity|].
  rewrite splitn_length.
  destruct (Nat.ltb_spec (S (Nat.min 2 (count_char 44 (c :: l)))) 3);
    [reflexivity | lia].
Qed.

Lemma segment_line_commas (stop_set : gset str) (line out : str) :
  (forall title, Forall (fun t => Py.has_char 44 t = false)
                        (Segment.tokenize pseg lcut title stop_set)) ->
  SegmentMain.out_line pseg lcut stop_set line = Some out ->
  count_char 44 out = 1%nat.
Proof.
  intros Ht Ho. apply out_line_shape in Ho as [r [t [Hd [_ [_ ->]]]]].
  rewrite !count_char_app, (join_count 44 _ ltac:(discriminate) (Ht t)).
  apply isdigit_no_comma, count_char_none in Hd. rewrite Hd. reflexivity.
Qed.

Lemma time_dist_on_segment_lines {C : TimeDistMapper.Clock}
    (stop_set : gset str) (lines : list str) :
  (forall title, Forall (fun t => Py.has_char 44 t = false)
                        (Segment.tokenize pseg lcut title stop_set)) ->
  TimeDistMapper.main (SegmentMain.out_lines pseg lcut stop_set lines) = [].
Proof.
  intros Ht. unfold TimeDistMapper.main, SegmentMain.out_lines.
  induction lines as [|line rest IH]; [reflexivity|].
  cbn [omap list_omap].
  destruct (SegmentMain.out_line pseg lcut stop_set line) as [out|] eqn:E;
    [|exact IH].
  cbn [flat_map]. rewrite time_dist_step_few_commas; [exact IH|].
  rewrite (segment_line_commas stop_set line out Ht E). lia.
Qed.

(** The frequency mapper and the co-occurrence mapper on a line of
    [news_seg.txt]. *)
Lemma segment_line_parts (stop_set : gset str) (line out : str) :
  (forall title, Forall (fun t => no_space t = true)
                        (Segment.tokenize pseg lcut title stop_set)) ->
  SegmentMain.out_line pseg lcut stop_set line = Some out ->
  exists rank_str toks,
    (exists title, toks = Segment.tokenize pseg lcut title stop_set)
    /\ toks <> [] /\ Py.isdigit rank_str = true
    /\ out = rank_str ++ [44%N] ++ PyStr.join [32%N] toks
    /\ Py.strip out = out
    /\ Py.split1 44 out = [rank_str; PyStr.join [32%N] toks]
    /\ Py.strip rank_str = rank_str
    /\ Py.strip (PyStr.join [32%N] toks) = PyStr.join [32%N] toks
    /\ PyStr.join [32%N] toks <> []
    /\ Py.split (PyStr.join [32%N] toks) = toks.
Proof.
  intros Ht Ho. apply out_line_shape in Ho as [r [t [Hd [Hr [Hn ->]]]]].
  set (toks := Segment.tokenize pseg lcut t stop_set) in *.
  assert (Forall (fun x => x <> [] /\ no_space x = true) toks) as Hs.
  { pose proof (tokenize_good pseg lcut t stop_set) as Hg. fold toks in Hg.
    specialize (Ht t). fold toks in Ht. rewrite List.Forall_forall in *.
    intros x Hx. split; [|now apply Ht].
    intros ->. now specialize (Hg _ Hx). }
  assert (exists pre z, PyStr.join [32%N] toks = pre ++ z
                        /\ z <> [] /\ no_space z = true) as Hl.
  { destruct (str_join_last [32%N] toks Hn) as [pre [z [E Hz]]].
    rewrite List.Forall_forall in Hs. destruct (Hs z Hz).
    now exists pre, z. }
  assert (PyStr.join [32%N] toks <> []) as Hj.
  { destruct Hl as [pre [z [E [Hz _]]]]. rewrite E. now destruct pre, z. }
  assert (r <> []) as Hrn by (intros ->; discriminate).
  assert (Py.lstrip r = r) as Hlr.
  { pose proof (rstrip_prefix (Py.lstrip r)) as [z Hz].
    fold (Py.strip r) in Hz. rewrite Hr in Hz.
    pose proof (lstrip_head r) as Hh. rewrite Hz in Hh.
    destruct r as [|c r']; [contradiction|]. simpl in Hh. simpl.
    now rewrite Hh. }
  exists r, toks. split; [now exists t|]. split; [exact Hn|].
  split; [exact Hd|]. split; [reflexivity|].
  repeat split.
  - apply strip_solid_ends.
    + destruct r as [|c r']; [contradiction|]. simpl in *.
      destruct (Py.isspace c); [|reflexivity].
      pose proof (lstrip_length r'). rewrite Hlr in H. simpl in H. lia.
    + destruct Hl as [pre [z [E [Hz Nz]]]].
      exists (r ++ [44%N] ++ pre), z. rewrite E, <- !List.app_assoc. auto.
  - apply (split1_at 44 r). now apply isdigit_no_comma.
  - exact Hr.
  - apply strip_solid_ends; [|exact Hl].
    destruct toks as [|a rest]; [contradiction|].
    destruct (str_join_head [32%N] a rest) as [rest' E]. rewrite E.
    inversion Hs as [|? ? [Ha Na] _]; subst. now apply lstrip_solid_head.
  - exact Hj.
  - now apply split_join.
Qed.

Lemma mappers_on_segment_line (stop_set : gset str) (line out : str) :
  (forall title, Forall (fun t => no_space t = true)
                        (Segment.tokenize pseg lcut title stop_set)) ->
  SegmentMain.out_line pseg lcut stop_set line = Some out ->
  exists rank_str toks,
    (exists title, toks = Segment.tokenize pseg lcut title stop_set)
    /\ out = rank_str ++ [44%N] ++ PyStr.join [32%N] toks
    /\ (forall seen,
          Mapper.step seen out
          = match Py.int rank_str with
            | Some rank => Mapper.emit (Mapper.weight_of_rank rank) toks seen
            | None => (seen, [])
            end)
    /\ CooccurrenceMapper.valid_tokens out
       = List.filter (fun t => (2 <=? length t)%nat) toks.
Proof.
  intros Ht Ho.
  destruct (segment_line_parts stop_set line out Ht Ho)
    as [r [toks [Hex [Hn [Hd [E [Hso [Hsp [Hsr [Hsj [Hj Hsplit]]]]]]]]]]].
  exists r, toks. split; [exact Hex|]. split; [exact E|].
  assert (Py.has_char 44 out = true) as Hc.
  { rewrite E. unfold Py.has_char. rewrite existsb_app. simpl.
    apply orb_true_r. }
  assert (out <> []) as Hne by (rewrite E; now destruct r).
  split.
  - intros seen. unfold Mapper.step. rewrite Hso.
    destruct out as [|c0 o0] eqn:Eo; [contradiction|]. rewrite <- Eo in *.
    rewrite Hc. cbn [negb]. unfold Mapper.parse. rewrite Hsp.
    unfold Mapper.rank_str, Mapper.tokens_str. cbn [nth length Nat.ltb Nat.leb].
    rewrite Hsr, Hsj. destruct (Py.int r) as [rank|]; [|reflexivity].
    destruct (PyStr.join [32%N] toks) eqn:Ej; [contradiction|].
    now rewrite Hsplit.
  - unfold CooccurrenceMapper.valid_tokens. rewrite Hso.
    destruct out as [|c0 o0] eqn:Eo; [contradiction|]. rewrite <- Eo in *.
    rewrite Hc. cbn [negb]. rewrite Hsp. cbn [nth length Nat.ltb Nat.leb].
    rewrite Hsj. destruct (PyStr.join [32%N] toks) eqn:Ej; [contradiction|].
    now rewrite Hsplit.
Qed.

End SegmentLines.

(** X29: the time-distribution mapper prints nothing for the file
    [segment.py] writes and [app.py] feeds it: a line [rank,token ...]
    holds one comma, the mapper asks for two.  This holds for every
    segmenter whose tokens hold no comma. *)
Theorem time_dist_mapper_silent_on_news_seg
    (R : Py.Runtime) (C : TimeDistMapper.Clock)
    (pseg : option (str -> list (str * str))) (lcut : str -> list str)
    (stop_set : gset str) (lines : list str) :
  (forall title, Forall (fun t => Py.has_char 44 t = false)
                        (Segment.tokenize pseg lcut title stop_set)) ->
  TimeDistMapper.main (SegmentMain.out_lines pseg lcut stop_set lines) = [].
Proof. apply time_dist_on_segment_lines. Qed.

Lemma time_dist_mapper_silent_on_news_seg_witness :
  TimeDistMapper.main (R := Py.bare_runtime) (C := utc)
    (SegmentMain.out_lines (R := Py.bare_runtime) None
       (fun _ => [u "苹果"; u "发布"; u "手机"]) ∅
       [u "1,苹果发布手机"; u "2,苹果 手机"]) = [].
Proof.
  assert (forall title,
            Forall (fun t => Py.has_char 44 t = false)
              (Segment.tokenize (R := Py.bare_runtime) None
                 (fun _ => [u "苹果"; u "发布"; u "手机"]) title ∅)) as H.
  { intros title. unfold Segment.tokenize.
    destruct (Segment.clean_title title); [constructor|].
    vm_compute. repeat constructor. }
  exact (time_dist_mapper_silent_on_news_seg Py.bare_runtime utc None
           (fun _ => [u "苹果"; u "发布"; u "手机"]) ∅
           [u "1,苹果发布手机"; u "2,苹果 手机"] H).
Defined.

(** X30: the two mappers get back the tokens [segment.py] joined.  For
    a segmenter whose tokens hold no whitespace, on a line
    [rank,token ...] of [news_seg.txt] the frequency mapper runs its
    token loop over exactly the tokens of [tokenize], with the weight of
    the rank if [int] accepts what [isdigit] accepted and no record
    otherwise, and the co-occurrence mapper pairs exactly those tokens
    that have two characters or more. *)
Theorem mappers_read_segment_line
    (R : Py.Runtime)
    (pseg : option (str -> list (str * str))) (lcut : str -> list str)
    (stop_set : gset str) (line out : str) :
  (forall title, Forall (fun t => no_space t = true)
                        (Segment.tokenize pseg lcut title stop_set)) ->
  SegmentMain.out_line pseg lcut stop_set line = Some out ->
  exists rank_str toks,
    (exists title, toks = Segment.tokenize pseg lcut title stop_set)
    /\ out = rank_str ++ [44%N] ++ PyStr.join [32%N] toks
    /\ (forall seen,
          Mapper.step seen out
          = match Py.int rank_str with
            | Some rank => Mapper.emit (Mapper.weight_of_rank rank) toks seen
            | None => (seen, [])
            end)
    /\ CooccurrenceMapper.valid_tokens out
       = List.filter (fun t => (2 <=? length t)%nat) toks.
Proof. apply mappers_on_segment_line. Qed.

Lemma mappers_read_segment_line_witness :
  exists rank_str toks,
    (exists title,
       toks = Segment.tokenize (R := Py.bare_runtime) None
                (fun _ => [u "苹果"; u "发布"; u "手机"]) title ∅)
    /\ u "1,苹果发布 发布手机 苹果 发布 手机"
       = rank_str ++ [44%N] ++ PyStr.join [32%N] toks
    /\ (forall seen,
          Mapper.step (R := Py.bare_runtime) seen (u "1,苹果发布 发布手机 苹果 发布 手机")
          = match Py.int (R := Py.bare_runtime) rank_str with
            | Some rank => Mapper.emit (Mapper.weight_of_rank rank) toks seen
            | None => (seen, [])
            end)
    /\ CooccurrenceMapper.valid_tokens (u "1,苹果发布 发布手机 苹果 发布 手机")
       = List.filter (fun t => (2 <=? length t)%nat) toks.
Proof.
  assert (forall title,
            Forall (fun t => no_space t = true)
              (Segment.tokenize (R := Py.bare_runtime) None
                 (fun _ => [u "苹果"; u "发布"; u "手机"]) title ∅)) as H.
  { intros title. unfold Segment.tokenize.
    destruct (Segment.clean_title title); [constructor|].
    vm_compute. repeat constructor. }
  assert (SegmentMain.out_line (R := Py.bare_runtime) None
            (fun _ => [u "苹果"; u "发布"; u "手机"]) ∅ (u "1,苹果发布手机")
          = Some (u "1,苹果发布 发布手机 苹果 发布 手机")) as Ho
    by (vm_compute; reflexivity).
  exact (mappers_read_segment_line Py.bare_runtime None
           (fun _ => [u "苹果"; u "发布"; u "手机"]) ∅
           (u "1,苹果发布手机") (u "1,苹果发布 发布手机 苹果 发布 手机") H Ho).
Defined.

(** ** What the frequency reducer writes for grouped input *)

Lemma written_lines {R : Py.Runtime} (out : list (str * Z)) :
  Forall2 (fun r line => Stdout.record r = Some line)
          (firstn (length (Stdout.written out)) out) (Stdout.written out).
Proof.
  induction out as [|r rest IH]; [constructor|]. cbn [Stdout.written].
  destruct (Stdout.record r) as [line|] eqn:E; [|constructor].
  cbn [length firstn]. now constructor.
Qed.

Lemma kept_keys_distinct (out dropped l : list (str * Z)) :
  Permutation (out ++ dropped) l ->
  List.NoDup (map fst l) -> List.NoDup (map fst out).
Proof.
  intros Hp Hn. apply (Permutation_map fst), Permutation_sym in Hp.
  apply (Permutation_NoDup Hp) in Hn. rewrite map_app in Hn.
  now apply NoDup_app_remove_r in Hn.
Qed.

Lemma reducer_main_kept {R : Py.Runtime} (stdin : list str) (out : list (str * Z)) :
  Reducer.main stdin = Some out ->
  exists dropped, Permutation (out ++ dropped) (Reducer.aggregate stdin).
Proof.
  unfold Reducer.main. intros H.
  pose proof (dedup_drops (Reducer.aggregate stdin)) as Hd.
  destruct (Reducer.aggregate stdin) as [|p l] eqn:E.
  - injection H as <-. now exists [].
  - rewrite H in Hd. now destruct Hd as [Hd _].
Qed.

(** C5, as stated: the two lines 足球 10 and 中国足球 8 are well-formed
    and grouped by key, yet the frequency reducer writes one line only:
    [deduplicate_by_inclusion] drops the key 足球 before the write
    loop. *)
Lemma reducer_drops_grouped_key :
  groupedb (records (R := Py.bare_runtime)
              [record_line (u "足球") (u "10");
               record_line (u "中国足球") (u "8")]) = true
  /\ records (R := Py.bare_runtime)
       [record_line (u "足球") (u "10"); record_line (u "中国足球") (u "8")]
     = [(u "足球", 10%Z); (u "中国足球", 8%Z)]
  /\ Reducer.main (R := Py.bare_runtime)
       [record_line (u "足球") (u "10"); record_line (u "中国足球") (u "8")]
     = Some [(u "中国足球", 8%Z)]
  /\ Stdout.written (R := Py.bare_runtime) [(u "中国足球", 8%Z)]
     = [record_line (u "中国足球") (u "8") ++ [10%N]].
Proof. repeat split; vm_compute; reflexivity. Qed.

(** C5, amended: when the records of the well-formed lines come grouped
    by key, the list the frequency reducer aggregates, and likewise what
    the co-occurrence reducer prints, holds each key of those records
    exactly once, with the sum of the key's values, the last group
    included.  A line that is not well-formed (no tab once stripped, or
    a value that is not an integer) is passed over and leaves every sum
    as it was.  The frequency reducer does not write that list as it
    is: it writes what [deduplicate_by_inclusion] keeps of it, so a key
    is written at most once, with the sum of its values, and the other
    keys are dropped; each line written is the line of one of the pairs
    kept, in their order, up to a write that raises. *)
Theorem reducer_sums_grouped_keys (R : Py.Runtime) (stdin : list str) :
  groupedb (records stdin) = true ->
  List.NoDup (map fst (Reducer.aggregate stdin))
  /\ (forall k, In k (map fst (Reducer.aggregate stdin))
                <-> In k (map fst (records stdin)))
  /\ Forall (fun kc => snd kc = value_sum (fst kc) (records stdin))
            (Reducer.aggregate stdin)
  /\ CooccurrenceReducer.main stdin = Reducer.aggregate stdin
  /\ (forall before bad after,
        Reducer.parse_line bad = None ->
        Reducer.aggregate (before ++ bad :: after)
        = Reducer.aggregate (before ++ after))
  /\ (forall line, Py.has_char 9 (Py.strip line) = false ->
                   Reducer.parse_line line = None)
  /\ (forall line,
        (forall a b, Py.split1 9 (Py.strip line) = [a; b] -> Py.int b = None) ->
        Reducer.parse_line line = None)
  /\ match Reducer.main stdin with
     | Some out =>
       List.NoDup (map fst out)
       /\ Forall (fun kc => In (fst kc) (map fst (records stdin))
                            /\ snd kc = value_sum (fst kc) (records stdin))
                 out
       /\ (exists dropped,
             Permutation (out ++ dropped) (Reducer.aggregate stdin))
       /\ Forall2 (fun r line => Stdout.record r = Some line)
                  (firstn (length (Stdout.written out)) out)
                  (Stdout.written out)
     | None => exists p, In p (Reducer.aggregate stdin)
                         /\ Py.float_of_int (snd p) = None
     end.
Proof.
  intros Hg. pose proof (reducer_main_within_aggregate stdin) as Hm.
  pose proof (reducer_main_kept stdin) as Hk. revert Hm Hk.
  rewrite aggregate_runs.
  destruct (runs_grouped _ Hg) as [Hn Hs]. intros Hm Hk.
  split; [exact Hn|]. split; [intros k; apply runs_keys|].
  split; [exact Hs|]. split; [rewrite <- aggregate_runs;
                              apply cooccurrence_main_is_aggregate|].
  split.
  { intros before bad after Hbad. rewrite !aggregate_runs. f_equal.
    unfold records. rewrite !omap_app. simpl. now rewrite Hbad. }
  split; [apply parse_line_no_tab|]. split; [apply parse_line_bad_value|].
  destruct (Reducer.main stdin) as [out|]; [|exact Hm].
  destruct Hm as [Hin _]. destruct (Hk out eq_refl) as [dropped Hp].
  split; [exact (kept_keys_distinct _ _ _ Hp Hn)|].
  split; [|split; [now exists dropped | apply written_lines]].
  apply List.Forall_forall. intros kc Hkc. apply Hin in Hkc. split.
  - apply runs_keys. now apply (in_map fst) in Hkc.
  - rewrite List.Forall_forall in Hs. now apply Hs.
Qed.

Lemma reducer_sums_grouped_keys_witness :
  Reducer.aggregate (R := Py.bare_runtime)
    [record_line (u "地震") (u "5"); record_line (u "地震") (u "3");
     u "no tab here"; record_line (u "地震") (u "x");
     record_line (u "高考") (u "2")]
  = [(u "地震", 8%Z); (u "高考", 2%Z)]
  /\ List.NoDup (map fst (Reducer.aggregate (R := Py.bare_runtime)
    [record_line (u "地震") (u "5"); record_line (u "地震") (u "3");
     u "no tab here"; record_line (u "地震") (u "x");
     record_line (u "高考") (u "2")])).
Proof.
  split; [vm_compute; reflexivity|].
  apply (reducer_sums_grouped_keys Py.bare_runtime). vm_compute. reflexivity.
Defined.
